(** * VPlan recipes: effect classification, block membership and lowering

    A shallow embedding of [llvm/lib/Transforms/Vectorize/VPlanRecipes.cpp].
    Recipes are records, the transform state is threaded explicitly through a
    small state-and-failure monad, failed [assert]s and [llvm_unreachable] are
    outcomes of their own, and the IR that lowering emits is a first-order
    datatype whose instructions carry the identity of the object that the
    emitter allocated. *)

From Stdlib Require Import ZArith List Bool Lia.
From stdpp Require Import base numbers option list strings gmap fin_maps.

Local Open Scope string_scope.
Local Open Scope Z_scope.
Local Open Scope list_scope.

(** ** Outcomes of a call *)

(** A call returns, trips an [assert] or a checked cast, reaches an
    [llvm_unreachable], or leaves the part of the program that this
    development covers. *)
Inductive Result (A : Type) : Type :=
| Ok (a : A)
| AssertionFailure (msg : string)
| Unreachable (msg : string)
| Unmodelled (msg : string).
Arguments Ok {A} a.
Arguments AssertionFailure {A} msg.
Arguments Unreachable {A} msg.
Arguments Unmodelled {A} msg.

Definition Result_bind {A B : Type} (r : Result A) (k : A -> Result B) : Result B :=
  match r with
  | Ok a => k a
  | AssertionFailure m => AssertionFailure m
  | Unreachable m => Unreachable m
  | Unmodelled m => Unmodelled m
  end.

Definition isAssertionFailure {A : Type} (r : Result A) : bool :=
  match r with AssertionFailure _ => true | _ => false end.

(** ** The IR side: element counts, types, opcodes, values *)

(** [ElementCount]: a minimum lane count, exact unless [Scalable]. *)
Record ElementCount : Type := mkElementCount {
  getKnownMinValue : nat;
  isScalable : bool
}.

Definition ElementCount_isScalar (VF : ElementCount) : bool :=
  negb (isScalable VF) && Nat.eqb (getKnownMinValue VF) 1.

Definition ElementCount_isVector (VF : ElementCount) : bool :=
  (isScalable VF && negb (Nat.eqb (getKnownMinValue VF) 0))
  || Nat.ltb 1 (getKnownMinValue VF).

Inductive Ty : Type :=
| IntegerTy (bits : N)
| FloatTy
| DoubleTy
| PointerTy
| VoidTy
| VectorTy (elt : Ty) (ec : ElementCount).

Definition isVectorTy (t : Ty) : bool :=
  match t with VectorTy _ _ => true | _ => false end.

Definition getScalarType (t : Ty) : Ty :=
  match t with VectorTy e _ => e | _ => t end.

Definition VectorType_get (elt : Ty) (VF : ElementCount) : Ty := VectorTy elt VF.

Module Instruction.
Inductive BinaryOps : Type :=
| Add | FAdd | Sub | FSub | Mul | FMul | UDiv | SDiv | FDiv
| URem | SRem | FRem | Shl | LShr | AShr | And | Or | Xor.

Inductive UnaryOps : Type := FNeg.

Inductive CastOps : Type :=
| Trunc | ZExt | SExt | FPToUI | FPToSI | UIToFP | SIToFP
| FPTrunc | FPExt | PtrToInt | IntToPtr | BitCast.

Inductive Opcode : Type :=
| Binary (o : BinaryOps)
| Unary (o : UnaryOps)
| Cast (o : CastOps)
| ICmp | FCmp | PHI | Call | Select | Freeze | GetElementPtr | Br
| Load | Store | Other.

Definition isBinaryOp (o : Opcode) : bool :=
  match o with Binary _ => true | _ => false end.
End Instruction.

(** Fast-math flags, as the seven bits of [FastMathFlags]. *)
Record FastMathFlags : Type := mkFMF {
  AllowReassoc : bool; NoNaNs : bool; NoInfs : bool; NoSignedZeros : bool;
  AllowReciprocal : bool; AllowContract : bool; ApproxFunc : bool
}.

Definition FMF_none : FastMathFlags := mkFMF false false false false false false false.

(** The flags an instruction object carries and that [copyIRFlags] moves. *)
Record IRFlags : Type := mkIRFlags {
  HasNoUnsignedWrap : bool;
  HasNoSignedWrap : bool;
  IsExact : bool;
  InstFMF : FastMathFlags
}.

Definition IRFlags_none : IRFlags := mkIRFlags false false false FMF_none.

Inductive Predicate : Type :=
| ICMP_EQ | ICMP_NE | ICMP_ULE | ICMP_ULT | ICMP_UGT | ICMP_UGE
| ICMP_SLT | ICMP_SLE | ICMP_SGT | ICMP_SGE | FCMP_other (n : nat).

(** IR values. Constants and arguments are identified by their content; every
    instruction carries the [id] that the emitter gave the object when it
    allocated it, so two references denote the same object exactly when they
    are equal. Attributes that the code changes after creation (wrap and exact
    flags, incoming edges of a phi, successors of a branch) are kept in the
    function store below, under that [id]. A [ConstantInt] holds its value as
    the unsigned number below [2 ^ bits]. *)
Inductive Value : Type :=
| Argument (n : nat) (ty : Ty)
| ConstantInt (bits : N) (v : Z)
| ConstantFP (ty : Ty) (repr : Z)
| ConstantDataVector (bits : N) (elts : list Z)
| ConstantSplat (ec : ElementCount) (elt : Value)
| PoisonValue (ty : Ty)
| BinaryOperator (id : nat) (opc : Instruction.BinaryOps) (a b : Value)
| UnaryOperator (id : nat) (opc : Instruction.UnaryOps) (a : Value)
| ICmpInst (id : nat) (p : Predicate) (a b : Value)
| FCmpInst (id : nat) (p : Predicate) (a b : Value)
| SelectInst (id : nat) (c a b : Value)
| CastInst (id : nat) (opc : Instruction.CastOps) (a : Value) (dest : Ty)
| FreezeInst (id : nat) (a : Value)
| PHINode (id : nat) (ty : Ty)
| InsertElementInst (id : nat) (vec elt idx : Value)
| ExtractElementInst (id : nat) (vec idx : Value)
| VectorSplat (id : nat) (ec : ElementCount) (v : Value)
| VectorSplice (id : nat) (a b : Value) (imm : Z)
| StepVectorCall (id : nat) (ty : Ty)
| VScaleCall (id : nat) (ty : Ty)
| ActiveLaneMaskCall (id : nat) (predTy : Ty) (a b : Value)
| BranchInst (id : nat) (cond : Value).

Fixpoint getType (v : Value) : Ty :=
  match v with
  | Argument _ ty => ty
  | ConstantInt bits _ => IntegerTy bits
  | ConstantFP ty _ => ty
  | ConstantDataVector bits elts =>
      VectorTy (IntegerTy bits) (mkElementCount (length elts) false)
  | ConstantSplat ec elt => VectorTy (getType elt) ec
  | PoisonValue ty => ty
  | BinaryOperator _ _ a _ => getType a
  | UnaryOperator _ _ a => getType a
  | ICmpInst _ _ a _ | FCmpInst _ _ a _ =>
      match getType a with
      | VectorTy _ ec => VectorTy (IntegerTy 1) ec
      | _ => IntegerTy 1
      end
  | SelectInst _ _ a _ => getType a
  | CastInst _ _ _ dest => dest
  | FreezeInst _ a => getType a
  | PHINode _ ty => ty
  | InsertElementInst _ vec _ _ => getType vec
  | ExtractElementInst _ vec _ => getScalarType (getType vec)
  | VectorSplat _ ec v => VectorTy (getType v) ec
  | VectorSplice _ a _ _ => getType a
  | StepVectorCall _ ty => ty
  | VScaleCall _ ty => ty
  | ActiveLaneMaskCall _ predTy _ _ => predTy
  | BranchInst _ _ => VoidTy
  end.

(** [isa<Instruction>(V)], with the identity of the instruction object. *)
Definition dyn_cast_Instruction (v : Value) : option nat :=
  match v with
  | BinaryOperator id _ _ _ | UnaryOperator id _ _ | ICmpInst id _ _ _
  | FCmpInst id _ _ _ | SelectInst id _ _ _ | CastInst id _ _ _
  | FreezeInst id _ | PHINode id _ | InsertElementInst id _ _ _
  | ExtractElementInst id _ _ | VectorSplat id _ _ | VectorSplice id _ _ _
  | StepVectorCall id _ | VScaleCall id _ | ActiveLaneMaskCall id _ _ _
  | BranchInst id _ => Some id
  | _ => None
  end.

Definition ConstantInt_isZero (v : Z) : bool := Z.eqb v 0.
Definition ConstantInt_isOne (v : Z) : bool := Z.eqb v 1.

(** [dyn_cast<ConstantInt>(V)]: the constant's value when [V] is one. *)
Definition dyn_cast_ConstantInt (v : Value) : option (N * Z) :=
  match v with ConstantInt bits z => Some (bits, z) | _ => None end.

(** ** The original scalar operation a recipe mirrors *)

(** What this file asks of an original [Instruction]: its opcode, its flags,
    and the three effect queries of the IR. *)
Record OrigInstruction : Type := mkOrigInstruction {
  getOpcode : Instruction.Opcode;
  getIRFlags : IRFlags;
  getPredicate : Predicate;
  getInstType : Ty;
  getDebugLoc : nat;
  I_mayWriteToMemory : bool;
  I_mayReadFromMemory : bool;
  I_mayHaveSideEffects : bool
}.

(** The underlying value of a plan value: an instruction of the original loop,
    or any other IR value (a constant, an argument). A null underlying value is
    [None] at the use site. *)
Inductive UnderlyingValue : Type :=
| UInstruction (Inst : OrigInstruction)
| UValue (v : Value).

Definition dyn_cast_or_null_Instruction (u : option UnderlyingValue)
  : option OrigInstruction :=
  match u with Some (UInstruction Inst) => Some Inst | _ => None end.

Definition cast_Instruction (u : option UnderlyingValue) : Result OrigInstruction :=
  match u with
  | Some (UInstruction Inst) => Ok Inst
  | Some (UValue _) => AssertionFailure "cast<Ty>() argument of incompatible type!"
  | None => AssertionFailure "cast<Ty>() on a null value"
  end.

(** ** Recipe kinds and the effect classifier *)

(** The kind tags, one per recipe class this file names. *)
Inductive VPDefID : Type :=
| VPBranchOnMaskSC | VPExpandSCEVSC | VPInstructionSC | VPInterleaveSC
| VPReductionSC | VPReplicateSC | VPScalarIVStepsSC | VPWidenCallSC
| VPWidenCanonicalIVSC | VPWidenGEPSC | VPWidenMemoryInstructionSC
| VPWidenSC | VPWidenSelectSC | VPBlendSC | VPCanonicalIVPHISC
| VPFirstOrderRecurrencePHISC | VPWidenPHISC | VPWidenIntOrFpInductionSC
| VPWidenPointerInductionSC | VPPredInstPHISC | VPReductionPHISC.

(** What the classifier reads of a recipe: its kind, the underlying value of
    its single defined value, and, for a memory recipe, whether it is a store.
    Recipes of the kinds that reach [getVPSingleValue] define exactly one
    value by construction of their classes. *)
Record VPRecipeBase : Type := mkVPRecipeBase {
  getVPDefID : VPDefID;
  getUnderlyingValue : option UnderlyingValue;
  isStore : bool
}.

Definition VPRecipeBase_mayWriteToMemory (R : VPRecipeBase) : Result bool :=
  match getVPDefID R with
  | VPWidenMemoryInstructionSC => Ok (isStore R)
  | VPReplicateSC | VPWidenCallSC =>
      Result_bind (cast_Instruction (getUnderlyingValue R))
        (fun Inst => Ok (I_mayWriteToMemory Inst))
  | VPBranchOnMaskSC => Ok false
  | VPWidenIntOrFpInductionSC | VPWidenCanonicalIVSC | VPWidenPHISC
  | VPBlendSC | VPWidenSC | VPWidenGEPSC | VPReductionSC | VPWidenSelectSC =>
      match dyn_cast_or_null_Instruction (getUnderlyingValue R) with
      | Some Inst =>
          if negb (I_mayWriteToMemory Inst) then Ok false
          else AssertionFailure "underlying instruction may write to memory"
      | None => Ok false
      end
  | _ => Ok true
  end.

Definition VPRecipeBase_mayReadFromMemory (R : VPRecipeBase) : Result bool :=
  match getVPDefID R with
  | VPWidenMemoryInstructionSC => Ok (negb (isStore R))
  | VPReplicateSC | VPWidenCallSC =>
      Result_bind (cast_Instruction (getUnderlyingValue R))
        (fun Inst => Ok (I_mayReadFromMemory Inst))
  | VPBranchOnMaskSC => Ok false
  | VPWidenIntOrFpInductionSC | VPWidenCanonicalIVSC | VPWidenPHISC
  | VPBlendSC | VPWidenSC | VPWidenGEPSC | VPReductionSC | VPWidenSelectSC =>
      match dyn_cast_or_null_Instruction (getUnderlyingValue R) with
      | Some Inst =>
          if negb (I_mayReadFromMemory Inst) then Ok false
          else AssertionFailure "underlying instruction may read from memory"
      | None => Ok false
      end
  | _ => Ok true
  end.

Definition VPRecipeBase_mayHaveSideEffects (R : VPRecipeBase) : Result bool :=
  match getVPDefID R with
  | VPWidenIntOrFpInductionSC | VPWidenPointerInductionSC
  | VPWidenCanonicalIVSC | VPWidenPHISC | VPBlendSC | VPWidenSC
  | VPWidenGEPSC | VPReductionSC | VPWidenSelectSC | VPScalarIVStepsSC =>
      match dyn_cast_or_null_Instruction (getUnderlyingValue R) with
      | Some Inst =>
          if negb (I_mayHaveSideEffects Inst) then Ok false
          else AssertionFailure "underlying instruction has side-effects"
      | None => Ok false
      end
  | VPReplicateSC =>
      Result_bind (cast_Instruction (getUnderlyingValue R))
        (fun Inst => Ok (I_mayHaveSideEffects Inst))
  | _ => Ok true
  end.

(** The kinds that all three queries list as pure. *)
Definition pureInEveryQuery (k : VPDefID) : bool :=
  match k with
  | VPWidenIntOrFpInductionSC | VPWidenCanonicalIVSC | VPWidenPHISC
  | VPBlendSC | VPWidenSC | VPWidenGEPSC | VPReductionSC | VPWidenSelectSC => true
  | _ => false
  end.

(** The kinds that [mayHaveSideEffects] lists as pure. *)
Definition pureForSideEffects (k : VPDefID) : bool :=
  match k with
  | VPWidenPointerInductionSC | VPScalarIVStepsSC => true
  | _ => pureInEveryQuery k
  end.

(** The mirrored operation, when there is one, neither accesses memory nor
    has side effects. *)
Definition underlyingEffectFree (R : VPRecipeBase) : Prop :=
  forall Inst, getUnderlyingValue R = Some (UInstruction Inst) ->
    I_mayWriteToMemory Inst = false /\ I_mayReadFromMemory Inst = false
    /\ I_mayHaveSideEffects Inst = false.

Definition is_Some_b {A : Type} (o : option A) : bool :=
  match o with Some _ => true | None => false end.

(** ** Plan values, induction descriptors and canonicality *)

(** A plan value: its identity, its defining recipe (none for a live-in) and
    the IR value it stands for. *)
Record VPValue : Type := mkVPValue {
  VPValue_id : nat;
  VPValue_getDef : option nat;
  VPValue_UnderlyingVal : option Value
}.

(** [VPValue::getLiveInIRValue]: only a value without defining recipe has
    one; the pointer it returns may be null. *)
Definition VPValue_getLiveInIRValue (V : VPValue) : Result (option Value) :=
  match VPValue_getDef V with
  | Some _ =>
      AssertionFailure
        "VPValue is not a live-in; it is defined by a VPDef inside a VPlan"
  | None => Ok (VPValue_UnderlyingVal V)
  end.

(** [dyn_cast<To>(p)] checks that [p] is not null before it tests the class. *)
Definition dyn_cast {A B : Type} (test : A -> option B) (p : option A)
  : Result (option B) :=
  match p with
  | None => AssertionFailure "dyn_cast on a non-existent value"
  | Some v => Ok (test v)
  end.

(** Closed-form expressions, as far as the induction step is inspected. *)
Inductive SCEV : Type :=
| SCEVConstant (bits : N) (v : Z)
| SCEVUnknown (v : Value)
| SCEVAddRecExpr (start step : SCEV)
| SCEVCouldNotCompute.

Definition dyn_cast_SCEVConstant (s : SCEV) : option (N * Z) :=
  match s with SCEVConstant bits v => Some (bits, v) | _ => None end.

Record InductionDescriptor : Type := mkInductionDescriptor {
  getStep : SCEV
}.

Record VPWidenIntOrFpInductionRecipe : Type := mkVPWidenIntOrFpInductionRecipe {
  WidenIV_getStartValue : VPValue;
  WidenIV_getInductionDescriptor : InductionDescriptor
}.

Definition VPWidenIntOrFpInductionRecipe_isCanonical
  (R : VPWidenIntOrFpInductionRecipe) : Result bool :=
  Result_bind (VPValue_getLiveInIRValue (WidenIV_getStartValue R)) (fun IRV =>
  Result_bind (dyn_cast dyn_cast_ConstantInt IRV) (fun StartC =>
  let StepC := dyn_cast_SCEVConstant (getStep (WidenIV_getInductionDescriptor R)) in
  Ok (match StartC with
      | Some (_, start) =>
          ConstantInt_isZero start &&
          match StepC with
          | Some (_, step) => ConstantInt_isOne step
          | None => false
          end
      | None => false
      end))).

(** The start is the integer literal zero: a live-in that stands for an
    integer constant of value 0. *)
Definition startIsIntegerZero (R : VPWidenIntOrFpInductionRecipe) : Prop :=
  VPValue_getDef (WidenIV_getStartValue R) = None /\
  exists bits, VPValue_UnderlyingVal (WidenIV_getStartValue R) = Some (ConstantInt bits 0).

(** The descriptor's step is the integer literal one: a constant of the
    expression language of value 1. *)
Definition stepIsIntegerOne (R : VPWidenIntOrFpInductionRecipe) : Prop :=
  exists bits, getStep (WidenIV_getInductionDescriptor R) = SCEVConstant bits 1.

(** ** Recipe blocks *)

(** Recipes and blocks are named by numbers. A block owns the ordered list of
    its recipes; every recipe has a parent pointer, absent when null. The list
    is intrusive: the iterator of a recipe is the recipe itself. *)
Record VPlanBlocks : Type := mkVPlanBlocks {
  RecipeList : gmap nat (list nat);
  Parent : gmap nat nat
}.

(** [iplist::insert(pos, x)]: [x] goes right before the node [pos]. *)
Fixpoint iplist_insert (pos x : nat) (l : list nat) : list nat :=
  match l with
  | [] => [x]
  | y :: l' => if Nat.eqb y pos then x :: y :: l' else y :: iplist_insert pos x l'
  end.

(** [iplist::insertAfter(pos, x)]: [x] goes right after the node [pos]. *)
Fixpoint iplist_insertAfter (pos x : nat) (l : list nat) : list nat :=
  match l with
  | [] => [x]
  | y :: l' => if Nat.eqb y pos then y :: x :: l' else y :: iplist_insertAfter pos x l'
  end.

(** [iplist::remove(it)]: unlinks the node, which stays alive. *)
Fixpoint iplist_remove (x : nat) (l : list nat) : list nat :=
  match l with
  | [] => []
  | y :: l' => if Nat.eqb y x then l' else y :: iplist_remove x l'
  end.

Definition getRecipeList (S : VPlanBlocks) (bb : nat) : list nat :=
  default [] (RecipeList S !! bb).

Definition VPRecipeBase_insertBefore (R InsertPos : nat) (S : VPlanBlocks)
  : Result VPlanBlocks :=
  match Parent S !! R with
  | Some _ => AssertionFailure "Recipe already in some VPBasicBlock"
  | None =>
      match Parent S !! InsertPos with
      | None => AssertionFailure "Insertion position not in any VPBasicBlock"
      | Some bb =>
          Ok {| Parent := <[R := bb]> (Parent S);
                RecipeList :=
                  <[bb := iplist_insert InsertPos R (getRecipeList S bb)]>
                    (RecipeList S) |}
      end
  end.

(** The overload that takes a block and an iterator; [None] is [BB.end()]. *)
Definition VPRecipeBase_insertBefore_at (R BB : nat) (It : option nat)
  (S : VPlanBlocks) : Result VPlanBlocks :=
  match Parent S !! R with
  | Some _ => AssertionFailure "Recipe already in some VPBasicBlock"
  | None =>
      let ok := match It with
                | None => true
                | Some i => bool_decide (Parent S !! i = Some BB)
                end in
      if ok then
        Ok {| Parent := <[R := BB]> (Parent S);
              RecipeList :=
                <[BB := match It with
                        | None => getRecipeList S BB ++ [R]
                        | Some i => iplist_insert i R (getRecipeList S BB)
                        end]> (RecipeList S) |}
      else AssertionFailure "I == BB.end() || I->getParent() == &BB"
  end.

Definition VPRecipeBase_insertAfter (R InsertPos : nat) (S : VPlanBlocks)
  : Result VPlanBlocks :=
  match Parent S !! R with
  | Some _ => AssertionFailure "Recipe already in some VPBasicBlock"
  | None =>
      match Parent S !! InsertPos with
      | None => AssertionFailure "Insertion position not in any VPBasicBlock"
      | Some bb =>
          Ok {| Parent := <[R := bb]> (Parent S);
                RecipeList :=
                  <[bb := iplist_insertAfter InsertPos R (getRecipeList S bb)]>
                    (RecipeList S) |}
      end
  end.

Definition VPRecipeBase_removeFromParent (R : nat) (S : VPlanBlocks)
  : Result VPlanBlocks :=
  match Parent S !! R with
  | None => AssertionFailure "Recipe not in any VPBasicBlock"
  | Some bb =>
      Ok {| Parent := delete R (Parent S);
            RecipeList :=
              <[bb := iplist_remove R (getRecipeList S bb)]> (RecipeList S) |}
  end.

Definition VPRecipeBase_moveAfter (R InsertPos : nat) (S : VPlanBlocks)
  : Result VPlanBlocks :=
  Result_bind (VPRecipeBase_removeFromParent R S) (VPRecipeBase_insertAfter R InsertPos).

Definition VPRecipeBase_moveBefore (R BB : nat) (It : option nat) (S : VPlanBlocks)
  : Result VPlanBlocks :=
  Result_bind (VPRecipeBase_removeFromParent R S) (VPRecipeBase_insertBefore_at R BB It).

(** The linkage that the intrusive list keeps by construction: a recipe's
    parent pointer names the block whose list holds it, and only that one. *)
Definition linkage (S : VPlanBlocks) : Prop :=
  (forall r bb, Parent S !! r = Some bb ->
     exists l, RecipeList S !! bb = Some l /\ r ∈ l) /\
  (forall bb l r, RecipeList S !! bb = Some l -> r ∈ l -> Parent S !! r = Some bb).

(** Whether the mirrored operation is present and has the effect [f]. *)
Definition mirroredHas (f : OrigInstruction -> bool) (R : VPRecipeBase) : bool :=
  match dyn_cast_or_null_Instruction (getUnderlyingValue R) with
  | Some Inst => f Inst
  | None => false
  end.

(** ** The emitter and the transform state *)

#[global] Instance ElementCount_eq_dec : EqDecision ElementCount.
Proof. solve_decision. Defined.

#[global] Instance Ty_eq_dec : EqDecision Ty.
Proof. solve_decision. Defined.

(** Where an instruction is placed: at the emitter's current position in a
    block, right before the block's terminator, or at the block's first
    insertion point (after its phis). *)
Inductive InsertPoint : Type :=
| IP_at (bb : nat)
| IP_beforeTerminator (bb : nat)
| IP_firstInsertionPt (bb : nat).

Definition InsertPoint_block (ip : InsertPoint) : nat :=
  match ip with IP_at bb | IP_beforeTerminator bb | IP_firstInsertionPt bb => bb end.

(** The folder of an emitter: every entry may answer with an existing value
    in place of a new instruction. [FoldVectorSplat] and [FoldVectorSplice]
    stand for the folding of the shuffles that make up a splat and a
    fixed-width splice. *)
Record IRBuilderFolder : Type := mkIRBuilderFolder {
  FoldBinOp : Instruction.BinaryOps -> Value -> Value -> option Value;
  FoldUnOp : Instruction.UnaryOps -> Value -> option Value;
  FoldCmp : Predicate -> Value -> Value -> option Value;
  FoldSelect : Value -> Value -> Value -> option Value;
  FoldCast : Instruction.CastOps -> Value -> Ty -> option Value;
  FoldInsertElement : Value -> Value -> Value -> option Value;
  FoldExtractElement : Value -> Value -> option Value;
  FoldVectorSplat : ElementCount -> Value -> option Value;
  FoldVectorSplice : Value -> Value -> Z -> option Value
}.

(** A folder that never folds. *)
Definition NoFolder : IRBuilderFolder :=
  mkIRBuilderFolder (fun _ _ _ => None) (fun _ _ => None) (fun _ _ _ => None)
    (fun _ _ _ => None) (fun _ _ _ => None) (fun _ _ _ => None)
    (fun _ _ => None) (fun _ _ => None) (fun _ _ _ => None).

(** The emitter: insertion point, fast-math flags for new floating-point
    instructions, current debug location, folder. *)
Record IRBuilderBase : Type := mkIRBuilderBase {
  InsertPt : InsertPoint;
  FMF : FastMathFlags;
  CurrentDebugLocation : nat;
  Folder : IRBuilderFolder
}.

(** The function under construction: the allocation counter, the
    instructions in creation order with their placement, and the attributes
    that are set on an instruction object after it was created. *)
Record IRStore : Type := mkIRStore {
  NextId : nat;
  Emitted : list (InsertPoint * Value);
  InstFlags : gmap nat IRFlags;
  Incoming : gmap nat (list (Value * nat));
  Successors : gmap nat (option nat * option nat);
  Terminators : gmap nat Value;
  Metadata : gmap nat OrigInstruction
}.

Record CFGState : Type := mkCFGState {
  PrevBB : nat;
  VPBB2IRBB : gmap nat nat;
  getPreheaderBBFor : nat -> nat
}.

(** Modelled from the spec: [VPTransformState] is declared outside this
    file; section 3 gives its value cache, keyed by plan value and stream
    with an extension per lane, the block map, the emission cursor and the
    loop bookkeeping. *)
Record VPTransformState : Type := mkVPTransformState {
  VF : ElementCount;
  UF : nat;
  Instance : option (nat * nat);
  PerPartOutput : gmap (nat * nat) Value;
  PerPartScalars : gmap (nat * nat * nat) Value;
  MayGeneratePoisonRecipes : gset nat;
  Builder : IRBuilderBase;
  IR : IRStore;
  CFG : CFGState;
  CurrentVectorLoopHeader : nat
}.

Definition set_PerPartOutput (f : gmap (nat * nat) Value -> gmap (nat * nat) Value)
  (St : VPTransformState) : VPTransformState :=
  mkVPTransformState (VF St) (UF St) (Instance St) (f (PerPartOutput St))
    (PerPartScalars St) (MayGeneratePoisonRecipes St) (Builder St) (IR St)
    (CFG St) (CurrentVectorLoopHeader St).

Definition set_Builder (f : IRBuilderBase -> IRBuilderBase)
  (St : VPTransformState) : VPTransformState :=
  mkVPTransformState (VF St) (UF St) (Instance St) (PerPartOutput St)
    (PerPartScalars St) (MayGeneratePoisonRecipes St) (f (Builder St)) (IR St)
    (CFG St) (CurrentVectorLoopHeader St).

Definition set_IR (f : IRStore -> IRStore)
  (St : VPTransformState) : VPTransformState :=
  mkVPTransformState (VF St) (UF St) (Instance St) (PerPartOutput St)
    (PerPartScalars St) (MayGeneratePoisonRecipes St) (Builder St) (f (IR St))
    (CFG St) (CurrentVectorLoopHeader St).

(** The state after the emitter was given new fast-math flags, a new debug
    location, a new insertion point. *)
Definition withFastMathFlags (NewFMF : FastMathFlags) (St : VPTransformState)
  : VPTransformState :=
  set_Builder (fun B =>
    mkIRBuilderBase (InsertPt B) NewFMF (CurrentDebugLocation B) (Folder B)) St.

Definition withDebugLocation (DL : nat) (St : VPTransformState) : VPTransformState :=
  set_Builder (fun B => mkIRBuilderBase (InsertPt B) (FMF B) DL (Folder B)) St.

Definition withInsertPoint (ip : InsertPoint) (St : VPTransformState)
  : VPTransformState :=
  set_Builder (fun B =>
    mkIRBuilderBase ip (FMF B) (CurrentDebugLocation B) (Folder B)) St.

(** *** The lowering monad: state passing with failure *)

Definition M (A : Type) : Type := VPTransformState -> Result (A * VPTransformState).

Definition ret {A : Type} (a : A) : M A := fun St => Ok (a, St).

Definition bind {A B : Type} (m : M A) (k : A -> M B) : M B :=
  fun St =>
    match m St with
    | Ok (a, St') => k a St'
    | AssertionFailure msg => AssertionFailure msg
    | Unreachable msg => Unreachable msg
    | Unmodelled msg => Unmodelled msg
    end.

Declare Scope lower_scope.
Delimit Scope lower_scope with lower.
Notation "x <- c1 ;; c2" := (bind c1 (fun x => c2))
  (at level 100, c1 at next level, c2 at level 200, right associativity) : lower_scope.
Notation "c1 ;; c2" := (bind c1 (fun _ => c2))
  (at level 100, c2 at level 200, right associativity) : lower_scope.
Local Open Scope lower_scope.

Definition assert (b : bool) (msg : string) : M unit :=
  fun St => if b then Ok (tt, St) else AssertionFailure msg.

Definition llvm_unreachable {A : Type} (msg : string) : M A :=
  fun _ => Unreachable msg.

Definition unmodelled {A : Type} (msg : string) : M A :=
  fun _ => Unmodelled msg.

Definition gets {A : Type} (f : VPTransformState -> A) : M A :=
  fun St => Ok (f St, St).

Definition modify (f : VPTransformState -> VPTransformState) : M unit :=
  fun St => Ok (tt, f St).

(** [for (unsigned Part = lo; Part < lo + n; ++Part) body(Part)]. *)
Fixpoint for_range (lo n : nat) (body : nat -> M unit) : M unit :=
  match n with
  | O => ret tt
  | S n' => body lo ;; for_range (S lo) n' body
  end.

(** A guard object: the body runs, then the saved part of the emitter is put
    back, on the way out of the scope. *)
Definition FastMathFlagGuard {A : Type} (body : M A) : M A :=
  saved <- gets (fun St => FMF (Builder St)) ;;
  a <- body ;;
  modify (withFastMathFlags saved) ;;
  ret a.

Definition InsertPointGuard {A : Type} (body : M A) : M A :=
  saved <- gets (fun St => Builder St) ;;
  a <- body ;;
  modify (fun St => withDebugLocation (CurrentDebugLocation saved)
                      (withInsertPoint (InsertPt saved) St)) ;;
  ret a.

Definition Builder_setFastMathFlags (NewFMF : FastMathFlags) : M unit :=
  modify (withFastMathFlags NewFMF).

Definition Builder_SetCurrentDebugLocation (DL : nat) : M unit :=
  modify (withDebugLocation DL).

Definition Builder_SetInsertPoint (ip : InsertPoint) : M unit :=
  modify (withInsertPoint ip).

(** *** Emitter operations *)

(** Modelled from the spec: the emitter ([IRBuilderBase] and the instruction
    classes) is defined outside this file and is an external collaborator of
    section 6 (b). Each operation below asks the folder first and otherwise
    inserts one new instruction at the emitter's insertion point. [InsertAt]
    allocates the next instruction object, places it at [ip] and gives it its
    initial flags. *)
Definition InsertAt (ip : InsertPoint) (mk : nat -> Value) (flags : IRFlags) : M Value :=
  fun St =>
    let id := NextId (IR St) in
    let v := mk id in
    Ok (v, set_IR (fun F =>
             mkIRStore (S id) (Emitted F ++ [(ip, v)]) (<[id := flags]> (InstFlags F))
               (Incoming F) (Successors F) (Terminators F) (Metadata F)) St).

Definition Builder_Insert (B : IRBuilderBase) (mk : nat -> Value) (flags : IRFlags) : M Value :=
  InsertAt (InsertPt B) mk flags.

Definition isFPBinaryOp (opc : Instruction.BinaryOps) : bool :=
  match opc with
  | Instruction.FAdd | Instruction.FSub | Instruction.FMul
  | Instruction.FDiv | Instruction.FRem => true
  | _ => false
  end.

Definition isFPOrFPVectorTy (t : Ty) : bool :=
  match getScalarType t with FloatTy | DoubleTy => true | _ => false end.

(** [setFPAttrs]: a new floating-point instruction takes the emitter's flags. *)
Definition FPAttrs (B : IRBuilderBase) (isFP : bool) : IRFlags :=
  if isFP then mkIRFlags false false false (FMF B) else IRFlags_none.

Definition CreateBinOp (B : IRBuilderBase) (opc : Instruction.BinaryOps)
  (LHS RHS : Value) : M Value :=
  match FoldBinOp (Folder B) opc LHS RHS with
  | Some V => ret V
  | None => Builder_Insert B (fun id => BinaryOperator id opc LHS RHS) (FPAttrs B (isFPBinaryOp opc))
  end.

Definition CreateUnOp (B : IRBuilderBase) (opc : Instruction.UnaryOps)
  (V : Value) : M Value :=
  match FoldUnOp (Folder B) opc V with
  | Some V' => ret V'
  | None => Builder_Insert B (fun id => UnaryOperator id opc V) (FPAttrs B true)
  end.

Definition CreateAdd (B : IRBuilderBase) (LHS RHS : Value) (HasNUW HasNSW : bool)
  : M Value :=
  match FoldBinOp (Folder B) Instruction.Add LHS RHS with
  | Some V => ret V
  | None =>
      Builder_Insert B (fun id => BinaryOperator id Instruction.Add LHS RHS)
        (mkIRFlags HasNUW HasNSW false FMF_none)
  end.

Definition CreateMul (B : IRBuilderBase) (LHS RHS : Value) : M Value :=
  CreateBinOp B Instruction.Mul LHS RHS.

Fixpoint Constant_getAllOnesValue (t : Ty) : Value :=
  match t with
  | IntegerTy bits => ConstantInt bits (2 ^ Z.of_N bits - 1)
  | VectorTy elt ec => ConstantSplat ec (Constant_getAllOnesValue elt)
  | _ => PoisonValue t
  end.

Definition CreateNot (B : IRBuilderBase) (V : Value) : M Value :=
  CreateBinOp B Instruction.Xor V (Constant_getAllOnesValue (getType V)).

Definition CreateICmp (B : IRBuilderBase) (P : Predicate) (LHS RHS : Value) : M Value :=
  match FoldCmp (Folder B) P LHS RHS with
  | Some V => ret V
  | None => Builder_Insert B (fun id => ICmpInst id P LHS RHS) IRFlags_none
  end.

Definition CreateFCmp (B : IRBuilderBase) (P : Predicate) (LHS RHS : Value) : M Value :=
  match FoldCmp (Folder B) P LHS RHS with
  | Some V => ret V
  | None => Builder_Insert B (fun id => FCmpInst id P LHS RHS) (FPAttrs B true)
  end.

Definition CreateSelect (B : IRBuilderBase) (C T F : Value) : M Value :=
  match FoldSelect (Folder B) C T F with
  | Some V => ret V
  | None => Builder_Insert B (fun id => SelectInst id C T F) (FPAttrs B (isFPOrFPVectorTy (getType T)))
  end.

Definition CreateFreeze (B : IRBuilderBase) (V : Value) : M Value :=
  Builder_Insert B (fun id => FreezeInst id V) IRFlags_none.

Definition CreateCast (B : IRBuilderBase) (opc : Instruction.CastOps) (V : Value)
  (DestTy : Ty) : M Value :=
  if bool_decide (getType V = DestTy) then ret V
  else match FoldCast (Folder B) opc V DestTy with
       | Some V' => ret V'
       | None => Builder_Insert B (fun id => CastInst id opc V DestTy) IRFlags_none
       end.

Definition CreateNAryOp (B : IRBuilderBase) (opc : Instruction.Opcode)
  (Ops : list Value) : M Value :=
  match opc with
  | Instruction.Binary o =>
      match Ops with
      | [a; b] => CreateBinOp B o a b
      | _ => fun _ => AssertionFailure "Invalid number of operands!"
      end
  | Instruction.Unary o =>
      match Ops with
      | [a] => CreateUnOp B o a
      | _ => fun _ => AssertionFailure "Invalid number of operands!"
      end
  | _ => llvm_unreachable "Unexpected opcode!"
  end.

Definition CreateInsertElement (B : IRBuilderBase) (Vec NewElt Idx : Value) : M Value :=
  match FoldInsertElement (Folder B) Vec NewElt Idx with
  | Some V => ret V
  | None => Builder_Insert B (fun id => InsertElementInst id Vec NewElt Idx) IRFlags_none
  end.

Definition CreateExtractElement (B : IRBuilderBase) (Vec Idx : Value) : M Value :=
  match FoldExtractElement (Folder B) Vec Idx with
  | Some V => ret V
  | None => Builder_Insert B (fun id => ExtractElementInst id Vec Idx) IRFlags_none
  end.

Definition CreateVectorSplat (B : IRBuilderBase) (EC : ElementCount) (V : Value)
  : M Value :=
  assert (negb (Nat.eqb (getKnownMinValue EC) 0)) "Cannot splat to an empty vector!" ;;
  match FoldVectorSplat (Folder B) EC V with
  | Some V' => ret V'
  | None => Builder_Insert B (fun id => VectorSplat id EC V) IRFlags_none
  end.

(** A splice of two vectors of one type: an intrinsic call for a scalable
    type, a shuffle (which may fold) for a fixed one. *)
Definition CreateVectorSplice (B : IRBuilderBase) (V1 V2 : Value) (Imm : Z) : M Value :=
  assert (bool_decide (getType V1 = getType V2)) "V1->getType() == V2->getType()" ;;
  match getType V1 with
  | VectorTy _ ec =>
      if isScalable ec then
        Builder_Insert B (fun id => VectorSplice id V1 V2 Imm) IRFlags_none
      else
        let NumElts := Z.of_nat (getKnownMinValue ec) in
        assert ((- Imm <=? NumElts) || (Imm <? NumElts))
          "Not guaranteed to get a valid splice" ;;
        match FoldVectorSplice (Folder B) V1 V2 Imm with
        | Some V => ret V
        | None => Builder_Insert B (fun id => VectorSplice id V1 V2 Imm) IRFlags_none
        end
  | _ => fun _ => AssertionFailure "cast<Ty>() argument of incompatible type!"
  end.

(** The vector [<0, 1, 2, ...>]: a constant for a fixed type, an intrinsic
    call for a scalable one. *)
Definition CreateStepVector (B : IRBuilderBase) (DstType : Ty) : M Value :=
  match DstType with
  | VectorTy (IntegerTy bits) ec =>
      if isScalable ec then Builder_Insert B (fun id => StepVectorCall id DstType) IRFlags_none
      else ret (ConstantDataVector bits (map Z.of_nat (seq 0 (getKnownMinValue ec))))
  | _ => fun _ => AssertionFailure "step vector of a type that is no integer vector"
  end.

Definition getInt32 (C : Z) : Value := ConstantInt 32 C.

Definition CreateActiveLaneMask (B : IRBuilderBase) (PredTy : Ty) (IV TC : Value)
  : M Value :=
  Builder_Insert B (fun id => ActiveLaneMaskCall id PredTy IV TC) IRFlags_none.

(** [PHINode::Create(Ty, 2, Name, InsertBefore)]: a phi without incoming edges. *)
Definition PHINode_Create (Ty0 : Ty) (ip : InsertPoint) : M Value :=
  v <- InsertAt ip (fun id => PHINode id Ty0) IRFlags_none ;;
  match dyn_cast_Instruction v with
  | Some id =>
      modify (set_IR (fun F =>
        mkIRStore (NextId F) (Emitted F) (InstFlags F) (<[id := []]> (Incoming F))
          (Successors F) (Terminators F) (Metadata F))) ;;
      ret v
  | None => ret v
  end.

(** [cast<PHINode>(V)->addIncoming(In, BB)]. *)
Definition PHINode_addIncoming (V In : Value) (BB : nat) : M unit :=
  match V with
  | PHINode id _ =>
      modify (set_IR (fun F =>
        mkIRStore (NextId F) (Emitted F) (InstFlags F)
          (<[id := default [] (Incoming F !! id) ++ [(In, BB)]]> (Incoming F))
          (Successors F) (Terminators F) (Metadata F)))
  | _ => fun _ => AssertionFailure "cast<Ty>() argument of incompatible type!"
  end.

(** A conditional branch with its two successors; [None] is a successor
    that is not bound yet. *)
Definition CreateCondBr (B : IRBuilderBase) (Cond : Value) (TrueBB FalseBB : option nat)
  : M Value :=
  v <- Builder_Insert B (fun id => BranchInst id Cond) IRFlags_none ;;
  match dyn_cast_Instruction v with
  | Some id =>
      modify (set_IR (fun F =>
        mkIRStore (NextId F) (Emitted F) (InstFlags F) (Incoming F)
          (<[id := (TrueBB, FalseBB)]> (Successors F)) (Terminators F) (Metadata F))) ;;
      ret v
  | None => ret v
  end.

Definition BranchInst_setSuccessor (Br : Value) (idx : nat) (BB : option nat) : M unit :=
  match Br with
  | BranchInst id _ =>
      modify (set_IR (fun F =>
        mkIRStore (NextId F) (Emitted F) (InstFlags F) (Incoming F)
          (alter (fun p => match idx with
                           | O => (BB, snd p)
                           | _ => (fst p, BB)
                           end) id (Successors F))
          (Terminators F) (Metadata F)))
  | _ => fun _ => AssertionFailure "cast<Ty>() argument of incompatible type!"
  end.

(** [BB->getTerminator()->eraseFromParent()] right after a branch was created
    in front of the block's temporary terminator: the temporary one goes, the
    branch [Br] is what ends the block from then on. *)
Definition Terminator_eraseFromParent (bb : nat) (Br : Value) : M unit :=
  fun St =>
    match Terminators (IR St) !! bb with
    | None => Unmodelled "the insertion block has no terminator to erase"
    | Some _ =>
        Ok (tt, set_IR (fun F =>
                  mkIRStore (NextId F) (Emitted F) (InstFlags F) (Incoming F)
                    (Successors F) (<[bb := Br]> (Terminators F)) (Metadata F)) St)
    end.

(** [ConstantInt::get(Ty, V)] keeps the low [bits] bits of [V]. *)
Definition wrap (bits : N) (z : Z) : Z := z mod 2 ^ Z.of_N bits.
Arguments wrap : simpl never.

Definition ConstantInt_get (bits : N) (z : Z) : Value := ConstantInt bits (wrap bits z).

(** [IRBuilder::CreateVScale(Scaling)]: the runtime multiple times a constant. *)
Definition CreateVScale (B : IRBuilderBase) (Scaling : Value) : M Value :=
  match Scaling with
  | ConstantInt bits c =>
      if ConstantInt_isZero c then ret Scaling
      else
        CI <- Builder_Insert B (fun id => VScaleCall id (IntegerTy bits)) IRFlags_none ;;
        if ConstantInt_isOne c then ret CI else CreateMul B CI Scaling
  | _ => fun _ => AssertionFailure "cast<Ty>() argument of incompatible type!"
  end.

(** Modelled from the spec: [createStepForVF(B, Ty, VF, Step)] is defined
    outside this file. Section 4.5 and the comment at its call in the
    canonical increment give its result as the vector width times its step
    argument: the constant [Step * VF] for a fixed width, that constant scaled
    by the runtime multiple for a scalable one. *)
Definition createStepForVF (B : IRBuilderBase) (Ty0 : Ty) (VF0 : ElementCount)
  (Step : Z) : M Value :=
  match Ty0 with
  | IntegerTy bits =>
      let StepVal := ConstantInt_get bits (Step * Z.of_nat (getKnownMinValue VF0)) in
      if isScalable VF0 then CreateVScale B StepVal else ret StepVal
  | _ => fun _ => AssertionFailure "Expected an integer step"
  end.

(** Modelled from the spec: [Instruction::copyIRFlags] and
    [Instruction::dropPoisonGeneratingFlags] are defined outside this file.
    Section 4.4: the numeric-safety flags of the original operation
    (no-overflow, exact) are copied onto the result together with its
    fast-math configuration, and dropping removes those that assume the
    absence of poison. *)
Definition dropPoisonGeneratingFlags (f : IRFlags) : IRFlags :=
  mkIRFlags false false false (InstFMF f).

Definition hasPoisonGeneratingFlags (f : IRFlags) : bool :=
  HasNoUnsignedWrap f || HasNoSignedWrap f || IsExact f.

Definition Instruction_copyIRFlags (id : nat) (From : OrigInstruction) : M unit :=
  modify (set_IR (fun F =>
    mkIRStore (NextId F) (Emitted F) (<[id := getIRFlags From]> (InstFlags F))
      (Incoming F) (Successors F) (Terminators F) (Metadata F))).

Definition Instruction_dropPoisonGeneratingFlags (id : nat) : M unit :=
  modify (set_IR (fun F =>
    mkIRStore (NextId F) (Emitted F) (alter dropPoisonGeneratingFlags id (InstFlags F))
      (Incoming F) (Successors F) (Terminators F) (Metadata F))).

(** *** The value cache of the transform state *)

(** Modelled from the spec: [VPTransformState::get] and [set] are defined
    outside this file. Section 3: the cache maps (plan value, stream) to the
    generated operand, with an entry per lane for a value produced per lane.
    A per-stream lookup that misses would enter the driver's broadcast and
    packing code, which is not part of this development. *)
Definition State_get (Def : VPValue) (Part : nat) : M Value :=
  fun St =>
    match PerPartOutput St !! (VPValue_id Def, Part) with
    | Some V => Ok (V, St)
    | None => Unmodelled "State.get: no per-part value for this plan value"
    end.

Definition State_set (Def : VPValue) (V : Value) (Part : nat) : M unit :=
  modify (set_PerPartOutput (fun m => <[(VPValue_id Def, Part) := V]> m)).

(** The lookup of one instance (stream, lane): a live-in stands for itself, a
    per-lane entry wins, a scalar per-stream entry serves lane 0, and a vector
    per-stream entry has the lane extracted. *)
Definition State_get_lane (Def : VPValue) (Part Lane : nat) : M Value :=
  match VPValue_getDef Def with
  | None =>
      match VPValue_UnderlyingVal Def with
      | Some V => ret V
      | None => unmodelled "live-in without IR value"
      end
  | Some _ =>
      scalars <- gets PerPartScalars ;;
      match scalars !! (VPValue_id Def, Part, Lane) with
      | Some V => ret V
      | None =>
          vectors <- gets PerPartOutput ;;
          match vectors !! (VPValue_id Def, Part) with
          | None => fun _ => AssertionFailure "hasVectorValue(Def, Instance.Part)"
          | Some VecPart =>
              if negb (isVectorTy (getType VecPart)) then
                assert (Nat.eqb Lane 0) "cannot get lane > 0 for scalar" ;;
                ret VecPart
              else
                B <- gets Builder ;;
                CreateExtractElement B VecPart (getInt32 (Z.of_nat Lane))
          end
      end
  end.

Definition State_setDebugLocFromInst (From : OrigInstruction) : M unit :=
  Builder_SetCurrentDebugLocation (getDebugLoc From).

Definition State_addMetadata (To : Value) (From : OrigInstruction) : M unit :=
  match dyn_cast_Instruction To with
  | Some id =>
      modify (set_IR (fun F =>
        mkIRStore (NextId F) (Emitted F) (InstFlags F) (Incoming F) (Successors F)
          (Terminators F) (<[id := From]> (Metadata F))))
  | None => ret tt
  end.

(** [getOperand(N)] checks its index. *)
Definition getOperand (Operands : list VPValue) (N : nat) : M VPValue :=
  match Operands !! N with
  | Some Op => ret Op
  | None => fun _ => AssertionFailure "Operand index out of bounds"
  end.

(** ** Lowering of the generic control recipe *)

Module VPInstruction.
Inductive Opcode : Type :=
| IR (o : Instruction.Opcode)
| Not | ICmpULE | SLPLoad | SLPStore | ActiveLaneMask
| FirstOrderRecurrenceSplice | CanonicalIVIncrement | CanonicalIVIncrementNUW
| BranchOnCond | BranchOnCount.
End VPInstruction.

(** A [VPInstruction]: itself as a plan value, opcode, operands, fast-math
    flags, debug location, and what it reads of the plan around it: whether
    its block exits its region, the entry block of that region, and the
    header block of the plan's vector loop region. *)
Record VPInstruction : Type := mkVPInstruction {
  VPI_self : VPValue;
  VPI_Opcode : VPInstruction.Opcode;
  VPI_Operands : list VPValue;
  VPI_FMF : FastMathFlags;
  VPI_DL : nat;
  VPI_ParentIsExiting : bool;
  VPI_RegionEntry : nat;
  VPI_PlanHeader : nat
}.

Definition VPInstruction_generateInstruction (R : VPInstruction) (Part : nat) : M unit :=
  Builder_SetCurrentDebugLocation (VPI_DL R) ;;
  match VPI_Opcode R with
  | VPInstruction.IR (Instruction.Binary opc) =>
      Op0 <- getOperand (VPI_Operands R) 0 ;;
      A <- State_get Op0 Part ;;
      Op1 <- getOperand (VPI_Operands R) 1 ;;
      B <- State_get Op1 Part ;;
      Bd <- gets Builder ;;
      V <- CreateBinOp Bd opc A B ;;
      State_set (VPI_self R) V Part
  | VPInstruction.Not =>
      Op0 <- getOperand (VPI_Operands R) 0 ;;
      A <- State_get Op0 Part ;;
      Bd <- gets Builder ;;
      V <- CreateNot Bd A ;;
      State_set (VPI_self R) V Part
  | VPInstruction.ICmpULE =>
      Op0 <- getOperand (VPI_Operands R) 0 ;;
      IV <- State_get Op0 Part ;;
      Op1 <- getOperand (VPI_Operands R) 1 ;;
      TC <- State_get Op1 Part ;;
      Bd <- gets Builder ;;
      V <- CreateICmp Bd ICMP_ULE IV TC ;;
      State_set (VPI_self R) V Part
  | VPInstruction.IR Instruction.Select =>
      Op0 <- getOperand (VPI_Operands R) 0 ;;
      Cond <- State_get Op0 Part ;;
      Op1 <- getOperand (VPI_Operands R) 1 ;;
      V1 <- State_get Op1 Part ;;
      Op2 <- getOperand (VPI_Operands R) 2 ;;
      V2 <- State_get Op2 Part ;;
      Bd <- gets Builder ;;
      V <- CreateSelect Bd Cond V1 V2 ;;
      State_set (VPI_self R) V Part
  | VPInstruction.ActiveLaneMask =>
      Op0 <- getOperand (VPI_Operands R) 0 ;;
      VIVElem0 <- State_get_lane Op0 Part 0 ;;
      Op1 <- getOperand (VPI_Operands R) 1 ;;
      ScalarTC <- State_get Op1 Part ;;
      VF0 <- gets VF ;;
      let PredTy := VectorType_get (IntegerTy 1) VF0 in
      Bd <- gets Builder ;;
      Call <- CreateActiveLaneMask Bd PredTy VIVElem0 ScalarTC ;;
      State_set (VPI_self R) Call Part
  | VPInstruction.FirstOrderRecurrenceSplice =>
      Op0 <- getOperand (VPI_Operands R) 0 ;;
      V1 <- State_get Op0 0 ;;
      PartMinus1 <- (if Nat.eqb Part 0 then ret V1
                     else Op1 <- getOperand (VPI_Operands R) 1 ;;
                          State_get Op1 (Part - 1)) ;;
      if negb (isVectorTy (getType PartMinus1)) then
        State_set (VPI_self R) PartMinus1 Part
      else
        Op1 <- getOperand (VPI_Operands R) 1 ;;
        V2 <- State_get Op1 Part ;;
        Bd <- gets Builder ;;
        Spl <- CreateVectorSplice Bd PartMinus1 V2 (-1) ;;
        State_set (VPI_self R) Spl Part
  | VPInstruction.CanonicalIVIncrement
  | VPInstruction.CanonicalIVIncrementNUW =>
      Next <- (if Nat.eqb Part 0 then
                 let IsNUW := match VPI_Opcode R with
                              | VPInstruction.CanonicalIVIncrementNUW => true
                              | _ => false
                              end in
                 Op0 <- getOperand (VPI_Operands R) 0 ;;
                 Phi <- State_get Op0 0 ;;
                 Bd <- gets Builder ;;
                 VF0 <- gets VF ;;
                 UF0 <- gets UF ;;
                 Step <- createStepForVF Bd (getType Phi) VF0 (Z.of_nat UF0) ;;
                 CreateAdd Bd Phi Step IsNUW false
               else State_get (VPI_self R) 0) ;;
      State_set (VPI_self R) Next Part
  | VPInstruction.BranchOnCond =>
      if negb (Nat.eqb Part 0) then ret tt
      else
        Op0 <- getOperand (VPI_Operands R) 0 ;;
        Cond <- State_get_lane Op0 Part 0 ;;
        let Header := VPI_RegionEntry R in
        Bd <- gets Builder ;;
        let InsertBlock := InsertPoint_block (InsertPt Bd) in
        CondBr <- CreateCondBr Bd Cond (Some InsertBlock) None ;;
        (if VPI_ParentIsExiting R then
           map <- gets (fun St => VPBB2IRBB (CFG St)) ;;
           BranchInst_setSuccessor CondBr 1 (map !! Header)
         else ret tt) ;;
        BranchInst_setSuccessor CondBr 0 None ;;
        Terminator_eraseFromParent InsertBlock CondBr
  | VPInstruction.BranchOnCount =>
      if negb (Nat.eqb Part 0) then ret tt
      else
        Op0 <- getOperand (VPI_Operands R) 0 ;;
        IV <- State_get Op0 Part ;;
        Op1 <- getOperand (VPI_Operands R) 1 ;;
        TC <- State_get Op1 Part ;;
        Bd <- gets Builder ;;
        Cond <- CreateICmp Bd ICMP_EQ IV TC ;;
        let Header := VPI_PlanHeader R in
        let InsertBlock := InsertPoint_block (InsertPt Bd) in
        map <- gets (fun St => VPBB2IRBB (CFG St)) ;;
        CondBr <- CreateCondBr Bd Cond (Some InsertBlock) (map !! Header) ;;
        BranchInst_setSuccessor CondBr 0 None ;;
        Terminator_eraseFromParent InsertBlock CondBr
  | _ => llvm_unreachable "Unsupported opcode for instruction"
  end.

Definition VPInstruction_execute (R : VPInstruction) : M unit :=
  inst <- gets Instance ;;
  assert (negb (is_Some_b inst)) "VPInstruction executing an Instance" ;;
  FastMathFlagGuard (
    Builder_setFastMathFlags (VPI_FMF R) ;;
    UF0 <- gets UF ;;
    for_range 0 UF0 (VPInstruction_generateInstruction R)).

(** ** Lowering of widened arithmetic, compares and casts *)

Record VPWidenRecipe : Type := mkVPWidenRecipe {
  Widen_self : VPValue;
  Widen_Operands : list VPValue;
  Widen_UnderlyingValue : option UnderlyingValue
}.

(** [for (VPValue *VPOp : operands()) Ops.push_back(State.get(VPOp, Part))]. *)
Fixpoint gatherOperands (Operands : list VPValue) (Part : nat) : M (list Value) :=
  match Operands with
  | [] => ret []
  | VPOp :: rest =>
      V <- State_get VPOp Part ;;
      Vs <- gatherOperands rest Part ;;
      ret (V :: Vs)
  end.

(** One turn of the loop that widens unary and binary operations. *)
Definition VPWidenRecipe_widenArith (R : VPWidenRecipe) (Inst : OrigInstruction)
  (Part : nat) : M unit :=
  Ops <- gatherOperands (Widen_Operands R) Part ;;
  Bd <- gets Builder ;;
  V <- CreateNAryOp Bd (getOpcode Inst) Ops ;;
  match dyn_cast_Instruction V with
  | Some VecOp =>
      Instruction_copyIRFlags VecOp Inst ;;
      poison <- gets MayGeneratePoisonRecipes ;;
      if bool_decide (VPValue_id (Widen_self R) ∈ poison)
      then Instruction_dropPoisonGeneratingFlags VecOp
      else ret tt
  | None => ret tt
  end ;;
  State_set (Widen_self R) V Part ;;
  State_addMetadata V Inst.

Definition VPWidenRecipe_execute (R : VPWidenRecipe) : M unit :=
  match cast_Instruction (Widen_UnderlyingValue R) with
  | AssertionFailure msg => fun _ => AssertionFailure msg
  | Unreachable msg => fun _ => Unreachable msg
  | Unmodelled msg => fun _ => Unmodelled msg
  | Ok Inst =>
      match getOpcode Inst with
      | Instruction.Call | Instruction.Br | Instruction.PHI
      | Instruction.GetElementPtr | Instruction.Select =>
          llvm_unreachable "This instruction is handled by a different recipe."
      | Instruction.Binary _ | Instruction.Unary _ =>
          State_setDebugLocFromInst Inst ;;
          UF0 <- gets UF ;;
          for_range 0 UF0 (VPWidenRecipe_widenArith R Inst)
      | Instruction.Freeze =>
          State_setDebugLocFromInst Inst ;;
          UF0 <- gets UF ;;
          for_range 0 UF0 (fun Part =>
            Op0 <- getOperand (Widen_Operands R) 0 ;;
            Op <- State_get Op0 Part ;;
            Bd <- gets Builder ;;
            Frz <- CreateFreeze Bd Op ;;
            State_set (Widen_self R) Frz Part)
      | Instruction.ICmp | Instruction.FCmp =>
          let IsFCmp := match getOpcode Inst with
                        | Instruction.FCmp => true
                        | _ => false
                        end in
          State_setDebugLocFromInst Inst ;;
          UF0 <- gets UF ;;
          for_range 0 UF0 (fun Part =>
            Op0 <- getOperand (Widen_Operands R) 0 ;;
            A <- State_get Op0 Part ;;
            Op1 <- getOperand (Widen_Operands R) 1 ;;
            B <- State_get Op1 Part ;;
            C <- (if IsFCmp then
                    FastMathFlagGuard (
                      Builder_setFastMathFlags (InstFMF (getIRFlags Inst)) ;;
                      Bd <- gets Builder ;;
                      CreateFCmp Bd (getPredicate Inst) A B)
                  else
                    Bd <- gets Builder ;;
                    CreateICmp Bd (getPredicate Inst) A B) ;;
            State_set (Widen_self R) C Part ;;
            State_addMetadata C Inst)
      | Instruction.Cast opc =>
          State_setDebugLocFromInst Inst ;;
          VF0 <- gets VF ;;
          let DestTy := if ElementCount_isScalar VF0 then getInstType Inst
                        else VectorType_get (getInstType Inst) VF0 in
          UF0 <- gets UF ;;
          for_range 0 UF0 (fun Part =>
            Op0 <- getOperand (Widen_Operands R) 0 ;;
            A <- State_get Op0 Part ;;
            Bd <- gets Builder ;;
            Cast <- CreateCast Bd opc A DestTy ;;
            State_set (Widen_self R) Cast Part ;;
            State_addMetadata Cast Inst)
      | _ => llvm_unreachable "Unhandled instruction!"
      end
  end.

(** ** Lowering of the widened canonical induction *)

Record VPWidenCanonicalIVRecipe : Type := mkVPWidenCanonicalIVRecipe {
  WidenCanIV_self : VPValue;
  WidenCanIV_Operands : list VPValue
}.

(** One turn of the loop over the streams. *)
Definition VPWidenCanonicalIVRecipe_part (R : VPWidenCanonicalIVRecipe)
  (Bd : IRBuilderBase) (STy : Ty) (VF0 : ElementCount) (VStart : Value)
  (Part : nat) : M unit :=
  VStep <- createStepForVF Bd STy VF0 (Z.of_nat Part) ;;
  VStep <- (if ElementCount_isVector VF0 then
              Splat <- CreateVectorSplat Bd VF0 VStep ;;
              Ramp <- CreateStepVector Bd (getType Splat) ;;
              CreateAdd Bd Splat Ramp false false
            else ret VStep) ;;
  CanonicalVectorIV <- CreateAdd Bd VStart VStep false false ;;
  State_set (WidenCanIV_self R) CanonicalVectorIV Part.

(** The recipe builds an emitter of its own, in front of the terminator of
    the previous block; [ConstantFolder] is that emitter's folder. *)
Definition VPWidenCanonicalIVRecipe_execute (ConstantFolder : IRBuilderFolder)
  (R : VPWidenCanonicalIVRecipe) : M unit :=
  Op0 <- getOperand (WidenCanIV_Operands R) 0 ;;
  CanonicalIV <- State_get Op0 0 ;;
  let STy := getType CanonicalIV in
  prev <- gets (fun St => PrevBB (CFG St)) ;;
  let Bd := mkIRBuilderBase (IP_beforeTerminator prev) FMF_none 0 ConstantFolder in
  VF0 <- gets VF ;;
  VStart <- (if ElementCount_isScalar VF0 then ret CanonicalIV
             else CreateVectorSplat Bd VF0 CanonicalIV) ;;
  UF0 <- gets UF ;;
  for_range 0 UF0 (VPWidenCanonicalIVRecipe_part R Bd STy VF0 VStart).

(** ** Lowering of the reduction phi *)

Inductive RecurKind : Type :=
| RK_None | RK_Add | RK_Mul | RK_Or | RK_And | RK_Xor
| RK_SMin | RK_SMax | RK_UMin | RK_UMax
| RK_FAdd | RK_FMul | RK_FMin | RK_FMax | RK_FMulAdd
| RK_SelectICmp | RK_SelectFCmp.

Definition isMinMaxRecurrenceKind (RK : RecurKind) : bool :=
  match RK with
  | RK_SMin | RK_SMax | RK_UMin | RK_UMax | RK_FMin | RK_FMax => true
  | _ => false
  end.

Definition isSelectCmpRecurrenceKind (RK : RecurKind) : bool :=
  match RK with RK_SelectICmp | RK_SelectFCmp => true | _ => false end.

Record RecurrenceDescriptor : Type := mkRecurrenceDescriptor {
  getRecurrenceKind : RecurKind;
  getFastMathFlags : FastMathFlags
}.

(** Codes for the floating-point constants that this file names. *)
Definition FP_posZero : Z := 0.
Definition FP_negZero : Z := 1.
Definition FP_one : Z := 2.

Definition typeBits (t : Ty) : N :=
  match t with IntegerTy bits => bits | _ => 0%N end.

(** Modelled from the spec: [RecurrenceDescriptor::getRecurrenceIdentity] is
    defined outside this file. Section 4.6: the identity element of the kind,
    zero for an additive recurrence (and for or/xor), one for a
    multiplicative one, all ones for and; the floating-point kinds get the
    matching constant of their type. *)
Definition getRecurrenceIdentity (RK : RecurKind) (Tp : Ty) (F : FastMathFlags)
  : Result Value :=
  match RK with
  | RK_Add | RK_Or | RK_Xor => Ok (ConstantInt (typeBits Tp) 0)
  | RK_Mul => Ok (ConstantInt (typeBits Tp) 1)
  | RK_And => Ok (Constant_getAllOnesValue Tp)
  | RK_FAdd | RK_FMulAdd =>
      Ok (ConstantFP Tp (if NoSignedZeros F then FP_posZero else FP_negZero))
  | RK_FMul => Ok (ConstantFP Tp FP_one)
  | _ => Unreachable "Unknown recurrence kind"
  end.

Record VPReductionPHIRecipe : Type := mkVPReductionPHIRecipe {
  RedPHI_self : VPValue;
  RedPHI_UnderlyingValue : option UnderlyingValue;
  RedPHI_StartValue : option VPValue;
  RdxDesc : RecurrenceDescriptor;
  IsInLoop : bool;
  IsOrdered : bool
}.

Definition liftResult {A : Type} (r : Result A) : M A :=
  fun St => Result_bind r (fun a => Ok (a, St)).

(** One turn of the first loop: the placeholder of a stream. *)
Definition VPReductionPHIRecipe_createPhi (R : VPReductionPHIRecipe) (VecTy : Ty)
  (HeaderBB : nat) (Part : nat) : M unit :=
  EntryPart <- PHINode_Create VecTy (IP_firstInsertionPt HeaderBB) ;;
  State_set (RedPHI_self R) EntryPart Part.

(** One turn of the second loop: the incoming value from the preheader. *)
Definition VPReductionPHIRecipe_seedPhi (R : VPReductionPHIRecipe)
  (StartV Iden : Value) (VectorPH : nat) (Part : nat) : M unit :=
  EntryPart <- State_get (RedPHI_self R) Part ;;
  let StartVal := if Nat.eqb Part 0 then StartV else Iden in
  PHINode_addIncoming EntryPart StartVal VectorPH.

(** The two values that seed the placeholders on the edge from the
    preheader: [StartV] for stream 0 and [Iden] for every other stream. *)
Definition VPReductionPHIRecipe_seeds (R : VPReductionPHIRecipe) (ScalarPHI : bool)
  (VecTy : Ty) (VF0 : ElementCount) (VectorPH : nat) (StartV : Value)
  : M (Value * Value) :=
  let RK := getRecurrenceKind (RdxDesc R) in
  if isMinMaxRecurrenceKind RK || isSelectCmpRecurrenceKind RK then
    if ScalarPHI then ret (StartV, StartV)
    else
      InsertPointGuard (
        Builder_SetInsertPoint (IP_beforeTerminator VectorPH) ;;
        Bd <- gets Builder ;;
        Iden <- CreateVectorSplat Bd VF0 StartV ;;
        ret (Iden, Iden))
  else
    Iden <- liftResult (getRecurrenceIdentity RK (getScalarType VecTy)
                          (getFastMathFlags (RdxDesc R))) ;;
    if negb ScalarPHI then
      Bd <- gets Builder ;;
      Iden <- CreateVectorSplat Bd VF0 Iden ;;
      InsertPointGuard (
        Builder_SetInsertPoint (IP_beforeTerminator VectorPH) ;;
        Bd <- gets Builder ;;
        let Zero := getInt32 0 in
        StartV <- CreateInsertElement Bd Iden StartV Zero ;;
        ret (StartV, Iden))
    else ret (StartV, Iden).

Definition VPReductionPHIRecipe_execute (R : VPReductionPHIRecipe) : M unit :=
  PN <- liftResult (cast_Instruction (RedPHI_UnderlyingValue R)) ;;
  assert (match getOpcode PN with Instruction.PHI => true | _ => false end)
    "cast<Ty>() argument of incompatible type!" ;;
  VF0 <- gets VF ;;
  let ScalarPHI := ElementCount_isScalar VF0 || IsInLoop R in
  let VecTy := if ScalarPHI then getInstType PN
               else VectorType_get (getInstType PN) VF0 in
  HeaderBB <- gets (fun St => PrevBB (CFG St)) ;;
  loopHeader <- gets CurrentVectorLoopHeader ;;
  assert (Nat.eqb loopHeader HeaderBB) "recipe must be in the vector loop header" ;;
  UF0 <- gets UF ;;
  let LastPartForNewPhi := if IsOrdered R then 1%nat else UF0 in
  for_range 0 LastPartForNewPhi (VPReductionPHIRecipe_createPhi R VecTy HeaderBB) ;;
  VectorPH <- gets (fun St => getPreheaderBBFor (CFG St) (VPValue_id (RedPHI_self R))) ;;
  StartVPV <- match RedPHI_StartValue R with
              | Some V => ret V
              | None => unmodelled "reduction phi without start value"
              end ;;
  StartIRV <- liftResult (VPValue_getLiveInIRValue StartVPV) ;;
  StartV <- match StartIRV with
            | Some V => ret V
            | None => unmodelled "start value without IR value"
            end ;;
  seeds <- VPReductionPHIRecipe_seeds R ScalarPHI VecTy VF0 VectorPH StartV ;;
  let '(StartV, Iden) := seeds in
  for_range 0 LastPartForNewPhi (VPReductionPHIRecipe_seedPhi R StartV Iden VectorPH).

(** ** What the emitted integer values denote *)

(** The runtime side of a value: the multiple of a scalable width, and the
    lanes of the values that lowering treats as given (arguments, phis). *)
Record Env : Type := mkEnv {
  vscale : nat;
  argVal : nat -> list Z;
  phiVal : nat -> list Z
}.

(** The number of lanes of a width at run time. *)
Definition lanes (ρ : Env) (ec : ElementCount) : nat :=
  if isScalable ec then getKnownMinValue ec * vscale ρ else getKnownMinValue ec.

Definition scalarBits (t : Ty) : option N :=
  match getScalarType t with IntegerTy bits => Some bits | _ => None end.

(** Modelled from the spec: what the emitter's vector splice computes is
    defined outside this file. Section 4.5 (the last lane of "previous"
    followed by all but the last lane of "current", for offset [-1]): the
    window of [length a] lanes of [a ++ b] that starts at lane
    [(length a + imm) mod length a]. *)
Definition splice (a b : list Z) (imm : Z) : list Z :=
  let n := length a in
  let idx := Z.to_nat ((Z.of_nat n + imm) mod Z.of_nat n) in
  take n (drop idx (a ++ b)).

Definition lanewise (f : Z -> Z -> Z) (bits : N) (la lb : list Z) : option (list Z) :=
  if Nat.eqb (length la) (length lb)
  then Some (zip_with (fun x y => wrap bits (f x y)) la lb)
  else None.

(** The lanes of an emitted value, a scalar being one lane; [None] outside
    the integer fragment that the lowering properties speak about. *)
Fixpoint eval (ρ : Env) (v : Value) : option (list Z) :=
  match v with
  | Argument n _ => Some (argVal ρ n)
  | ConstantInt bits z => Some [wrap bits z]
  | ConstantDataVector bits elts => Some (map (wrap bits) elts)
  | ConstantSplat ec elt | VectorSplat _ ec elt =>
      match eval ρ elt with
      | Some [x] => Some (replicate (lanes ρ ec) x)
      | _ => None
      end
  | PHINode id _ => Some (phiVal ρ id)
  | BinaryOperator _ opc a b =>
      match opc, scalarBits (getType a), eval ρ a, eval ρ b with
      | Instruction.Add, Some bits, Some la, Some lb => lanewise Z.add bits la lb
      | Instruction.Mul, Some bits, Some la, Some lb => lanewise Z.mul bits la lb
      | _, _, _, _ => None
      end
  | InsertElementInst _ vec elt idx =>
      match eval ρ vec, eval ρ elt, eval ρ idx with
      | Some lv, Some [x], Some [i] =>
          if (0 <=? i) && (i <? Z.of_nat (length lv))
          then Some (<[Z.to_nat i := x]> lv) else None
      | _, _, _ => None
      end
  | VectorSplice _ a b imm =>
      match eval ρ a, eval ρ b with
      | Some la, Some lb =>
          if Nat.eqb (length la) (length lb) && negb (Nat.eqb (length la) 0)
          then Some (splice la lb imm) else None
      | _, _ => None
      end
  | StepVectorCall _ (VectorTy (IntegerTy bits) ec) =>
      Some (map (fun i => wrap bits (Z.of_nat i)) (seq 0 (lanes ρ ec)))
  | VScaleCall _ (IntegerTy bits) => Some [wrap bits (Z.of_nat (vscale ρ))]
  | _ => None
  end.

(** A folder is sound when what it answers has the type and the lanes of the
    instruction it stands for. *)
Record FolderSound (F : IRBuilderFolder) : Prop := mkFolderSound {
  FoldBinOp_sound : forall opc a b c, FoldBinOp F opc a b = Some c ->
    getType c = getType a /\
    forall ρ id, eval ρ c = eval ρ (BinaryOperator id opc a b);
  FoldInsertElement_sound : forall vec elt idx c,
    FoldInsertElement F vec elt idx = Some c ->
    getType c = getType vec /\
    forall ρ id, eval ρ c = eval ρ (InsertElementInst id vec elt idx);
  FoldVectorSplat_sound : forall ec v c, FoldVectorSplat F ec v = Some c ->
    getType c = VectorTy (getType v) ec /\
    forall ρ id, eval ρ c = eval ρ (VectorSplat id ec v);
  FoldVectorSplice_sound : forall a b imm c, FoldVectorSplice F a b imm = Some c ->
    getType c = getType a /\
    forall ρ id, eval ρ c = eval ρ (VectorSplice id a b imm)
}.

Definition sumZ (l : list Z) : Z := foldr Z.add 0 l.

(** The states between the calls of the code generator, one call per stream
    in increasing order: [chain] starts in [St0], and for every stream [p]
    below [n] the call for [p] runs in the [p]-th state, with the flags [F]
    installed on the emitter, and ends in the next one. *)
Definition streamChain (gen : nat -> M unit) (F : FastMathFlags) (n : nat)
  (St0 : VPTransformState) (chain : list VPTransformState) : Prop :=
  length chain = S n /\
  chain !! 0%nat = Some St0 /\
  forall p, (p < n)%nat ->
    exists Stp Stq,
      chain !! p = Some Stp /\ chain !! S p = Some Stq /\
      FMF (Builder Stp) = F /\ gen p Stp = Ok (tt, Stq).

(** Two states that differ at most in the function under construction. *)
Definition sameButIR (St St' : VPTransformState) : Prop :=
  St' = set_IR (fun _ => IR St') St.

(** A call that, when it returns, leaves the part [proj] of the state as it
    found it. *)
Definition preserves {A X : Type} (proj : VPTransformState -> X) (m : M A) : Prop :=
  forall St a St', m St = Ok (a, St') -> proj St' = proj St.

(** The emitter's fast-math flags, as a part of the state. *)
Definition emitterFMF (St : VPTransformState) : FastMathFlags := FMF (Builder St).

(** The number of operands that [CreateNAryOp] wants for an arithmetic
    opcode; [None] for every other opcode. *)
Definition arithArity (opc : Instruction.Opcode) : option nat :=
  match opc with
  | Instruction.Binary _ => Some 2%nat
  | Instruction.Unary _ => Some 1%nat
  | _ => None
  end.

(** The flags that a widened arithmetic recipe leaves on what it emits. *)
Definition widenedFlags (R : VPWidenRecipe) (Inst : OrigInstruction)
  (St : VPTransformState) : IRFlags :=
  if bool_decide (VPValue_id (Widen_self R) ∈ MayGeneratePoisonRecipes St)
  then dropPoisonGeneratingFlags (getIRFlags Inst)
  else getIRFlags Inst.

(** The seed of a stream and the lanes it denotes. *)
Definition seedOf (StartV Iden : Value) (Part : nat) : Value :=
  if Nat.eqb Part 0 then StartV else Iden.

Definition seedLanes (ρ : Env) (StartV Iden : Value) (Part : nat) : list Z :=
  default [] (eval ρ (seedOf StartV Iden Part)).

(** The number of placeholders that the reduction phi creates. *)
Definition LastPartForNewPhi (R : VPReductionPHIRecipe) (St : VPTransformState) : nat :=
  if IsOrdered R then 1%nat else UF St.

(** Whether the reduction phi is lowered at scalar type. *)
Definition isScalarPHI (R : VPReductionPHIRecipe) (St : VPTransformState) : bool :=
  ElementCount_isScalar (VF St) || IsInLoop R.

(** The type of the placeholders of a reduction phi that mirrors [PN]. *)
Definition reductionVecTy (R : VPReductionPHIRecipe) (PN : OrigInstruction)
  (St : VPTransformState) : Ty :=
  if isScalarPHI R St then getInstType PN
  else VectorType_get (getInstType PN) (VF St).

(** The incoming edges of the function under construction, as a part of the
    state. *)
Definition incomingEdges (St : VPTransformState) : gmap nat (list (Value * nat)) :=
  Incoming (IR St).

(** ** Further notions for blocks and the classifier *)

(** A plan whose blocks are well linked: the parent pointers agree with the
    lists, and no list holds a recipe twice (a node of an intrusive list is
    linked at one place only). *)
Definition wellLinked (S : VPlanBlocks) : Prop :=
  linkage S /\ forall bb l, RecipeList S !! bb = Some l -> NoDup l.

(** ** Further notions for the lowering procedures *)

(** The parts of the transform state that belong to the plan and the driver
    rather than to one recipe: vector width, stream count, the instance being
    replicated, the per-lane cache, the poison set, the block bookkeeping,
    and where and with which folder the emitter works. *)
Definition loweringFrame (St : VPTransformState) :=
  (VF St, UF St, Instance St, PerPartScalars St, MayGeneratePoisonRecipes St,
   CFG St, CurrentVectorLoopHeader St, InsertPt (Builder St), Folder (Builder St)).

(** The cache entry under one key, as a part of the state. *)
Definition cacheAt (k : nat * nat) (St : VPTransformState) : option Value :=
  PerPartOutput St !! k.

(** [VPInstruction::setFastMathFlags]: only a floating-point opcode may take
    flags. *)
Definition VPInstruction_setFastMathFlags (R : VPInstruction) (FMFNew : FastMathFlags)
  : Result VPInstruction :=
  if match VPI_Opcode R with
     | VPInstruction.IR (Instruction.Binary Instruction.FAdd)
     | VPInstruction.IR (Instruction.Binary Instruction.FMul)
     | VPInstruction.IR (Instruction.Unary Instruction.FNeg)
     | VPInstruction.IR (Instruction.Binary Instruction.FSub)
     | VPInstruction.IR (Instruction.Binary Instruction.FDiv)
     | VPInstruction.IR (Instruction.Binary Instruction.FRem)
     | VPInstruction.IR Instruction.FCmp => true
     | _ => false
     end
  then Ok (mkVPInstruction (VPI_self R) (VPI_Opcode R) (VPI_Operands R) FMFNew
             (VPI_DL R) (VPI_ParentIsExiting R) (VPI_RegionEntry R)
             (VPI_PlanHeader R))
  else AssertionFailure "this op can't take fast-math flags".

(** The opcodes that [generateInstruction] has a case for. *)
Definition VPInstruction_hasLowering (opc : VPInstruction.Opcode) : bool :=
  match opc with
  | VPInstruction.IR (Instruction.Binary _)
  | VPInstruction.IR Instruction.Select
  | VPInstruction.Not | VPInstruction.ICmpULE | VPInstruction.ActiveLaneMask
  | VPInstruction.FirstOrderRecurrenceSplice
  | VPInstruction.CanonicalIVIncrement | VPInstruction.CanonicalIVIncrementNUW
  | VPInstruction.BranchOnCond | VPInstruction.BranchOnCount => true
  | _ => false
  end.

(** A call that does not end in [llvm_unreachable], in any state. *)
Definition neverUnreachable {A : Type} (m : M A) : Prop :=
  forall St msg, m St <> Unreachable msg.

(** ** Lowering of the widened select *)

Record VPWidenSelectRecipe : Type := mkVPWidenSelectRecipe {
  WidenSel_self : VPValue;
  WidenSel_Operands : list VPValue;
  WidenSel_UnderlyingValue : option UnderlyingValue;
  InvariantCond : bool
}.

(** [cast<SelectInst>(getUnderlyingInstr())]. *)
Definition cast_SelectInst (u : option UnderlyingValue) : Result OrigInstruction :=
  Result_bind (cast_Instruction u) (fun Inst =>
    match getOpcode Inst with
    | Instruction.Select => Ok Inst
    | _ => AssertionFailure "cast<Ty>() argument of incompatible type!"
    end).

(** One turn of the loop over the streams; [InvarCond] is the condition
    taken once in front of the loop, or null. *)
Definition VPWidenSelectRecipe_part (R : VPWidenSelectRecipe) (Inst : OrigInstruction)
  (InvarCond : option Value) (Part : nat) : M unit :=
  Cond <- match InvarCond with
          | Some C => ret C
          | None => Op <- getOperand (WidenSel_Operands R) 0 ;; State_get Op Part
          end ;;
  VPOp1 <- getOperand (WidenSel_Operands R) 1 ;;
  Op0 <- State_get VPOp1 Part ;;
  VPOp2 <- getOperand (WidenSel_Operands R) 2 ;;
  Op1 <- State_get VPOp2 Part ;;
  Bd <- gets Builder ;;
  Sel <- CreateSelect Bd Cond Op0 Op1 ;;
  State_set (WidenSel_self R) Sel Part ;;
  State_addMetadata Sel Inst.

Definition VPWidenSelectRecipe_execute (R : VPWidenSelectRecipe) : M unit :=
  Inst <- liftResult (cast_SelectInst (WidenSel_UnderlyingValue R)) ;;
  State_setDebugLocFromInst Inst ;;
  InvarCond <- (if InvariantCond R then
                  Op <- getOperand (WidenSel_Operands R) 0 ;;
                  C <- State_get_lane Op 0 0 ;;
                  ret (Some C)
                else ret None) ;;
  UF0 <- gets UF ;;
  for_range 0 UF0 (VPWidenSelectRecipe_part R Inst InvarCond).

(** The opcodes of the original instruction that [VPWidenRecipe::execute]
    widens itself. *)
Definition VPWidenRecipe_hasLowering (opc : Instruction.Opcode) : bool :=
  match opc with
  | Instruction.Binary _ | Instruction.Unary _ | Instruction.Freeze
  | Instruction.ICmp | Instruction.FCmp | Instruction.Cast _ => true
  | _ => false
  end.

(** ** Header phis and the scalar steps of an induction *)

(** [getOperand(N)] outside the lowering monad. *)
Definition Operand (Operands : list VPValue) (N : nat) : Result VPValue :=
  match Operands !! N with
  | Some Op => Ok Op
  | None => AssertionFailure "Operand index out of bounds"
  end.

Record VPCanonicalIVPHIRecipe : Type := mkVPCanonicalIVPHIRecipe {
  CanIV_self : VPValue;
  CanIV_Operands : list VPValue;
  CanIV_DL : nat
}.

(** Modelled from the spec: the accessors of the header phis and of the
    scalar-steps recipe are declared outside this file. Section 4.6 has the
    start value of a header phi as the value on its edge from the loop entry,
    its first operand (null for a phi without operands), and names the start
    and the step of the scalar steps, which follow the canonical induction
    among the operands of that recipe. *)
Definition VPHeaderPHIRecipe_getStartValue (Operands : list VPValue) : option VPValue :=
  Operands !! 0%nat.

Record VPScalarIVStepsRecipe : Type := mkVPScalarIVStepsRecipe {
  Steps_Operands : list VPValue
}.

Definition Steps_getStartValue (R : VPScalarIVStepsRecipe) : Result VPValue :=
  Operand (Steps_Operands R) 1.

Definition Steps_getStepValue (R : VPScalarIVStepsRecipe) : Result VPValue :=
  Operand (Steps_Operands R) 2.

(** [cast<VPCanonicalIVPHIRecipe>(getOperand(0))]; [CanonicalIVs] has the
    canonical induction phis of the plan under the number of the recipe. *)
Definition VPScalarIVStepsRecipe_getCanonicalIV
  (CanonicalIVs : gmap nat VPCanonicalIVPHIRecipe) (R : VPScalarIVStepsRecipe)
  : Result VPCanonicalIVPHIRecipe :=
  Result_bind (Operand (Steps_Operands R) 0) (fun Op0 =>
    match VPValue_getDef Op0 ≫= (fun r => CanonicalIVs !! r) with
    | Some CanIV => Ok CanIV
    | None => AssertionFailure "cast<Ty>() argument of incompatible type!"
    end).

(** Two pointers to plan values are equal when both name the same value. *)
Definition sameVPValue (a : option VPValue) (b : VPValue) : bool :=
  match a with
  | Some a' => Nat.eqb (VPValue_id a') (VPValue_id b)
  | None => false
  end.

Definition VPScalarIVStepsRecipe_isCanonical
  (CanonicalIVs : gmap nat VPCanonicalIVPHIRecipe) (R : VPScalarIVStepsRecipe)
  : Result bool :=
  Result_bind (VPScalarIVStepsRecipe_getCanonicalIV CanonicalIVs R) (fun CanIV =>
  Result_bind (Steps_getStartValue R) (fun Start =>
  if negb (sameVPValue (VPHeaderPHIRecipe_getStartValue (CanIV_Operands CanIV)) Start)
  then Ok false
  else
    Result_bind (Steps_getStepValue R) (fun StepVPV =>
    if is_Some_b (VPValue_getDef StepVPV) then Ok false
    else
      Result_bind (VPValue_getLiveInIRValue StepVPV) (fun IRV =>
      Ok (match IRV ≫= dyn_cast_ConstantInt with
          | Some (_, step) => ConstantInt_isOne step
          | None => false
          end))))).

(** The start value of a header phi as an IR value: it has to be there, be a
    live-in, and stand for an IR value. *)
Definition HeaderPHI_StartIRValue (Operands : list VPValue) : M Value :=
  StartVPV <- match VPHeaderPHIRecipe_getStartValue Operands with
              | Some V => ret V
              | None => unmodelled "header phi without start value"
              end ;;
  StartIRV <- liftResult (VPValue_getLiveInIRValue StartVPV) ;;
  match StartIRV with
  | Some V => ret V
  | None => unmodelled "start value without IR value"
  end.

(** The debug location of an instruction object is not among the attributes
    that the store keeps, so [EntryPart->setDebugLoc(DL)] leaves the store as
    it is. *)
Definition VPCanonicalIVPHIRecipe_execute (R : VPCanonicalIVPHIRecipe) : M unit :=
  Start <- HeaderPHI_StartIRValue (CanIV_Operands R) ;;
  prev <- gets (fun St => PrevBB (CFG St)) ;;
  EntryPart <- PHINode_Create (getType Start) (IP_firstInsertionPt prev) ;;
  VectorPH <- gets (fun St => getPreheaderBBFor (CFG St) (VPValue_id (CanIV_self R))) ;;
  PHINode_addIncoming EntryPart Start VectorPH ;;
  UF0 <- gets UF ;;
  for_range 0 UF0 (fun Part => State_set (CanIV_self R) EntryPart Part).

(** ** Expansion of a closed-form expression *)

Record VPExpandSCEVRecipe : Type := mkVPExpandSCEVRecipe {
  ExpandSCEV_self : VPValue;
  ExpandSCEV_Expr : SCEV
}.

(** Modelled from the spec: the expander is the external collaborator of
    section 6 (c), which produces one target value for a symbolic expression;
    [expandCodeFor] stands for
    [SCEVExpander::expandCodeFor(Expr, Expr->getType(), InsertPt)]. *)
Definition VPExpandSCEVRecipe_execute
  (expandCodeFor : SCEV -> InsertPoint -> M Value) (R : VPExpandSCEVRecipe) : M unit :=
  inst <- gets Instance ;;
  assert (negb (is_Some_b inst)) "cannot be used in per-lane" ;;
  Bd <- gets Builder ;;
  Res <- expandCodeFor (ExpandSCEV_Expr R) (InsertPt Bd) ;;
  UF0 <- gets UF ;;
  for_range 0 UF0 (fun Part => State_set (ExpandSCEV_self R) Res Part).

(** ** Lowering of the first-order recurrence phi *)

Record VPFirstOrderRecurrencePHIRecipe : Type := mkVPFirstOrderRecurrencePHIRecipe {
  FORPhi_self : VPValue;
  FORPhi_Operands : list VPValue
}.

(** Modelled from the spec: [getRuntimeVF(B, Ty, VF)] is defined outside
    this file. Section 4.6 has the start value inserted at the position
    "lane width minus one", so the helper gives the lane width: the constant
    for a fixed width, that constant scaled by the runtime multiple for a
    scalable one. *)
Definition getRuntimeVF (B : IRBuilderBase) (bits : N) (VF0 : ElementCount) : M Value :=
  let EC := ConstantInt_get bits (Z.of_nat (getKnownMinValue VF0)) in
  if isScalable VF0 then CreateVScale B EC else ret EC.

(** Modelled from the spec: [IRBuilder::CreateSub] belongs to the emitter,
    the external collaborator of section 6 (b); without wrap flags it is the
    binary operation [sub], folded or inserted. *)
Definition CreateSub (B : IRBuilderBase) (LHS RHS : Value) : M Value :=
  CreateBinOp B Instruction.Sub LHS RHS.

(** Modelled from the spec: [VPTransformState::set] is defined outside this
    file. Section 3 has one generated value per stream for a plan value: the
    store keeps them in a vector of [UF] entries and checks the stream index
    against its size before it writes. For a stream index below [UF], the
    case of every loop over the streams, this is [State_set]. *)
Definition State_set_checked (Def : VPValue) (V : Value) (Part : nat) : M unit :=
  UF0 <- gets UF ;;
  assert (Nat.ltb Part UF0) "idx < size()" ;;
  State_set Def V Part.

Definition VPFirstOrderRecurrencePHIRecipe_execute
  (R : VPFirstOrderRecurrencePHIRecipe) : M unit :=
  VectorInit <- HeaderPHI_StartIRValue (FORPhi_Operands R) ;;
  VF0 <- gets VF ;;
  let VecTy := if ElementCount_isScalar VF0 then getType VectorInit
               else VectorType_get (getType VectorInit) VF0 in
  VectorPH <- gets (fun St => getPreheaderBBFor (CFG St) (VPValue_id (FORPhi_self R))) ;;
  VectorInit <- (if ElementCount_isVector VF0 then
                   let One := ConstantInt_get 32 1 in
                   InsertPointGuard (
                     Builder_SetInsertPoint (IP_beforeTerminator VectorPH) ;;
                     Bd <- gets Builder ;;
                     RuntimeVF <- getRuntimeVF Bd 32 VF0 ;;
                     LastIdx <- CreateSub Bd RuntimeVF One ;;
                     CreateInsertElement Bd (PoisonValue VecTy) VectorInit LastIdx)
                 else ret VectorInit) ;;
  prev <- gets (fun St => PrevBB (CFG St)) ;;
  EntryPart <- PHINode_Create VecTy (IP_firstInsertionPt prev) ;;
  PHINode_addIncoming EntryPart VectorInit VectorPH ;;
  State_set_checked (FORPhi_self R) EntryPart 0.

(** ** Lowering of a widened phi of the native path *)

(** A widened phi with what it reads of the plan around it: the block each
    operand comes from, its own block, the entry block of the enclosing loop
    region, and the exiting block of that region's single predecessor. *)
Record VPWidenPHIRecipe : Type := mkVPWidenPHIRecipe {
  WidenPHI_self : VPValue;
  WidenPHI_Operands : list VPValue;
  WidenPHI_IncomingBlocks : list nat;
  WidenPHI_Parent : nat;
  WidenPHI_RegionEntry : nat;
  WidenPHI_PreheaderExiting : nat
}.

(** [for (I = From; I < From + n; ++I) if (getIncomingBlock(I) == Target)
    StartIdx = I;] with the index check of [getIncomingBlock]. *)
Fixpoint WidenPHI_scan (Blocks : list nat) (Target From n StartIdx : nat)
  : Result nat :=
  match n with
  | O => Ok StartIdx
  | S n' =>
      match Blocks !! From with
      | None => AssertionFailure "idx < size()"
      | Some b =>
          WidenPHI_scan Blocks Target (S From) n'
            (if Nat.eqb b Target then From else StartIdx)
      end
  end.

Definition VPWidenPHIRecipe_StartIdx (R : VPWidenPHIRecipe) : Result nat :=
  if Nat.eqb (WidenPHI_RegionEntry R) (WidenPHI_Parent R) then
    WidenPHI_scan (WidenPHI_IncomingBlocks R) (WidenPHI_PreheaderExiting R) 0
      (length (WidenPHI_Operands R)) 0
  else Ok 0%nat.

(** Modelled from the spec: [IRBuilder::CreatePHI] belongs to the emitter,
    the external collaborator of section 6 (b): a phi without incoming edges
    at the emitter's insertion point; one of floating-point type takes the
    emitter's flags. *)
Definition CreatePHI (B : IRBuilderBase) (Ty0 : Ty) : M Value :=
  v <- Builder_Insert B (fun id => PHINode id Ty0) (FPAttrs B (isFPOrFPVectorTy Ty0)) ;;
  match dyn_cast_Instruction v with
  | Some id =>
      modify (set_IR (fun F =>
        mkIRStore (NextId F) (Emitted F) (InstFlags F) (<[id := []]> (Incoming F))
          (Successors F) (Terminators F) (Metadata F))) ;;
      ret v
  | None => ret v
  end.

(** [EnableVPlanNativePath] is a command-line option of the vectorizer. *)
Definition VPWidenPHIRecipe_execute (EnableVPlanNativePath : bool)
  (R : VPWidenPHIRecipe) : M unit :=
  assert EnableVPlanNativePath
    "Non-native vplans are not expected to have VPWidenPHIRecipes." ;;
  StartIdx <- liftResult (VPWidenPHIRecipe_StartIdx R) ;;
  Op <- getOperand (WidenPHI_Operands R) StartIdx ;;
  Op0 <- State_get Op 0 ;;
  let VecTy := getType Op0 in
  Bd <- gets Builder ;;
  VecPhi <- CreatePHI Bd VecTy ;;
  State_set (WidenPHI_self R) VecPhi 0.

(** A call that returns in every state and changes nothing but the function
    under construction. *)
Definition runsInIR {A : Type} (m : M A) : Prop :=
  forall St, exists a F', m St = Ok (a, set_IR (fun _ => F') St).

(** A call that, when it returns, leaves the state related to the one it
    found by [Rel]. *)
Definition ensures {A : Type} (Rel : VPTransformState -> VPTransformState -> Prop)
  (m : M A) : Prop :=
  forall St a St', m St = Ok (a, St') -> Rel St St'.

(** Between two states, every instruction that was added to the function
    was placed at [ip]. *)
Definition emittedAt (ip : InsertPoint) (St St' : VPTransformState) : Prop :=
  exists new, Emitted (IR St') = Emitted (IR St) ++ new /\
              Forall (fun e => fst e = ip) new.

(** ** Erasing a recipe *)

(** The node after [x] in the list; [None] is [end()]. *)
Fixpoint iplist_next (x : nat) (l : list nat) : option nat :=
  match l with
  | [] => None
  | y :: l' => if Nat.eqb y x then head l' else iplist_next x l'
  end.

(** [iplist::erase(where)] unlinks and destroys the node and returns the
    iterator to the node after it. A destroyed recipe has no parent. *)
Definition VPRecipeBase_eraseFromParent (R : nat) (S : VPlanBlocks)
  : Result (option nat * VPlanBlocks) :=
  match Parent S !! R with
  | None => AssertionFailure "Recipe not in any VPBasicBlock"
  | Some bb =>
      Ok (iplist_next R (getRecipeList S bb),
          {| Parent := delete R (Parent S);
             RecipeList :=
               <[bb := iplist_remove R (getRecipeList S bb)]> (RecipeList S) |})
  end.

(** ** The canonicality claim in the specification's words *)

(** The specification's words, for an induction of either type: the start
    is the literal constant zero, a live-in that stands for the integer
    constant 0 or for the floating-point constant +0.0. *)
Definition startIsLiteralZero (R : VPWidenIntOrFpInductionRecipe) : Prop :=
  VPValue_getDef (WidenIV_getStartValue R) = None /\
  ((exists bits,
      VPValue_UnderlyingVal (WidenIV_getStartValue R) = Some (ConstantInt bits 0)) \/
   (exists ty,
      VPValue_UnderlyingVal (WidenIV_getStartValue R)
      = Some (ConstantFP ty FP_posZero))).

(** The specification's words, for an induction of either type: the
    descriptor's step is the literal constant one, the integer constant 1 of
    the expression language, or the floating-point constant 1.0, which the
    descriptor of a floating-point induction holds as an unknown of that
    language. *)
Definition stepIsLiteralOne (R : VPWidenIntOrFpInductionRecipe) : Prop :=
  (exists bits, getStep (WidenIV_getInductionDescriptor R) = SCEVConstant bits 1) \/
  (exists ty, getStep (WidenIV_getInductionDescriptor R)
              = SCEVUnknown (ConstantFP ty FP_one)).

(** ** What a widened arithmetic operation is made of *)

(** What the folder makes of an arithmetic operation on the given operands,
    if it folds it. *)
Definition NAryFold (F : IRBuilderFolder) (opc : Instruction.Opcode)
  (Ops : list Value) : option Value :=
  match opc, Ops with
  | Instruction.Binary o, [a; b] => FoldBinOp F o a b
  | Instruction.Unary o, [a] => FoldUnOp F o a
  | _, _ => None
  end.

(** The arithmetic instruction with the given operands and identity. *)
Definition NAryInst (opc : Instruction.Opcode) (Ops : list Value) (id : nat)
  : option Value :=
  match opc, Ops with
  | Instruction.Binary o, [a; b] => Some (BinaryOperator id o a b)
  | Instruction.Unary o, [a] => Some (UnaryOperator id o a)
  | _, _ => None
  end.

(** What a seed of a reduction is made of: the splat of a value, the
    insertion of an element into a vector; each is the new instruction, or
    what the folder makes of that operation. *)
Definition splatOf (F : IRBuilderFolder) (ec : ElementCount) (v V : Value) : Prop :=
  match FoldVectorSplat F ec v with
  | Some C => V = C
  | None => exists id, V = VectorSplat id ec v
  end.

Definition insertOf (F : IRBuilderFolder) (Vec NewElt Idx V : Value) : Prop :=
  match FoldInsertElement F Vec NewElt Idx with
  | Some C => V = C
  | None => exists id, V = InsertElementInst id Vec NewElt Idx
  end.

(** * Verified properties *)

(** ** Effect classifier *)

Lemma effect_free_mirroredHas (R : VPRecipeBase) :
  underlyingEffectFree R ->
  mirroredHas I_mayWriteToMemory R = false /\
  mirroredHas I_mayReadFromMemory R = false /\
  mirroredHas I_mayHaveSideEffects R = false.
Proof.
  unfold underlyingEffectFree, mirroredHas. intros H.
  destruct (getUnderlyingValue R) as [[Inst|v]|]; simpl; auto.
  all: try (destruct (H Inst eq_refl) as (Hw & Hr & Hs); auto).
Qed.

Ltac classify R :=
  unfold VPRecipeBase_mayWriteToMemory, VPRecipeBase_mayReadFromMemory,
    VPRecipeBase_mayHaveSideEffects, mirroredHas in *;
  destruct (getVPDefID R); simpl in *; try discriminate;
  destruct (dyn_cast_or_null_Instruction (getUnderlyingValue R)); simpl in *.

(** C1, as the code has it. With a mirrored operation that is absent or free
    of effects: a recipe of one of the eight kinds that every query lists as
    pure (integer/float induction, widened canonical induction, phi widening,
    blend, arithmetic/compare widening, GEP widening, reduction, select
    widening) gets [false] from mayRead, mayWrite and mayHaveSideEffects; a
    pointer-induction or scalar-IV-steps recipe gets [false] from
    mayHaveSideEffects. *)
Theorem pure_kinds_have_no_effects (R : VPRecipeBase) :
  underlyingEffectFree R ->
  pureForSideEffects (getVPDefID R) = true ->
  VPRecipeBase_mayHaveSideEffects R = Ok false /\
  (pureInEveryQuery (getVPDefID R) = true ->
   VPRecipeBase_mayReadFromMemory R = Ok false /\
   VPRecipeBase_mayWriteToMemory R = Ok false).
Proof.
  intros Hfree Hpure.
  destruct (effect_free_mirroredHas R Hfree) as (Hw & Hr & Hs).
  classify R; rewrite ?Hw, ?Hr, ?Hs in *; simpl;
    repeat split; intros; try discriminate; reflexivity.
Qed.

Lemma pure_kinds_have_no_effects_witness :
  let R := mkVPRecipeBase VPWidenSC
             (Some (UInstruction
                (mkOrigInstruction (Instruction.Binary Instruction.Add)
                   IRFlags_none ICMP_EQ (IntegerTy 32) 0 false false false)))
             false in
  VPRecipeBase_mayHaveSideEffects R = Ok false /\
  VPRecipeBase_mayReadFromMemory R = Ok false /\
  VPRecipeBase_mayWriteToMemory R = Ok false.
Proof.
  intros R.
  assert (Hfree : underlyingEffectFree R).
  { intros Inst Heq. injection Heq as <-. simpl. auto. }
  destruct (pure_kinds_have_no_effects R Hfree eq_refl) as [Hs Hrw].
  destruct (Hrw eq_refl) as [Hr Hw]. auto.
Defined.

(** C1 as stated fails: a scalar-IV-steps recipe with no mirrored operation is
    among the listed kinds, yet mayRead and mayWrite take the default branch
    and answer [true]. *)
Lemma pure_kinds_claim_fails_on_scalar_steps :
  ~ (forall R : VPRecipeBase,
       underlyingEffectFree R ->
       pureForSideEffects (getVPDefID R) = true ->
       VPRecipeBase_mayReadFromMemory R = Ok false /\
       VPRecipeBase_mayWriteToMemory R = Ok false /\
       VPRecipeBase_mayHaveSideEffects R = Ok false).
Proof.
  intros H.
  destruct (H (mkVPRecipeBase VPScalarIVStepsSC None false)) as (Hr & _).
  - intros Inst Heq. discriminate Heq.
  - reflexivity.
  - discriminate Hr.
Qed.

(** C9, as the code has it. For a recipe of a kind that mayHaveSideEffects
    lists as pure, each query trips its assertion exactly when the mirrored
    instruction is present and has that query's own effect: side effects for
    mayHaveSideEffects; a write for mayWrite and a read for mayRead, and these
    two only for the eight kinds they list themselves. So with a mirrored
    instruction that is absent or free of effects no query reaches its
    assertion branch. *)
Theorem assertion_tracks_own_effect (R : VPRecipeBase) :
  pureForSideEffects (getVPDefID R) = true ->
  (isAssertionFailure (VPRecipeBase_mayHaveSideEffects R)
     = mirroredHas I_mayHaveSideEffects R /\
   isAssertionFailure (VPRecipeBase_mayWriteToMemory R)
     = pureInEveryQuery (getVPDefID R) && mirroredHas I_mayWriteToMemory R /\
   isAssertionFailure (VPRecipeBase_mayReadFromMemory R)
     = pureInEveryQuery (getVPDefID R) && mirroredHas I_mayReadFromMemory R) /\
  (underlyingEffectFree R ->
   isAssertionFailure (VPRecipeBase_mayHaveSideEffects R) = false /\
   isAssertionFailure (VPRecipeBase_mayWriteToMemory R) = false /\
   isAssertionFailure (VPRecipeBase_mayReadFromMemory R) = false).
Proof.
  intros Hpure.
  assert (Heq :
    isAssertionFailure (VPRecipeBase_mayHaveSideEffects R)
      = mirroredHas I_mayHaveSideEffects R /\
    isAssertionFailure (VPRecipeBase_mayWriteToMemory R)
      = pureInEveryQuery (getVPDefID R) && mirroredHas I_mayWriteToMemory R /\
    isAssertionFailure (VPRecipeBase_mayReadFromMemory R)
      = pureInEveryQuery (getVPDefID R) && mirroredHas I_mayReadFromMemory R).
  { classify R;
      repeat match goal with
             | |- context [negb (?f ?i)] => destruct (f i); simpl
             end; auto. }
  split; [exact Heq|]. intros Hfree.
  destruct Heq as (Hs & Hw & Hr).
  destruct (effect_free_mirroredHas R Hfree) as (Hw0 & Hr0 & Hs0).
  rewrite Hs, Hw, Hr, Hs0, Hw0, Hr0, !andb_false_r. auto.
Qed.

Lemma assertion_tracks_own_effect_witness :
  let Rstore := mkVPRecipeBase VPWidenSC
                  (Some (UInstruction
                     (mkOrigInstruction Instruction.Store
                        IRFlags_none ICMP_EQ VoidTy 0 true false true)))
                  false in
  let Radd := mkVPRecipeBase VPWidenSC
                (Some (UInstruction
                   (mkOrigInstruction (Instruction.Binary Instruction.Add)
                      IRFlags_none ICMP_EQ (IntegerTy 32) 0 false false false)))
                false in
  (isAssertionFailure (VPRecipeBase_mayHaveSideEffects Rstore) = true /\
   isAssertionFailure (VPRecipeBase_mayWriteToMemory Rstore) = true /\
   isAssertionFailure (VPRecipeBase_mayReadFromMemory Rstore) = false) /\
  (isAssertionFailure (VPRecipeBase_mayHaveSideEffects Radd) = false /\
   isAssertionFailure (VPRecipeBase_mayWriteToMemory Radd) = false /\
   isAssertionFailure (VPRecipeBase_mayReadFromMemory Radd) = false).
Proof.
  intros Rstore Radd. split.
  - exact (proj1 (assertion_tracks_own_effect Rstore eq_refl)).
  - apply (proj2 (assertion_tracks_own_effect Radd eq_refl)).
    intros Inst Heq. injection Heq as <-. simpl. auto.
Defined.

(** C9 as stated fails. A widened arithmetic recipe that mirrors a load trips
    only the assertion of mayRead, while mayWrite returns [false]; and a
    scalar-IV-steps recipe that mirrors a load trips no assertion at all. *)
Lemma assertion_claim_fails_on_load :
  ~ (forall (R : VPRecipeBase) (Inst : OrigInstruction),
       pureInEveryQuery (getVPDefID R) = true ->
       getUnderlyingValue R = Some (UInstruction Inst) ->
       I_mayReadFromMemory Inst || I_mayWriteToMemory Inst
         || I_mayHaveSideEffects Inst = true ->
       isAssertionFailure (VPRecipeBase_mayReadFromMemory R) = true /\
       isAssertionFailure (VPRecipeBase_mayWriteToMemory R) = true /\
       isAssertionFailure (VPRecipeBase_mayHaveSideEffects R) = true) /\
  ~ (forall (R : VPRecipeBase) (Inst : OrigInstruction),
       pureForSideEffects (getVPDefID R) = true ->
       getUnderlyingValue R = Some (UInstruction Inst) ->
       I_mayReadFromMemory Inst || I_mayWriteToMemory Inst
         || I_mayHaveSideEffects Inst = true ->
       isAssertionFailure (VPRecipeBase_mayReadFromMemory R) = true \/
       isAssertionFailure (VPRecipeBase_mayWriteToMemory R) = true \/
       isAssertionFailure (VPRecipeBase_mayHaveSideEffects R) = true).
Proof.
  pose (load := mkOrigInstruction Instruction.Load IRFlags_none ICMP_EQ
                  (IntegerTy 32) 0 false true false).
  split; intros H.
  - destruct (H (mkVPRecipeBase VPWidenSC (Some (UInstruction load)) false) load
                eq_refl eq_refl eq_refl) as (_ & Hw & _).
    discriminate Hw.
  - destruct (H (mkVPRecipeBase VPScalarIVStepsSC (Some (UInstruction load)) false)
                load eq_refl eq_refl eq_refl) as [Hr | [Hw | Hs]]; discriminate.
Qed.

(** ** Canonical widened induction *)

(** C8. isCanonical returns [true] exactly when the start value is the
    integer literal zero, a live-in integer constant 0, and the step of the
    induction descriptor is the integer literal one. An induction that
    starts at a floating-point literal is never canonical, whatever its
    step. *)
Theorem isCanonical_iff_zero_start_unit_step (R : VPWidenIntOrFpInductionRecipe) :
  (VPWidenIntOrFpInductionRecipe_isCanonical R = Ok true <->
   startIsIntegerZero R /\ stepIsIntegerOne R) /\
  (forall ty z,
     VPValue_getDef (WidenIV_getStartValue R) = None ->
     VPValue_UnderlyingVal (WidenIV_getStartValue R) = Some (ConstantFP ty z) ->
     VPWidenIntOrFpInductionRecipe_isCanonical R = Ok false).
Proof.
  unfold VPWidenIntOrFpInductionRecipe_isCanonical, startIsIntegerZero,
    stepIsIntegerOne, VPValue_getLiveInIRValue, dyn_cast,
    ConstantInt_isZero, ConstantInt_isOne.
  destruct R as [[i d u] [step]]; simpl. split; [split|].
  - destruct d; simpl; [discriminate|].
    destruct u as [v|]; simpl; [|discriminate].
    destruct v; simpl; try discriminate.
    destruct step; simpl; try (rewrite andb_false_r; discriminate).
    intros H. injection H as H. apply andb_true_iff in H as [H0 H1].
    apply Z.eqb_eq in H0, H1. subst. split; [split|]; eauto.
  - intros [[-> [bits ->]] [bits' ->]]. reflexivity.
  - intros ty z -> ->. reflexivity.
Qed.

Lemma isCanonical_iff_zero_start_unit_step_witness :
  VPWidenIntOrFpInductionRecipe_isCanonical
    (mkVPWidenIntOrFpInductionRecipe (mkVPValue 1 None (Some (ConstantInt 64 0)))
       (mkInductionDescriptor (SCEVConstant 64 1))) = Ok true /\
  VPWidenIntOrFpInductionRecipe_isCanonical
    (mkVPWidenIntOrFpInductionRecipe
       (mkVPValue 1 None (Some (ConstantFP FloatTy FP_posZero)))
       (mkInductionDescriptor (SCEVUnknown (ConstantFP FloatTy FP_one)))) = Ok false.
Proof.
  split.
  - apply (proj1 (isCanonical_iff_zero_start_unit_step _)). split.
    + split; [reflexivity|]. exists 64%N. reflexivity.
    + exists 64%N. reflexivity.
  - apply (proj2 (isCanonical_iff_zero_start_unit_step _) FloatTy FP_posZero); reflexivity.
Defined.

(** C8, the claim as the specification words it, for inductions of either
    type: a floating-point induction that starts at the literal +0.0 and steps
    by the literal 1.0 has a literal zero start and a literal one step, and
    isCanonical answers no. *)
Theorem isCanonical_claim_fails_on_float_induction :
  ~ (forall R : VPWidenIntOrFpInductionRecipe,
       VPWidenIntOrFpInductionRecipe_isCanonical R = Ok true <->
       startIsLiteralZero R /\ stepIsLiteralOne R).
Proof.
  intros H.
  pose (R := mkVPWidenIntOrFpInductionRecipe
               (mkVPValue 1 None (Some (ConstantFP FloatTy FP_posZero)))
               (mkInductionDescriptor (SCEVUnknown (ConstantFP FloatTy FP_one)))).
  destruct (H R) as [_ Hback].
  assert (Hc : VPWidenIntOrFpInductionRecipe_isCanonical R = Ok true).
  { apply Hback. split.
    - split; [reflexivity|]. right. exists FloatTy. reflexivity.
    - right. exists FloatTy. reflexivity. }
  vm_compute in Hc. discriminate.
Qed.

(** ** Block membership *)

Lemma iplist_remove_insert (pos x : nat) (l : list nat) :
  x ∉ l -> iplist_remove x (iplist_insert pos x l) = l.
Proof.
  induction l as [|y l IH]; simpl; intros Hx.
  - by rewrite Nat.eqb_refl.
  - apply not_elem_of_cons in Hx as [Hne Hx].
    destruct (Nat.eqb y pos); simpl.
    + by rewrite Nat.eqb_refl.
    + destruct (Nat.eqb_spec y x); [congruence|]. by rewrite IH.
Qed.

Lemma iplist_remove_insertAfter (pos x : nat) (l : list nat) :
  x ∉ l -> iplist_remove x (iplist_insertAfter pos x l) = l.
Proof.
  induction l as [|y l IH]; simpl; intros Hx.
  - by rewrite Nat.eqb_refl.
  - apply not_elem_of_cons in Hx as [Hne Hx].
    destruct (Nat.eqb y pos); simpl.
    + destruct (Nat.eqb_spec y x); [congruence|]. by rewrite Nat.eqb_refl.
    + destruct (Nat.eqb_spec y x); [congruence|]. by rewrite IH.
Qed.

Lemma unlinked_not_in_list (S : VPlanBlocks) (R bb : nat) (l : list nat) :
  linkage S -> Parent S !! R = None -> RecipeList S !! bb = Some l -> R ∉ l.
Proof.
  intros [_ Hin] Hnone Hl Hmem. specialize (Hin bb l R Hl Hmem). congruence.
Qed.

(** C7. In a well-linked plan, for a recipe [R] without parent and a position
    [P] that belongs to a block, inserting [R] before (or after) [P] and then
    removing [R] succeeds and gives back the plan as it was: every block has
    its former recipe sequence and [R] has no parent. *)
Theorem insert_then_remove_restores (S : VPlanBlocks) (R P : nat) :
  linkage S ->
  Parent S !! R = None ->
  is_Some (Parent S !! P) ->
  (exists S1 S2,
     VPRecipeBase_insertBefore R P S = Ok S1 /\
     VPRecipeBase_removeFromParent R S1 = Ok S2 /\
     RecipeList S2 = RecipeList S /\ Parent S2 !! R = None /\ S2 = S) /\
  (exists S1 S2,
     VPRecipeBase_insertAfter R P S = Ok S1 /\
     VPRecipeBase_removeFromParent R S1 = Ok S2 /\
     RecipeList S2 = RecipeList S /\ Parent S2 !! R = None /\ S2 = S).
Proof.
  intros Hlink HR [bb HP].
  destruct (proj1 Hlink P bb HP) as (l & Hl & _).
  pose proof (unlinked_not_in_list S R bb l Hlink HR Hl) as Hnot.
  destruct S as [lists parents]; simpl in *.
  unfold VPRecipeBase_insertBefore, VPRecipeBase_insertAfter,
    VPRecipeBase_removeFromParent, getRecipeList; simpl.
  rewrite HR, HP; simpl.
  split; eexists _, _; (split; [reflexivity|]); simpl;
    rewrite lookup_insert_eq; (split; [reflexivity|]); simpl;
    rewrite Hl, lookup_insert_eq; simpl;
    rewrite ?iplist_remove_insert, ?iplist_remove_insertAfter by done;
    rewrite insert_insert_eq, (insert_id lists bb l Hl),
      (delete_insert_id parents R bb HR) by done; auto.
Qed.

Lemma insert_then_remove_restores_witness :
  let S := mkVPlanBlocks {[ 0%nat := [10%nat; 11%nat] ]}
             (<[10%nat := 0%nat]> {[ 11%nat := 0%nat ]}) in
  (exists S1 S2,
     VPRecipeBase_insertBefore 12 11 S = Ok S1 /\
     VPRecipeBase_removeFromParent 12 S1 = Ok S2 /\
     RecipeList S2 = RecipeList S /\ Parent S2 !! 12%nat = None /\ S2 = S) /\
  (exists S1 S2,
     VPRecipeBase_insertAfter 12 11 S = Ok S1 /\
     VPRecipeBase_removeFromParent 12 S1 = Ok S2 /\
     RecipeList S2 = RecipeList S /\ Parent S2 !! 12%nat = None /\ S2 = S).
Proof.
  intros S. apply (insert_then_remove_restores S 12 11).
  - split.
    + intros r bb H. simpl in H.
      destruct (decide (r = 10%nat)) as [->|]; [|destruct (decide (r = 11%nat)) as [->|]];
        simplify_map_eq; eexists; (split; [reflexivity|]); set_solver.
    + intros bb l r Hl Hr. simpl in *.
      destruct (decide (bb = 0%nat)) as [->|]; simplify_map_eq.
      set_unfold. destruct Hr as [->|[->|[]]]; by simplify_map_eq.
  - reflexivity.
  - simpl. by simplify_map_eq.
Defined.

(** ** Arithmetic of [wrap] *)

Lemma wrap_pos (bits : N) : 0 < 2 ^ Z.of_N bits.
Proof. apply Z.pow_pos_nonneg; lia. Qed.

Lemma wrap_wrap (bits : N) (x : Z) : wrap bits (wrap bits x) = wrap bits x.
Proof. unfold wrap. apply Z.mod_mod. pose proof (wrap_pos bits). lia. Qed.

Lemma wrap_add_l (bits : N) (x y : Z) : wrap bits (wrap bits x + y) = wrap bits (x + y).
Proof. unfold wrap. apply Zplus_mod_idemp_l. Qed.

Lemma wrap_add_r (bits : N) (x y : Z) : wrap bits (x + wrap bits y) = wrap bits (x + y).
Proof. unfold wrap. apply Zplus_mod_idemp_r. Qed.

Lemma wrap_mul_l (bits : N) (x y : Z) : wrap bits (wrap bits x * y) = wrap bits (x * y).
Proof. unfold wrap. apply Zmult_mod_idemp_l. Qed.

Lemma wrap_mul_r (bits : N) (x y : Z) : wrap bits (x * wrap bits y) = wrap bits (x * y).
Proof. unfold wrap. apply Zmult_mod_idemp_r. Qed.

Lemma wrap_0 (bits : N) : wrap bits 0 = 0.
Proof. unfold wrap. apply Z.mod_0_l. pose proof (wrap_pos bits). lia. Qed.

(** ** Loops and emitter operations *)

Lemma for_range_inv (Inv : nat -> VPTransformState -> Prop) (body : nat -> M unit)
  (n lo : nat) (St : VPTransformState) :
  Inv lo St ->
  (forall p S0, (lo <= p < lo + n)%nat -> Inv p S0 ->
     exists S1, body p S0 = Ok (tt, S1) /\ Inv (S p) S1) ->
  exists St', for_range lo n body St = Ok (tt, St') /\ Inv (lo + n)%nat St'.
Proof.
  revert lo St. induction n as [|n IH]; intros lo St HI Hstep; simpl.
  - exists St. rewrite Nat.add_0_r. auto.
  - destruct (Hstep lo St ltac:(lia) HI) as (S1 & Hb & HI1).
    unfold bind. rewrite Hb.
    destruct (IH (S lo) S1 HI1) as (St' & Hr & HI').
    { intros p S0 Hp. apply Hstep. lia. }
    exists St'. split; [exact Hr|]. replace (lo + S n)%nat with (S lo + n)%nat by lia.
    exact HI'.
Qed.

Lemma NoFolder_sound : FolderSound NoFolder.
Proof. split; intros; discriminate. Qed.

Lemma sameButIR_refl (St : VPTransformState) : sameButIR St St.
Proof. unfold sameButIR. by destruct St. Qed.

Lemma sameButIR_trans (S1 S2 S3 : VPTransformState) :
  sameButIR S1 S2 -> sameButIR S2 S3 -> sameButIR S1 S3.
Proof. unfold sameButIR. intros -> ->. by destruct S1. Qed.

Lemma Builder_Insert_spec (B : IRBuilderBase) (mk : nat -> Value) (f : IRFlags)
  (St : VPTransformState) :
  exists St', Builder_Insert B mk f St = Ok (mk (NextId (IR St)), St') /\ sameButIR St St'.
Proof. eexists. split; [reflexivity|]. unfold sameButIR. by destruct St. Qed.

Lemma CreateBinOp_spec (B : IRBuilderBase) (opc : Instruction.BinaryOps)
  (a b : Value) (St : VPTransformState) :
  FolderSound (Folder B) ->
  exists V St', CreateBinOp B opc a b St = Ok (V, St') /\ sameButIR St St' /\
    getType V = getType a /\
    forall ρ, eval ρ V = eval ρ (BinaryOperator 0 opc a b).
Proof.
  intros HF. unfold CreateBinOp.
  destruct (FoldBinOp (Folder B) opc a b) as [c|] eqn:E.
  - destruct (FoldBinOp_sound _ HF _ _ _ _ E) as [Ht He].
    exists c, St. repeat split; auto using sameButIR_refl.
  - destruct (Builder_Insert_spec B (fun id => BinaryOperator id opc a b)
                (FPAttrs B (isFPBinaryOp opc)) St) as (St' & -> & Hs).
    eexists _, St'. repeat split; auto.
Qed.

Lemma CreateAdd_spec (B : IRBuilderBase) (a b : Value) (nuw nsw : bool)
  (St : VPTransformState) :
  FolderSound (Folder B) ->
  exists V St', CreateAdd B a b nuw nsw St = Ok (V, St') /\ sameButIR St St' /\
    getType V = getType a /\
    forall ρ, eval ρ V = eval ρ (BinaryOperator 0 Instruction.Add a b).
Proof.
  intros HF. unfold CreateAdd.
  destruct (FoldBinOp (Folder B) Instruction.Add a b) as [c|] eqn:E.
  - destruct (FoldBinOp_sound _ HF _ _ _ _ E) as [Ht He].
    exists c, St. repeat split; auto using sameButIR_refl.
  - destruct (Builder_Insert_spec B (fun id => BinaryOperator id Instruction.Add a b)
                (mkIRFlags nuw nsw false FMF_none) St) as (St' & -> & Hs).
    eexists _, St'. repeat split; auto.
Qed.

Lemma createStepForVF_spec (B : IRBuilderBase) (bits : N) (VF0 : ElementCount)
  (Step : Z) (St : VPTransformState) :
  FolderSound (Folder B) ->
  exists V St', createStepForVF B (IntegerTy bits) VF0 Step St = Ok (V, St') /\
    sameButIR St St' /\ getType V = IntegerTy bits /\
    forall ρ, eval ρ V = Some [wrap bits (Step * Z.of_nat (lanes ρ VF0))].
Proof.
  intros HF. unfold createStepForVF, lanes, ConstantInt_get.
  destruct (isScalable VF0); simpl.
  2:{ exists (ConstantInt bits (wrap bits (Step * Z.of_nat (getKnownMinValue VF0)))), St.
      repeat split; auto using sameButIR_refl. intros ρ. simpl. by rewrite wrap_wrap. }
  set (c := wrap bits (Step * Z.of_nat (getKnownMinValue VF0))).
  unfold ConstantInt_isZero, ConstantInt_isOne.
  destruct (Z.eqb_spec c 0) as [E0|N0].
  { exists (ConstantInt bits c), St. repeat split; auto using sameButIR_refl.
    intros ρ. simpl. f_equal. f_equal.
    rewrite Nat2Z.inj_mul, Z.mul_assoc, <- (wrap_mul_l _ (Step * _)). fold c.
    rewrite E0. simpl. by rewrite wrap_0. }
  unfold bind.
  destruct (Builder_Insert_spec B (fun id => VScaleCall id (IntegerTy bits))
              IRFlags_none St) as (St1 & -> & Hs1).
  destruct (Z.eqb_spec c 1) as [E1|N1].
  { eexists _, St1. repeat split; auto. intros ρ. simpl. f_equal. f_equal.
    rewrite Nat2Z.inj_mul, Z.mul_assoc, <- wrap_mul_l. fold c. rewrite E1.
    f_equal. lia. }
  unfold CreateMul.
  destruct (CreateBinOp_spec B Instruction.Mul
              (VScaleCall (NextId (IR St)) (IntegerTy bits)) (ConstantInt bits c) St1 HF)
    as (V & St2 & -> & Hs2 & Ht & He).
  exists V, St2. repeat split; eauto using sameButIR_trans.
  intros ρ. rewrite He. simpl. unfold lanewise. simpl. f_equal. f_equal.
  rewrite wrap_mul_l, wrap_mul_r. subst c. rewrite wrap_mul_r.
  f_equal. lia.
Qed.

(** ** The generic control recipe *)

Lemma VPInstruction_execute_unfold (R : VPInstruction) (St : VPTransformState) :
  Instance St = None ->
  VPInstruction_execute R St =
    match for_range 0 (UF St) (VPInstruction_generateInstruction R)
            (withFastMathFlags (VPI_FMF R) St) with
    | Ok (_, S1) => Ok (tt, withFastMathFlags (FMF (Builder St)) S1)
    | AssertionFailure msg => AssertionFailure msg
    | Unreachable msg => Unreachable msg
    | Unmodelled msg => Unmodelled msg
    end.
Proof.
  intros Hinst. unfold VPInstruction_execute, bind, gets, assert, FastMathFlagGuard,
    Builder_setFastMathFlags, modify, ret. rewrite Hinst. simpl.
  unfold bind, withFastMathFlags. simpl.
  destruct (for_range 0 (UF St) (VPInstruction_generateInstruction R) _) as [[[] S1]| | |];
    reflexivity.
Qed.

Lemma canonical_increment_stream0 (R : VPInstruction) (St : VPTransformState)
  (Op0 : VPValue) (Phi : Value) (bits : N) :
  VPI_Opcode R = VPInstruction.CanonicalIVIncrement \/
  VPI_Opcode R = VPInstruction.CanonicalIVIncrementNUW ->
  VPI_Operands R !! 0%nat = Some Op0 ->
  PerPartOutput St !! (VPValue_id Op0, 0%nat) = Some Phi ->
  getType Phi = IntegerTy bits ->
  FolderSound (Folder (Builder St)) ->
  exists Next St1,
    VPInstruction_generateInstruction R 0 St = Ok (tt, St1) /\
    PerPartOutput St1 = <[(VPValue_id (VPI_self R), 0%nat) := Next]> (PerPartOutput St) /\
    (forall ρ x, eval ρ Phi = Some [x] ->
       eval ρ Next =
         Some [wrap bits (x + Z.of_nat (lanes ρ (VF St)) * Z.of_nat (UF St))]).
Proof.
  intros Hop Hops Hphi Hty HF.
  unfold VPInstruction_generateInstruction.
  unfold bind at 1. unfold Builder_SetCurrentDebugLocation, modify.
  set (St0 := withDebugLocation (VPI_DL R) St).
  assert (Hc0 : PerPartOutput St0 = PerPartOutput St) by reflexivity.
  assert (HVF : VF St0 = VF St) by reflexivity.
  assert (HUF : UF St0 = UF St) by reflexivity.
  assert (HF0 : FolderSound (Folder (Builder St0))) by exact HF.
  clearbody St0. rewrite <- Hc0 in *. rewrite <- HVF, <- HUF. clear Hc0 HVF HUF HF St.
  destruct (createStepForVF_spec (Builder St0) bits (VF St0) (Z.of_nat (UF St0)) St0 HF0)
    as (Step & St1 & Hstep & Hs1 & Htstep & Hestep).
  destruct (CreateAdd_spec (Builder St0) Phi Step
              (match VPI_Opcode R with
               | VPInstruction.CanonicalIVIncrementNUW => true
               | _ => false
               end) false St1 HF0)
    as (Next & St2 & Hadd & Hs2 & Htnext & Henext).
  exists Next, (set_PerPartOutput (fun m => <[(VPValue_id (VPI_self R), 0%nat) := Next]> m) St2).
  split; [|split].
  - destruct Hop as [Hop | Hop]; rewrite Hop in *; simpl;
      unfold bind, getOperand, State_get, gets, State_set, modify, ret;
      rewrite Hops, Hphi, Hty, Hstep, Hadd; reflexivity.
  - simpl. rewrite Hs2, Hs1. reflexivity.
  - intros ρ x Hx. rewrite Henext. simpl. rewrite Hty. simpl.
    rewrite Hx, Hestep. unfold lanewise. simpl. f_equal. f_equal.
    rewrite wrap_add_r. f_equal. lia.
Qed.

Lemma canonical_increment_later (R : VPInstruction) (St : VPTransformState)
  (Part : nat) (Next : Value) :
  VPI_Opcode R = VPInstruction.CanonicalIVIncrement \/
  VPI_Opcode R = VPInstruction.CanonicalIVIncrementNUW ->
  Part <> 0%nat ->
  PerPartOutput St !! (VPValue_id (VPI_self R), 0%nat) = Some Next ->
  VPInstruction_generateInstruction R Part St =
    Ok (tt, set_PerPartOutput
              (fun m => <[(VPValue_id (VPI_self R), Part) := Next]> m)
              (withDebugLocation (VPI_DL R) St)).
Proof.
  intros Hop Hpart Hnext. unfold VPInstruction_generateInstruction.
  unfold bind at 1. unfold Builder_SetCurrentDebugLocation, modify.
  destruct (Nat.eqb_spec Part 0) as [|_]; [contradiction|].
  destruct Hop as [Hop | Hop]; rewrite Hop; simpl;
    unfold bind, State_get, State_set, modify; simpl; rewrite Hnext; reflexivity.
Qed.

(** C2. Lowering a canonical-induction increment (plain or no-unsigned-wrap)
    over [UF] streams succeeds; the value [Next] is computed by the call for
    stream 0 and denotes [phi + W * UF] in the counter's integer type, where
    [W] is the run-time vector width (so [start + W * UF] when the phi holds
    the start value); the calls for the later streams emit nothing, and the
    cache holds the very same value object [Next] for every stream. *)
Theorem canonical_increment_computed_once (R : VPInstruction)
  (St : VPTransformState) (Op0 : VPValue) (Phi : Value) (bits : N) :
  VPI_Opcode R = VPInstruction.CanonicalIVIncrement \/
  VPI_Opcode R = VPInstruction.CanonicalIVIncrementNUW ->
  Instance St = None ->
  VPI_Operands R !! 0%nat = Some Op0 ->
  PerPartOutput St !! (VPValue_id Op0, 0%nat) = Some Phi ->
  getType Phi = IntegerTy bits ->
  FolderSound (Folder (Builder St)) ->
  (0 < UF St)%nat ->
  exists Next St1 St',
    VPInstruction_generateInstruction R 0 (withFastMathFlags (VPI_FMF R) St)
      = Ok (tt, St1) /\
    VPInstruction_execute R St = Ok (tt, St') /\
    IR St' = IR St1 /\
    (forall s, (s < UF St)%nat ->
       PerPartOutput St' !! (VPValue_id (VPI_self R), s) = Some Next) /\
    (forall ρ x, eval ρ Phi = Some [x] ->
       eval ρ Next =
         Some [wrap bits (x + Z.of_nat (lanes ρ (VF St)) * Z.of_nat (UF St))]).
Proof.
  intros Hop Hinst Hops Hphi Hty HF HUF.
  destruct (canonical_increment_stream0 R (withFastMathFlags (VPI_FMF R) St)
              Op0 Phi bits Hop Hops Hphi Hty HF)
    as (Next & St1 & Hgen0 & Hcache1 & Heval).
  set (self := VPValue_id (VPI_self R)) in *.
  destruct (UF St) as [|n] eqn:EUF; [lia|].
  destruct (for_range_inv
              (fun p S0 => IR S0 = IR St1 /\
                 forall s, (s < p)%nat -> PerPartOutput S0 !! (self, s) = Some Next)
              (VPInstruction_generateInstruction R) n 1 St1)
    as (Send & Hloop & HIR & Hall).
  { split; [reflexivity|]. intros s Hs. assert (s = 0%nat) as -> by lia.
    rewrite Hcache1. apply lookup_insert_eq. }
  { intros p S0 Hp [HIR0 Hall0]. eexists. split.
    - apply canonical_increment_later; [exact Hop | lia | apply Hall0; lia].
    - split; [exact HIR0|]. intros s Hs. simpl.
      destruct (decide (s = p)) as [->|Hne].
      + apply lookup_insert_eq.
      + rewrite lookup_insert_ne by congruence. apply Hall0. lia. }
  exists Next, St1, (withFastMathFlags (FMF (Builder St)) Send).
  split; [exact Hgen0|]. split; [|split; [exact HIR|split]].
  - rewrite VPInstruction_execute_unfold by exact Hinst. rewrite EUF. simpl.
    unfold bind. rewrite Hgen0, Hloop. reflexivity.
  - intros s Hs. simpl. apply Hall. lia.
  - intros ρ x Hx. rewrite (Heval ρ x Hx). simpl. rewrite EUF. reflexivity.
Qed.

Lemma canonical_increment_computed_once_witness :
  let Phi := PHINode 0 (IntegerTy 64) in
  let R := mkVPInstruction (mkVPValue 2 (Some 2%nat) None)
             VPInstruction.CanonicalIVIncrementNUW
             [mkVPValue 1 (Some 1%nat) None] FMF_none 0 false 0 0 in
  let St := mkVPTransformState (mkElementCount 4 false) 2 None
              {[ (1%nat, 0%nat) := Phi ]} ∅ ∅
              (mkIRBuilderBase (IP_at 0) FMF_none 0 NoFolder)
              (mkIRStore 1 [] ∅ ∅ ∅ ∅ ∅)
              (mkCFGState 0 ∅ (fun _ => 0%nat)) 0 in
  exists Next St1 St',
    VPInstruction_generateInstruction R 0 (withFastMathFlags (VPI_FMF R) St)
      = Ok (tt, St1) /\
    VPInstruction_execute R St = Ok (tt, St') /\
    IR St' = IR St1 /\
    (forall s, (s < 2)%nat -> PerPartOutput St' !! (2%nat, s) = Some Next) /\
    (forall ρ x, eval ρ Phi = Some [x] ->
       eval ρ Next = Some [wrap 64 (x + Z.of_nat (lanes ρ (VF St)) * Z.of_nat 2)]).
Proof.
  intros Phi R St.
  apply (canonical_increment_computed_once R St (mkVPValue 1 (Some 1%nat) None) Phi 64).
  - right. reflexivity.
  - reflexivity.
  - reflexivity.
  - reflexivity.
  - reflexivity.
  - exact NoFolder_sound.
  - simpl. lia.
Defined.

(** *** Parts of the state that a call leaves alone *)

Section Preserves.
Context {X : Type} (proj : VPTransformState -> X).

Lemma preserves_ret {A : Type} (a : A) : preserves proj (ret a).
Proof. intros St b St' H. by injection H as _ <-. Qed.

Lemma preserves_bind {A B : Type} (m : M A) (k : A -> M B) :
  preserves proj m -> (forall a, preserves proj (k a)) -> preserves proj (bind m k).
Proof.
  intros Hm Hk St b St' H. unfold bind in H.
  destruct (m St) as [[a S1]| | |] eqn:E; try discriminate.
  rewrite (Hk a S1 b St' H). exact (Hm St a S1 E).
Qed.

Lemma preserves_gets {A : Type} (f : VPTransformState -> A) : preserves proj (gets f).
Proof. intros St b St' H. by injection H as _ <-. Qed.

Lemma preserves_modify (f : VPTransformState -> VPTransformState) :
  (forall St, proj (f St) = proj St) -> preserves proj (modify f).
Proof. intros Hf St b St' H. injection H as _ <-. apply Hf. Qed.

Lemma preserves_assert (b : bool) (msg : string) : preserves proj (assert b msg).
Proof.
  intros St a St' H. unfold assert in H. destruct b; [|discriminate].
  by injection H as _ <-.
Qed.

Lemma preserves_AssertionFailure {A : Type} (msg : string) :
  preserves proj (fun _ : VPTransformState => @AssertionFailure (A * VPTransformState) msg).
Proof. intros St a St' H. discriminate. Qed.

Lemma preserves_llvm_unreachable {A : Type} (msg : string) :
  preserves proj (@llvm_unreachable A msg).
Proof. intros St a St' H. discriminate. Qed.

Lemma preserves_unmodelled {A : Type} (msg : string) :
  preserves proj (@unmodelled A msg).
Proof. intros St a St' H. discriminate. Qed.

Lemma preserves_liftResult {A : Type} (r : Result A) : preserves proj (liftResult r).
Proof.
  intros St a St' H. unfold liftResult in H. destruct r; try discriminate.
  by injection H as _ <-.
Qed.

Lemma preserves_InsertAt (ip : InsertPoint) (mk : nat -> Value) (f : IRFlags) :
  (forall St g, proj (set_IR g St) = proj St) ->
  preserves proj (InsertAt ip mk f).
Proof. intros Hp St a St' H. injection H as _ <-. apply Hp. Qed.

Lemma preserves_State_get (Def : VPValue) (Part : nat) :
  preserves proj (State_get Def Part).
Proof.
  intros St a St' H. unfold State_get in H.
  destruct (PerPartOutput St !! _); [|discriminate]. by injection H as _ <-.
Qed.

Lemma preserves_Terminator_eraseFromParent (bb : nat) (Br : Value) :
  (forall St g, proj (set_IR g St) = proj St) ->
  preserves proj (Terminator_eraseFromParent bb Br).
Proof.
  intros Hp St a St' H. unfold Terminator_eraseFromParent in H.
  destruct (Terminators (IR St) !! bb); [|discriminate]. injection H as _ <-. apply Hp.
Qed.

End Preserves.

(** Runs through the structure of a lowering procedure. *)
Ltac keeps :=
  repeat first
    [ apply preserves_ret
    | apply preserves_gets
    | apply preserves_assert
    | apply preserves_AssertionFailure
    | apply preserves_llvm_unreachable
    | apply preserves_unmodelled
    | apply preserves_liftResult
    | apply preserves_InsertAt; intros ? ?; reflexivity
    | match goal with
      | |- preserves _ (InsertAt _ _ _) =>
          let H := fresh "H" in
          intros ? ? ? H; injection H as _ <-; reflexivity
      end
    | apply preserves_State_get
    | apply preserves_Terminator_eraseFromParent; intros ? ?; reflexivity
    | apply preserves_modify; intros ?; reflexivity
    | apply preserves_bind; [|intros ?]
    | match goal with
      | |- preserves _ (match ?x with _ => _ end) => destruct x
      end ].

Lemma preserves_FMF_generateInstruction (R : VPInstruction) (Part : nat) :
  preserves emitterFMF (VPInstruction_generateInstruction R Part).
Proof.
  unfold VPInstruction_generateInstruction, Builder_SetCurrentDebugLocation,
    getOperand, State_set, State_get_lane, CreateBinOp, CreateNot, CreateICmp,
    CreateSelect, CreateActiveLaneMask, CreateVectorSplice, createStepForVF,
    CreateVScale, CreateMul, CreateBinOp, CreateAdd, CreateCondBr,
    CreateExtractElement, BranchInst_setSuccessor, Builder_Insert.
  keeps.
Qed.

(** *** A loop as the chain of its intermediate states *)

Lemma for_range_chain (body : nat -> M unit) (F : FastMathFlags) (n : nat) :
  forall (lo : nat) (S0 Send : VPTransformState),
  (forall p, preserves emitterFMF (body p)) ->
  FMF (Builder S0) = F ->
  for_range lo n body S0 = Ok (tt, Send) ->
  exists chain, streamChain (fun p => body (lo + p)%nat) F n S0 chain /\
                chain !! n = Some Send.
Proof.
  induction n as [|n IH]; intros lo S0 Send Hk HF Hrun; simpl in Hrun.
  - injection Hrun as <-. exists [S0]. repeat split. intros p Hp. lia.
  - unfold bind in Hrun. destruct (body lo S0) as [[[] S1]| | |] eqn:Eb; try discriminate.
    destruct (IH (S lo) S1 Send Hk) as (chain & (Hlen & H0 & Hsteps) & Hend); [|exact Hrun|].
    { rewrite <- HF. exact (Hk lo S0 tt S1 Eb). }
    exists (S0 :: chain). split; [split; [|split]|].
    + simpl. by rewrite Hlen.
    + reflexivity.
    + intros [|p] Hp.
      * exists S0, S1. rewrite Nat.add_0_r. repeat split; auto.
      * destruct (Hsteps p ltac:(lia)) as (Stp & Stq & Hp1 & Hq1 & HFp & Hb).
        exists Stp, Stq. replace (lo + S p)%nat with (S lo + p)%nat by lia.
        repeat split; auto.
    + exact Hend.
Qed.

Lemma chain_for_range (body : nat -> M unit) (F : FastMathFlags) (n : nat) :
  forall (lo : nat) (S0 Send : VPTransformState) (chain : list VPTransformState),
  streamChain (fun p => body (lo + p)%nat) F n S0 chain ->
  chain !! n = Some Send ->
  for_range lo n body S0 = Ok (tt, Send).
Proof.
  induction n as [|n IH]; intros lo S0 Send chain (Hlen & H0 & Hsteps) Hend; simpl.
  - rewrite H0 in Hend. by injection Hend as <-.
  - destruct (Hsteps 0%nat ltac:(lia)) as (Stp & Stq & Hp & Hq & HFp & Hb).
    rewrite H0 in Hp. injection Hp as <-. rewrite Nat.add_0_r in Hb.
    unfold bind. rewrite Hb.
    destruct chain as [|c0 chain]; [discriminate|]. simpl in *.
    apply (IH (S lo) Stq Send chain); [|exact Hend].
    split; [lia|]. split; [exact Hq|].
    intros p Hp. destruct (Hsteps (S p) ltac:(lia)) as (Sa & Sb & Ha & Hb' & HFa & Hr).
    exists Sa, Sb. replace (S lo + p)%nat with (lo + S p)%nat by lia. auto.
Qed.

(** C10. With an active per-lane instance, executing a [VPInstruction] fails
    its assertion. Without one, execute returns exactly when the code
    generator, called once per stream for the streams [0 .. UF-1] in
    increasing order, returns for each of them; every one of these calls runs
    with the recipe's fast-math flags installed on the emitter, and the state
    that execute returns is the state after the last call with the emitter's
    former flags put back. *)
Theorem VPInstruction_execute_once_per_stream (R : VPInstruction)
  (St : VPTransformState) :
  match Instance St with
  | Some _ =>
      VPInstruction_execute R St
        = AssertionFailure "VPInstruction executing an Instance"
  | None =>
      forall St', VPInstruction_execute R St = Ok (tt, St') <->
        exists chain Send,
          streamChain (VPInstruction_generateInstruction R) (VPI_FMF R) (UF St)
            (withFastMathFlags (VPI_FMF R) St) chain /\
          chain !! UF St = Some Send /\
          St' = withFastMathFlags (FMF (Builder St)) Send /\
          FMF (Builder St') = FMF (Builder St)
  end.
Proof.
  destruct (Instance St) as [i|] eqn:Hinst.
  - unfold VPInstruction_execute, bind, gets, assert. rewrite Hinst. reflexivity.
  - intros St'. rewrite VPInstruction_execute_unfold by exact Hinst. split.
    + destruct (for_range 0 (UF St) _ _) as [[[] Send]| | |] eqn:Hrun; try discriminate.
      intros H. injection H as <-.
      destruct (for_range_chain _ (VPI_FMF R) _ 0
                  (withFastMathFlags (VPI_FMF R) St) Send
                  (preserves_FMF_generateInstruction R) eq_refl Hrun) as (chain & Hc & Hend).
      exists chain, Send. auto.
    + intros (chain & Send & Hc & Hend & -> & _).
      rewrite (chain_for_range _ (VPI_FMF R) _ 0 _ Send chain Hc Hend). reflexivity.
Qed.

(** *** The first-order recurrence splice *)

Lemma splice_minus_one (la lb : list Z) :
  length lb = length la -> (0 < length la)%nat ->
  let l := splice la lb (-1) in
  length l = length la /\
  l !! 0%nat = la !! (length la - 1)%nat /\
  forall i, (S i < length la)%nat -> l !! S i = lb !! i.
Proof.
  intros Hlen Hpos. unfold splice.
  replace (Z.to_nat ((Z.of_nat (length la) + -1) mod Z.of_nat (length la)))
    with (length la - 1)%nat.
  2:{ rewrite Z.mod_small by lia. lia. }
  split; [|split].
  - rewrite length_take, length_drop, length_app. lia.
  - rewrite lookup_take_lt by lia. rewrite lookup_drop, Nat.add_0_r.
    apply lookup_app_l. lia.
  - intros i Hi. rewrite lookup_take_lt by lia. rewrite lookup_drop.
    rewrite lookup_app_r by lia. f_equal. lia.
Qed.

Lemma CreateVectorSplice_spec (B : IRBuilderBase) (V1 V2 : Value)
  (St : VPTransformState) :
  FolderSound (Folder B) ->
  getType V2 = getType V1 ->
  isVectorTy (getType V1) = true ->
  exists V St', CreateVectorSplice B V1 V2 (-1) St = Ok (V, St') /\
    sameButIR St St' /\
    forall ρ, eval ρ V = eval ρ (VectorSplice 0 V1 V2 (-1)).
Proof.
  intros HF Hty Hvec. unfold CreateVectorSplice, bind, assert.
  rewrite bool_decide_eq_true_2 by congruence.
  destruct (getType V1) as [| | | | |elt ec]; try discriminate.
  destruct (isScalable ec).
  - destruct (Builder_Insert_spec B (fun id => VectorSplice id V1 V2 (-1))
                IRFlags_none St) as (St' & -> & Hs).
    eexists _, St'. repeat split; auto.
  - replace ((- -1 <=? Z.of_nat (getKnownMinValue ec))
             || (-1 <? Z.of_nat (getKnownMinValue ec))) with true.
    2:{ symmetry. apply orb_true_iff. right. apply Z.ltb_lt. lia. }
    destruct (FoldVectorSplice (Folder B) V1 V2 (-1)) as [c|] eqn:E.
    + destruct (FoldVectorSplice_sound _ HF _ _ _ _ E) as [_ He].
      exists c, St. repeat split; auto using sameButIR_refl.
    + destruct (Builder_Insert_spec B (fun id => VectorSplice id V1 V2 (-1))
                  IRFlags_none St) as (St' & -> & Hs).
      eexists _, St'. repeat split; auto.
Qed.

(** C4. Lowering a first-order-recurrence splice at stream [s]: with [Prev]
    the recurrence phi's generated value when [s = 0] and the generated value
    of the current operand at stream [s - 1] otherwise, a [Prev] that is not
    of vector type is stored for stream [s] as it is and nothing is emitted;
    a [Prev] of vector type is spliced with the current stream's value, and
    the stored value has the last lane of [Prev] in lane 0 and lanes
    [0 .. W-2] of the current stream's value in lanes [1 .. W-1]. *)
Theorem first_order_splice_lowering (R : VPInstruction) (St : VPTransformState)
  (s : nat) (Op0 Op1 : VPValue) (V1 Prev : Value) :
  VPI_Opcode R = VPInstruction.FirstOrderRecurrenceSplice ->
  VPI_Operands R !! 0%nat = Some Op0 ->
  VPI_Operands R !! 1%nat = Some Op1 ->
  PerPartOutput St !! (VPValue_id Op0, 0%nat) = Some V1 ->
  (if Nat.eqb s 0 then Some V1
   else PerPartOutput St !! (VPValue_id Op1, (s - 1)%nat)) = Some Prev ->
  FolderSound (Folder (Builder St)) ->
  (isVectorTy (getType Prev) = false ->
   exists St',
     VPInstruction_generateInstruction R s St = Ok (tt, St') /\
     PerPartOutput St' !! (VPValue_id (VPI_self R), s) = Some Prev /\
     IR St' = IR St) /\
  (isVectorTy (getType Prev) = true ->
   forall V2,
     PerPartOutput St !! (VPValue_id Op1, s) = Some V2 ->
     getType V2 = getType Prev ->
     exists St' V,
       VPInstruction_generateInstruction R s St = Ok (tt, St') /\
       PerPartOutput St' !! (VPValue_id (VPI_self R), s) = Some V /\
       forall ρ lp lc,
         eval ρ Prev = Some lp -> eval ρ V2 = Some lc ->
         length lc = length lp -> (0 < length lp)%nat ->
         exists l, eval ρ V = Some l /\ length l = length lp /\
           l !! 0%nat = lp !! (length lp - 1)%nat /\
           forall i, (S i < length lp)%nat -> l !! S i = lc !! i).
Proof.
  intros Hop Hops0 Hops1 HV1 HPrev HF.
  split; [intros Hscalar | intros Hvec V2 HV2 Hty];
    unfold VPInstruction_generateInstruction;
    unfold bind at 1; unfold Builder_SetCurrentDebugLocation, modify;
    set (St0 := withDebugLocation (VPI_DL R) St);
    assert (Hc0 : PerPartOutput St0 = PerPartOutput St) by reflexivity;
    assert (HIR0 : IR St0 = IR St) by reflexivity;
    assert (HF0 : FolderSound (Folder (Builder St0))) by exact HF;
    clearbody St0; rewrite <- Hc0 in *; rewrite <- ?HIR0; clear Hc0 HIR0 HF St;
    rewrite Hop.
  - eexists. split; [|split].
    + unfold bind, getOperand, State_get, State_set, modify, ret in *.
      rewrite Hops0, HV1.
      destruct (Nat.eqb s 0).
      * injection HPrev as ->. rewrite Hscalar. simpl. reflexivity.
      * rewrite Hops1, HPrev. rewrite Hscalar. simpl. reflexivity.
    + simpl. apply lookup_insert_eq.
    + reflexivity.
  - destruct (CreateVectorSplice_spec (Builder St0) Prev V2 St0 HF0 Hty Hvec)
      as (V & St1 & Hspl & Hs1 & He).
    exists (set_PerPartOutput
              (fun m => <[(VPValue_id (VPI_self R), s) := V]> m) St1), V.
    split; [|split].
    + unfold bind, getOperand, State_get, State_set, modify, ret, gets in *.
      rewrite Hops0, HV1.
      destruct (Nat.eqb s 0).
      * injection HPrev as ->. rewrite Hvec. simpl.
        rewrite Hops1, HV2, Hspl. reflexivity.
      * rewrite Hops1, HPrev. rewrite Hvec. simpl.
        rewrite HV2, Hspl. reflexivity.
    + simpl. apply lookup_insert_eq.
    + intros ρ lp lc Hlp Hlc Hlen Hpos. rewrite He. simpl. rewrite Hlp, Hlc.
      replace (Nat.eqb (length lp) (length lc)) with true
        by (symmetry; apply Nat.eqb_eq; lia).
      replace (Nat.eqb (length lp) 0) with false
        by (symmetry; apply Nat.eqb_neq; lia).
      simpl. eexists. split; [reflexivity|].
      apply splice_minus_one; assumption.
Qed.

Lemma first_order_splice_lowering_witness :
  let VecTy := VectorTy (IntegerTy 32) (mkElementCount 4 false) in
  let Prev := Argument 0 VecTy in
  let R := mkVPInstruction (mkVPValue 3 (Some 3%nat) None)
             VPInstruction.FirstOrderRecurrenceSplice
             [mkVPValue 1 (Some 1%nat) None; mkVPValue 2 (Some 2%nat) None]
             FMF_none 0 false 0 0 in
  let St := mkVPTransformState (mkElementCount 4 false) 2 None
              (<[(1%nat, 0%nat) := PHINode 0 VecTy]>
                 (<[(2%nat, 0%nat) := Prev]> {[ (2%nat, 1%nat) := Argument 1 VecTy ]}))
              ∅ ∅
              (mkIRBuilderBase (IP_at 0) FMF_none 0 NoFolder)
              (mkIRStore 1 [] ∅ ∅ ∅ ∅ ∅)
              (mkCFGState 0 ∅ (fun _ => 0%nat)) 0 in
  (isVectorTy (getType Prev) = false ->
   exists St',
     VPInstruction_generateInstruction R 1 St = Ok (tt, St') /\
     PerPartOutput St' !! (3%nat, 1%nat) = Some Prev /\
     IR St' = IR St) /\
  (isVectorTy (getType Prev) = true ->
   forall V2,
     PerPartOutput St !! (2%nat, 1%nat) = Some V2 ->
     getType V2 = getType Prev ->
     exists St' V,
       VPInstruction_generateInstruction R 1 St = Ok (tt, St') /\
       PerPartOutput St' !! (3%nat, 1%nat) = Some V /\
       forall ρ lp lc,
         eval ρ Prev = Some lp -> eval ρ V2 = Some lc ->
         length lc = length lp -> (0 < length lp)%nat ->
         exists l, eval ρ V = Some l /\ length l = length lp /\
           l !! 0%nat = lp !! (length lp - 1)%nat /\
           forall i, (S i < length lp)%nat -> l !! S i = lc !! i).
Proof.
  intros VecTy Prev R St.
  apply (first_order_splice_lowering R St 1
           (mkVPValue 1 (Some 1%nat) None) (mkVPValue 2 (Some 2%nat) None)
           (PHINode 0 VecTy) Prev).
  - reflexivity.
  - reflexivity.
  - reflexivity.
  - reflexivity.
  - reflexivity.
  - exact NoFolder_sound.
Defined.

(** *** The widened canonical induction *)

Lemma zip_with_replicate_map {A B C : Type} (f : A -> B -> C) (x : A) (n : nat)
  (l : list B) :
  length l = n -> zip_with f (replicate n x) l = map (f x) l.
Proof.
  intros <-. induction l as [|y l IH]; simpl; [reflexivity|]. by rewrite IH.
Qed.

Lemma CreateVectorSplat_spec (B : IRBuilderBase) (ec : ElementCount) (v : Value)
  (St : VPTransformState) :
  FolderSound (Folder B) ->
  (0 < getKnownMinValue ec)%nat ->
  exists V St', CreateVectorSplat B ec v St = Ok (V, St') /\ sameButIR St St' /\
    getType V = VectorTy (getType v) ec /\
    forall ρ, eval ρ V = eval ρ (VectorSplat 0 ec v).
Proof.
  intros HF Hpos. unfold CreateVectorSplat, bind, assert.
  destruct (Nat.eqb_spec (getKnownMinValue ec) 0) as [|_]; [lia|]. simpl.
  destruct (FoldVectorSplat (Folder B) ec v) as [c|] eqn:E.
  - destruct (FoldVectorSplat_sound _ HF _ _ _ E) as [Ht He].
    exists c, St. repeat split; auto using sameButIR_refl.
    intros ρ. exact (He ρ 0%nat).
  - destruct (Builder_Insert_spec B (fun id => VectorSplat id ec v) IRFlags_none St)
      as (St' & -> & Hs).
    eexists _, St'. repeat split; auto.
Qed.

Lemma CreateStepVector_spec (B : IRBuilderBase) (bits : N) (ec : ElementCount)
  (St : VPTransformState) :
  exists V St', CreateStepVector B (VectorTy (IntegerTy bits) ec) St = Ok (V, St') /\
    sameButIR St St' /\
    forall ρ, eval ρ V =
      Some (map (fun i => wrap bits (Z.of_nat i)) (seq 0 (lanes ρ ec))).
Proof.
  unfold CreateStepVector. destruct (isScalable ec) eqn:Hsc.
  - destruct (Builder_Insert_spec B
                (fun id => StepVectorCall id (VectorTy (IntegerTy bits) ec))
                IRFlags_none St) as (St' & -> & Hs).
    eexists _, St'. repeat split; auto.
  - eexists _, St. repeat split; auto using sameButIR_refl.
    intros ρ. simpl. unfold lanes. by rewrite Hsc, map_map.
Qed.

Lemma ElementCount_shape (VF0 : ElementCount) :
  (0 < getKnownMinValue VF0)%nat ->
  (ElementCount_isScalar VF0 = true /\ ElementCount_isVector VF0 = false /\
   isScalable VF0 = false /\ getKnownMinValue VF0 = 1%nat) \/
  (ElementCount_isScalar VF0 = false /\ ElementCount_isVector VF0 = true).
Proof.
  unfold ElementCount_isScalar, ElementCount_isVector.
  destruct VF0 as [n [|]]; simpl; intros Hn.
  - right. destruct (Nat.eqb_spec n 0); [lia|]. auto.
  - destruct (Nat.eqb_spec n 1) as [->|].
    + left. auto.
    + right. split; [reflexivity|]. apply Nat.ltb_lt. lia.
Qed.

(** What one turn of the loop stores, given what [VStart] denotes. *)
Lemma widen_canonical_iv_part (R : VPWidenCanonicalIVRecipe) (Bd : IRBuilderBase)
  (bits : N) (VF0 : ElementCount) (VStart CanonicalIV : Value) (Part : nat)
  (S0 : VPTransformState) :
  FolderSound (Folder Bd) ->
  (0 < getKnownMinValue VF0)%nat ->
  scalarBits (getType VStart) = Some bits ->
  (forall ρ c, eval ρ CanonicalIV = Some [c] ->
     eval ρ VStart = Some (replicate (lanes ρ VF0) c)) ->
  exists V S1,
    VPWidenCanonicalIVRecipe_part R Bd (IntegerTy bits) VF0 VStart Part S0
      = Ok (tt, S1) /\
    PerPartOutput S1
      = <[(VPValue_id (WidenCanIV_self R), Part) := V]> (PerPartOutput S0) /\
    VF S1 = VF S0 /\
    forall ρ c, eval ρ CanonicalIV = Some [c] ->
      eval ρ V =
        Some (map (fun l => wrap bits (c + Z.of_nat Part * Z.of_nat (lanes ρ VF0)
                                         + Z.of_nat l))
                (seq 0 (lanes ρ VF0))).
Proof.
  intros HF Hpos Hbits Hstart. unfold VPWidenCanonicalIVRecipe_part.
  destruct (createStepForVF_spec Bd bits VF0 (Z.of_nat Part) S0 HF)
    as (VStep0 & S1 & Hstep & Hs1 & Ht0 & He0).
  unfold bind at 1. rewrite Hstep.
  destruct (ElementCount_shape VF0 Hpos) as [(Hsc & Hvec & Hfix & Hone) | (Hsc & Hvec)];
    rewrite Hvec.
  - destruct (CreateAdd_spec Bd VStart VStep0 false false S1 HF)
      as (V & S2 & Hadd & Hs2 & Ht & He).
    exists V, (set_PerPartOutput
                 (fun m => <[(VPValue_id (WidenCanIV_self R), Part) := V]> m) S2).
    unfold bind, ret, State_set, modify. rewrite Hadd.
    split; [reflexivity|]. split; [|split].
    + simpl. rewrite Hs2, Hs1. reflexivity.
    + simpl. rewrite Hs2, Hs1. reflexivity.
    + intros ρ c Hc. rewrite He. simpl. rewrite Hbits, (Hstart ρ c Hc), He0.
      unfold lanes. rewrite Hfix, Hone. simpl. unfold lanewise. simpl.
      f_equal. f_equal. rewrite wrap_add_r. f_equal. lia.
  - destruct (CreateVectorSplat_spec Bd VF0 VStep0 S1 HF Hpos)
      as (Splat & S2 & Hsplat & Hs2 & Hts & Hes).
    destruct (CreateStepVector_spec Bd bits VF0 S2) as (Ramp & S3 & Hramp & Hs3 & Her).
    destruct (CreateAdd_spec Bd Splat Ramp false false S3 HF)
      as (VStep & S4 & Hadd1 & Hs4 & Ht1 & He1).
    destruct (CreateAdd_spec Bd VStart VStep false false S4 HF)
      as (V & S5 & Hadd2 & Hs5 & Ht2 & He2).
    exists V, (set_PerPartOutput
                 (fun m => <[(VPValue_id (WidenCanIV_self R), Part) := V]> m) S5).
    unfold bind, ret, State_set, modify.
    rewrite Hsplat, Hts, Ht0, Hramp, Hadd1, Hadd2.
    split; [reflexivity|]. split; [|split].
    + simpl. rewrite Hs5, Hs4, Hs3, Hs2, Hs1. reflexivity.
    + simpl. rewrite Hs5, Hs4, Hs3, Hs2, Hs1. reflexivity.
    + intros ρ c Hc. rewrite He2. simpl. rewrite Hbits, (Hstart ρ c Hc), He1.
      simpl. rewrite Hts, Ht0. simpl. rewrite Hes, Her. simpl. rewrite He0.
      unfold lanewise. rewrite !length_replicate, !length_map, !length_seq, Nat.eqb_refl.
      set (W := lanes ρ VF0).
      rewrite (zip_with_replicate_map _ _ W) by (by rewrite length_map, length_seq).
      rewrite map_map, length_map, length_seq, Nat.eqb_refl.
      rewrite (zip_with_replicate_map _ _ W) by (by rewrite length_map, length_seq).
      rewrite map_map.
      f_equal. apply map_ext. intros l.
      rewrite wrap_add_r, Z.add_assoc, wrap_add_r.
      rewrite (Z.add_comm c), <- Z.add_assoc, wrap_add_l. f_equal. lia.
Qed.

(** C5, as the code has it. Lowering the widened canonical induction at
    run-time width [W] over [UF] streams succeeds and stores, for every stream
    [s], a value whose lane [l] holds [counter + s * W + l] in the counter's
    integer type: the counter broadcast to [W] lanes (used as it is at unit
    width) plus a step whose base offset is [s * W], to which the ramp
    [0, 1, 2, ...] is added when the width is a vector width. *)
Theorem widened_canonical_iv_lanes (ConstantFolder : IRBuilderFolder)
  (R : VPWidenCanonicalIVRecipe) (St : VPTransformState) (Op0 : VPValue)
  (CanonicalIV : Value) (bits : N) :
  WidenCanIV_Operands R !! 0%nat = Some Op0 ->
  PerPartOutput St !! (VPValue_id Op0, 0%nat) = Some CanonicalIV ->
  getType CanonicalIV = IntegerTy bits ->
  FolderSound ConstantFolder ->
  (0 < getKnownMinValue (VF St))%nat ->
  exists St',
    VPWidenCanonicalIVRecipe_execute ConstantFolder R St = Ok (tt, St') /\
    forall s, (s < UF St)%nat ->
      exists V,
        PerPartOutput St' !! (VPValue_id (WidenCanIV_self R), s) = Some V /\
        forall ρ c, eval ρ CanonicalIV = Some [c] ->
          eval ρ V =
            Some (map (fun l => wrap bits (c + Z.of_nat s * Z.of_nat (lanes ρ (VF St))
                                             + Z.of_nat l))
                    (seq 0 (lanes ρ (VF St)))).
Proof.
  intros Hops Hcan Hty HF Hpos.
  set (Bd := mkIRBuilderBase (IP_beforeTerminator (PrevBB (CFG St))) FMF_none 0
               ConstantFolder).
  assert (HFB : FolderSound (Folder Bd)) by exact HF.
  assert (Hstart : exists VStart S1,
    (if ElementCount_isScalar (VF St) then ret CanonicalIV
     else CreateVectorSplat Bd (VF St) CanonicalIV) St = Ok (VStart, S1) /\
    UF S1 = UF St /\
    scalarBits (getType VStart) = Some bits /\
    forall ρ c, eval ρ CanonicalIV = Some [c] ->
      eval ρ VStart = Some (replicate (lanes ρ (VF St)) c)).
  { destruct (ElementCount_shape (VF St) Hpos) as [(Hsc & _ & Hfix & Hone) | (Hsc & _)];
      rewrite Hsc.
    - exists CanonicalIV, St. repeat split; auto.
      + by rewrite Hty.
      + intros ρ c Hc. unfold lanes. by rewrite Hfix, Hone.
    - destruct (CreateVectorSplat_spec Bd (VF St) CanonicalIV St HFB Hpos)
        as (V & S1 & Hsplat & Hs1 & Ht & He).
      exists V, S1. repeat split; auto.
      + by rewrite Hs1.
      + by rewrite Ht, Hty.
      + intros ρ c Hc. rewrite He. simpl. by rewrite Hc. }
  destruct Hstart as (VStart & S1 & HVStart & HUF1 & Hbits & Hev).
  set (self := VPValue_id (WidenCanIV_self R)).
  destruct (for_range_inv
              (fun p S0 => forall s, (s < p)%nat ->
                 exists V, PerPartOutput S0 !! (self, s) = Some V /\
                   forall ρ c, eval ρ CanonicalIV = Some [c] ->
                     eval ρ V =
                       Some (map (fun l => wrap bits
                                   (c + Z.of_nat s * Z.of_nat (lanes ρ (VF St))
                                      + Z.of_nat l))
                               (seq 0 (lanes ρ (VF St)))))
              (VPWidenCanonicalIVRecipe_part R Bd (IntegerTy bits) (VF St) VStart)
              (UF St) 0 S1)
    as (St' & Hloop & Hall).
  { intros s Hs. lia. }
  { intros p S0 _ HI.
    destruct (widen_canonical_iv_part R Bd bits (VF St) VStart CanonicalIV p S0
                HFB Hpos Hbits Hev) as (V & S2 & Hrun & Hcache & _ & HevV).
    exists S2. split; [exact Hrun|]. intros s Hs. rewrite Hcache.
    destruct (decide (s = p)) as [->|Hne].
    - exists V. split; [apply lookup_insert_eq | exact HevV].
    - rewrite lookup_insert_ne by congruence. apply HI. lia. }
  exists St'. split; [|exact Hall].
  unfold VPWidenCanonicalIVRecipe_execute, bind, getOperand, State_get, gets, ret in *.
  rewrite Hops, Hcan, Hty. fold Bd. rewrite HVStart, HUF1. exact Hloop.
Qed.

Lemma widened_canonical_iv_lanes_witness :
  let CanonicalIV := PHINode 0 (IntegerTy 64) in
  let R := mkVPWidenCanonicalIVRecipe (mkVPValue 2 (Some 2%nat) None)
             [mkVPValue 1 (Some 1%nat) None] in
  let St := mkVPTransformState (mkElementCount 4 false) 2 None
              {[ (1%nat, 0%nat) := CanonicalIV ]} ∅ ∅
              (mkIRBuilderBase (IP_at 0) FMF_none 0 NoFolder)
              (mkIRStore 1 [] ∅ ∅ ∅ ∅ ∅)
              (mkCFGState 0 ∅ (fun _ => 0%nat)) 0 in
  exists St',
    VPWidenCanonicalIVRecipe_execute NoFolder R St = Ok (tt, St') /\
    forall s, (s < 2)%nat ->
      exists V,
        PerPartOutput St' !! (2%nat, s) = Some V /\
        forall ρ c, eval ρ CanonicalIV = Some [c] ->
          eval ρ V =
            Some (map (fun l => wrap 64 (c + Z.of_nat s * Z.of_nat (lanes ρ (VF St))
                                           + Z.of_nat l))
                    (seq 0 (lanes ρ (VF St)))).
Proof.
  intros CanonicalIV R St.
  apply (widened_canonical_iv_lanes NoFolder R St (mkVPValue 1 (Some 1%nat) None)
           CanonicalIV 64).
  - reflexivity.
  - reflexivity.
  - reflexivity.
  - exact NoFolder_sound.
  - simpl. lia.
Defined.

(** C5 as stated fails: with width 4 and two streams, lane 0 of stream 1
    holds [counter + 4], not [counter + 1]. *)
Lemma widened_canonical_iv_offset_is_not_the_stream_index :
  ~ (forall (ConstantFolder : IRBuilderFolder) (R : VPWidenCanonicalIVRecipe)
       (St : VPTransformState) (Op0 : VPValue) (CanonicalIV : Value) (bits : N),
       WidenCanIV_Operands R !! 0%nat = Some Op0 ->
       PerPartOutput St !! (VPValue_id Op0, 0%nat) = Some CanonicalIV ->
       getType CanonicalIV = IntegerTy bits ->
       FolderSound ConstantFolder ->
       (0 < getKnownMinValue (VF St))%nat ->
       exists St',
         VPWidenCanonicalIVRecipe_execute ConstantFolder R St = Ok (tt, St') /\
         forall s, (s < UF St)%nat ->
           exists V,
             PerPartOutput St' !! (VPValue_id (WidenCanIV_self R), s) = Some V /\
             forall ρ c, eval ρ CanonicalIV = Some [c] ->
               eval ρ V =
                 Some (map (fun l => wrap bits (c + Z.of_nat s + Z.of_nat l))
                         (seq 0 (lanes ρ (VF St))))).
Proof.
  intros H.
  pose (CanonicalIV := PHINode 0 (IntegerTy 64)).
  pose (R := mkVPWidenCanonicalIVRecipe (mkVPValue 2 (Some 2%nat) None)
               [mkVPValue 1 (Some 1%nat) None]).
  pose (St := mkVPTransformState (mkElementCount 4 false) 2 None
                {[ (1%nat, 0%nat) := CanonicalIV ]} ∅ ∅
                (mkIRBuilderBase (IP_at 0) FMF_none 0 NoFolder)
                (mkIRStore 1 [] ∅ ∅ ∅ ∅ ∅)
                (mkCFGState 0 ∅ (fun _ => 0%nat)) 0).
  destruct (H NoFolder R St (mkVPValue 1 (Some 1%nat) None) CanonicalIV 64%N
              eq_refl eq_refl eq_refl NoFolder_sound ltac:(simpl; lia))
    as (St' & Hrun & Hall).
  vm_compute in Hrun. injection Hrun as <-.
  destruct (Hall 1%nat ltac:(simpl; lia)) as (V & HV & Hev).
  vm_compute in HV. injection HV as <-.
  specialize (Hev (mkEnv 1 (fun _ => []) (fun _ => [0])) 0 eq_refl).
  vm_compute in Hev. discriminate Hev.
Qed.

(** *** Widened arithmetic and its flags *)

Lemma gatherOperands_ok (Operands : list VPValue) (Part : nat) (S0 : VPTransformState) :
  (forall Op, Op ∈ Operands -> is_Some (PerPartOutput S0 !! (VPValue_id Op, Part))) ->
  exists Ops, gatherOperands Operands Part S0 = Ok (Ops, S0) /\
              length Ops = length Operands.
Proof.
  induction Operands as [|Op rest IH]; intros Hall; simpl.
  - exists []. auto.
  - destruct (Hall Op ltac:(left)) as [V HV].
    destruct IH as (Vs & Hrest & Hlen). { intros O HO. apply Hall. by right. }
    exists (V :: Vs). unfold bind, State_get, ret. rewrite HV, Hrest. simpl. auto.
Qed.

Lemma Builder_Insert_flags (B : IRBuilderBase) (mk : nat -> Value) (f : IRFlags)
  (S0 : VPTransformState) :
  exists S1, Builder_Insert B mk f S0 = Ok (mk (NextId (IR S0)), S1) /\
    sameButIR S0 S1 /\
    forall id, id <> NextId (IR S0) ->
      InstFlags (IR S1) !! id = InstFlags (IR S0) !! id.
Proof.
  eexists. split; [reflexivity|]. split.
  - unfold sameButIR. by destruct S0.
  - intros id Hid. simpl. by rewrite lookup_insert_ne.
Qed.

Lemma CreateNAryOp_flags (B : IRBuilderBase) (opc : Instruction.Opcode)
  (Ops : list Value) (S0 : VPTransformState) :
  arithArity opc = Some (length Ops) ->
  exists V S1, CreateNAryOp B opc Ops S0 = Ok (V, S1) /\ sameButIR S0 S1 /\
    forall id, dyn_cast_Instruction V <> Some id ->
      InstFlags (IR S1) !! id = InstFlags (IR S0) !! id.
Proof.
  intros Har. unfold CreateNAryOp.
  destruct opc as [o|o|o| | | | | | | | | | |]; try discriminate; simpl in Har.
  - destruct Ops as [|a [|b [|? ?]]]; try discriminate. unfold CreateBinOp.
    destruct (FoldBinOp (Folder B) o a b) as [c|].
    + exists c, S0. repeat split; auto using sameButIR_refl.
    + destruct (Builder_Insert_flags B (fun id => BinaryOperator id o a b)
                  (FPAttrs B (isFPBinaryOp o)) S0) as (S1 & -> & Hs & Hfl).
      eexists _, S1. repeat split; auto. intros id Hid. apply Hfl.
      simpl in Hid. congruence.
  - destruct Ops as [|a [|? ?]]; try discriminate. unfold CreateUnOp.
    destruct (FoldUnOp (Folder B) o a) as [c|].
    + exists c, S0. repeat split; auto using sameButIR_refl.
    + destruct (Builder_Insert_flags B (fun id => UnaryOperator id o a)
                  (FPAttrs B true) S0) as (S1 & -> & Hs & Hfl).
      eexists _, S1. repeat split; auto. intros id Hid. apply Hfl.
      simpl in Hid. congruence.
Qed.

(** One turn of the widening loop: the flags of the stored value are the
    copied flags, with the poison-generating ones dropped for a recipe in the
    may-generate-poison set; the flags of every other instruction stay. *)
Lemma widenArith_part (R : VPWidenRecipe) (Inst : OrigInstruction) (Part : nat)
  (S0 : VPTransformState) :
  arithArity (getOpcode Inst) = Some (length (Widen_Operands R)) ->
  (forall Op, Op ∈ Widen_Operands R ->
     is_Some (PerPartOutput S0 !! (VPValue_id Op, Part))) ->
  exists V S1,
    VPWidenRecipe_widenArith R Inst Part S0 = Ok (tt, S1) /\
    PerPartOutput S1 = <[(VPValue_id (Widen_self R), Part) := V]> (PerPartOutput S0) /\
    MayGeneratePoisonRecipes S1 = MayGeneratePoisonRecipes S0 /\
    (forall id, dyn_cast_Instruction V = Some id ->
       InstFlags (IR S1) !! id = Some (widenedFlags R Inst S0)) /\
    (forall id, dyn_cast_Instruction V <> Some id ->
       InstFlags (IR S1) !! id = InstFlags (IR S0) !! id).
Proof.
  intros Har Hops. unfold VPWidenRecipe_widenArith.
  destruct (gatherOperands_ok _ Part S0 Hops) as (Ops & Hgather & Hlen).
  destruct (CreateNAryOp_flags (Builder S0) (getOpcode Inst) Ops S0)
    as (V & S1 & Hcreate & Hs1 & Hfl). { by rewrite Hlen. }
  unfold bind at 1. rewrite Hgather. unfold bind at 1, gets.
  unfold bind at 1. rewrite Hcreate.
  assert (Hset1 : MayGeneratePoisonRecipes S1 = MayGeneratePoisonRecipes S0)
    by (by rewrite Hs1).
  assert (Hcache1 : PerPartOutput S1 = PerPartOutput S0) by (by rewrite Hs1).
  unfold widenedFlags. rewrite <- Hset1, <- Hcache1. clear Hset1 Hcache1 Hs1 Hcreate Hgather.
  unfold State_addMetadata.
  destruct (dyn_cast_Instruction V) as [VecOp|] eqn:Hdyn.
  - unfold bind, Instruction_copyIRFlags, Instruction_dropPoisonGeneratingFlags,
      gets, modify, State_set, ret. simpl.
    destruct (bool_decide (VPValue_id (Widen_self R) ∈ MayGeneratePoisonRecipes S1));
      eexists V, _; (split; [reflexivity|]); simpl; repeat split.
    + intros id Hid. rewrite Hdyn in Hid. injection Hid as <-.
      rewrite lookup_alter_eq, lookup_insert_eq. reflexivity.
    + intros id Hid. rewrite Hdyn in Hid.
      rewrite lookup_alter_ne, lookup_insert_ne by congruence.
      apply Hfl. congruence.
    + intros id Hid. rewrite Hdyn in Hid. injection Hid as <-. apply lookup_insert_eq.
    + intros id Hid. rewrite Hdyn in Hid.
      rewrite lookup_insert_ne by congruence. apply Hfl. congruence.
  - unfold bind, gets, modify, State_set, ret. simpl.
    eexists V, _. split; [reflexivity|]. simpl. repeat split.
    + intros id Hid. rewrite Hdyn in Hid. discriminate.
    + intros id _. apply Hfl. congruence.
Qed.

Lemma dropPoisonGeneratingFlags_clears (f : IRFlags) :
  hasPoisonGeneratingFlags (dropPoisonGeneratingFlags f) = false.
Proof. reflexivity. Qed.

Lemma gatherOperands_values (Operands : list VPValue) (Part : nat)
  (S0 : VPTransformState) :
  (forall Op, Op ∈ Operands -> is_Some (PerPartOutput S0 !! (VPValue_id Op, Part))) ->
  exists Ops, gatherOperands Operands Part S0 = Ok (Ops, S0) /\
    Forall2 (fun Op A => PerPartOutput S0 !! (VPValue_id Op, Part) = Some A)
      Operands Ops.
Proof.
  induction Operands as [|Op rest IH]; intros Hall; simpl.
  - exists []. split; [reflexivity|constructor].
  - destruct (Hall Op ltac:(left)) as [V HV].
    destruct IH as (Vs & Hrest & Hvals). { intros O HO. apply Hall. by right. }
    exists (V :: Vs). unfold bind, State_get, ret. rewrite HV, Hrest. simpl.
    split; [reflexivity|]. by constructor.
Qed.

(** What CreateNAryOp returns for an arithmetic opcode: what the folder
    makes of the operation, with nothing added to the function, or the new
    instruction on the operands, added at the emitter's insertion point. *)
Lemma CreateNAryOp_value (B : IRBuilderBase) (opc : Instruction.Opcode)
  (Ops : list Value) (S0 : VPTransformState) :
  arithArity opc = Some (length Ops) ->
  exists V S1, CreateNAryOp B opc Ops S0 = Ok (V, S1) /\ sameButIR S0 S1 /\
    (forall id, dyn_cast_Instruction V <> Some id ->
       InstFlags (IR S1) !! id = InstFlags (IR S0) !! id) /\
    match NAryFold (Folder B) opc Ops with
    | Some C => V = C /\ Emitted (IR S1) = Emitted (IR S0)
    | None => NAryInst opc Ops (NextId (IR S0)) = Some V /\
              Emitted (IR S1) = Emitted (IR S0) ++ [(InsertPt B, V)]
    end.
Proof.
  intros Har. unfold CreateNAryOp, NAryFold, NAryInst.
  destruct opc as [o|o|o| | | | | | | | | | |]; try discriminate; simpl in Har.
  - destruct Ops as [|a [|b [|? ?]]]; try discriminate. unfold CreateBinOp.
    destruct (FoldBinOp (Folder B) o a b) as [c|].
    + exists c, S0. repeat split; auto using sameButIR_refl.
    + eexists _, _. split; [reflexivity|]. simpl. split; [|split; [|split]].
      * unfold sameButIR. by destruct S0.
      * intros id Hid. rewrite lookup_insert_ne; [reflexivity|]. congruence.
      * reflexivity.
      * reflexivity.
  - destruct Ops as [|a [|? ?]]; try discriminate. unfold CreateUnOp.
    destruct (FoldUnOp (Folder B) o a) as [c|].
    + exists c, S0. repeat split; auto using sameButIR_refl.
    + eexists _, _. split; [reflexivity|]. simpl. split; [|split; [|split]].
      * unfold sameButIR. by destruct S0.
      * intros id Hid. rewrite lookup_insert_ne; [reflexivity|]. congruence.
      * reflexivity.
      * reflexivity.
Qed.

(** One turn of the widening loop, with what is stored and where it comes
    from: the stored value is what CreateNAryOp makes of the operands' values
    of this stream, its flags are the copied flags, with the
    poison-generating ones dropped for a recipe in the may-generate-poison
    set, and the flags of every other instruction stay. *)
Lemma widenArith_part_value (R : VPWidenRecipe) (Inst : OrigInstruction) (Part : nat)
  (S0 : VPTransformState) :
  arithArity (getOpcode Inst) = Some (length (Widen_Operands R)) ->
  (forall Op, Op ∈ Widen_Operands R ->
     is_Some (PerPartOutput S0 !! (VPValue_id Op, Part))) ->
  exists Ops V S1,
    VPWidenRecipe_widenArith R Inst Part S0 = Ok (tt, S1) /\
    Forall2 (fun Op A => PerPartOutput S0 !! (VPValue_id Op, Part) = Some A)
      (Widen_Operands R) Ops /\
    PerPartOutput S1 = <[(VPValue_id (Widen_self R), Part) := V]> (PerPartOutput S0) /\
    MayGeneratePoisonRecipes S1 = MayGeneratePoisonRecipes S0 /\
    Builder S1 = Builder S0 /\
    match NAryFold (Folder (Builder S0)) (getOpcode Inst) Ops with
    | Some C => V = C /\ Emitted (IR S1) = Emitted (IR S0)
    | None => NAryInst (getOpcode Inst) Ops (NextId (IR S0)) = Some V /\
              Emitted (IR S1) = Emitted (IR S0) ++ [(InsertPt (Builder S0), V)]
    end /\
    (forall id, dyn_cast_Instruction V = Some id ->
       InstFlags (IR S1) !! id = Some (widenedFlags R Inst S0)) /\
    (forall id, dyn_cast_Instruction V <> Some id ->
       InstFlags (IR S1) !! id = InstFlags (IR S0) !! id).
Proof.
  intros Har Hops. unfold VPWidenRecipe_widenArith.
  destruct (gatherOperands_values _ Part S0 Hops) as (Ops & Hgather & Hvals).
  destruct (CreateNAryOp_value (Builder S0) (getOpcode Inst) Ops S0)
    as (V & S1 & Hcreate & Hs1 & Hfl & Hval).
  { rewrite Har. f_equal. by apply Forall2_length in Hvals. }
  unfold bind at 1. rewrite Hgather. unfold bind at 1, gets.
  unfold bind at 1. rewrite Hcreate.
  assert (Hset1 : MayGeneratePoisonRecipes S1 = MayGeneratePoisonRecipes S0)
    by (by rewrite Hs1).
  assert (Hcache1 : PerPartOutput S1 = PerPartOutput S0) by (by rewrite Hs1).
  assert (HB1 : Builder S1 = Builder S0) by (by rewrite Hs1).
  unfold widenedFlags. rewrite <- Hset1.
  clear Hset1 Hs1 Hcreate Hgather.
  unfold State_addMetadata.
  exists Ops, V.
  destruct (dyn_cast_Instruction V) as [VecOp|] eqn:Hdyn.
  - unfold bind, Instruction_copyIRFlags, Instruction_dropPoisonGeneratingFlags,
      gets, modify, State_set, ret. simpl.
    destruct (bool_decide (VPValue_id (Widen_self R) ∈ MayGeneratePoisonRecipes S1));
      eexists; (split; [reflexivity|]); simpl;
      (split; [exact Hvals|]); (split; [by rewrite Hcache1|]); (split; [reflexivity|]);
      (split; [exact HB1|]); (split; [exact Hval|]); split.
    + intros id Hid. injection Hid as <-.
      rewrite lookup_alter_eq, lookup_insert_eq. reflexivity.
    + intros id Hid.
      rewrite lookup_alter_ne, lookup_insert_ne by congruence.
      apply Hfl. congruence.
    + intros id Hid. injection Hid as <-. apply lookup_insert_eq.
    + intros id Hid.
      rewrite lookup_insert_ne by congruence. apply Hfl. congruence.
  - unfold bind, gets, modify, State_set, ret. simpl.
    eexists. split; [reflexivity|]. simpl.
    split; [exact Hvals|]. split; [by rewrite Hcache1|]. split; [reflexivity|].
    split; [exact HB1|]. split; [exact Hval|]. split.
    + intros id Hid. discriminate.
    + intros id _. apply Hfl. congruence.
Qed.

(** C6. Lowering a widened unary or binary arithmetic recipe whose operands
    are available succeeds. For every stream the stored value is what the
    emitter makes of the operation on the operands' values of that stream:
    unless the folder folds it, it is a new instruction of the original
    opcode on these values, added to the function at the emitter's insertion
    point, and it carries the flags copied from the mirrored instruction
    with the poison-generating ones (no unsigned wrap, no signed wrap, exact)
    dropped if the recipe is in the may-generate-poison set, and exactly the
    copied flags if it is not. The same holds for the flags of a folded
    result that is an instruction. *)
Theorem widened_arithmetic_poison_flags (R : VPWidenRecipe) (St : VPTransformState)
  (Inst : OrigInstruction) :
  Widen_UnderlyingValue R = Some (UInstruction Inst) ->
  arithArity (getOpcode Inst) = Some (length (Widen_Operands R)) ->
  (forall Op Part, Op ∈ Widen_Operands R -> (Part < UF St)%nat ->
     is_Some (PerPartOutput St !! (VPValue_id Op, Part))) ->
  exists St' new,
    VPWidenRecipe_execute R St = Ok (tt, St') /\
    Emitted (IR St') = Emitted (IR St) ++ new /\
    forall Part, (Part < UF St)%nat ->
      exists Ops V,
        Forall2 (fun Op A => PerPartOutput St !! (VPValue_id Op, Part) = Some A)
          (Widen_Operands R) Ops /\
        PerPartOutput St' !! (VPValue_id (Widen_self R), Part) = Some V /\
        match NAryFold (Folder (Builder St)) (getOpcode Inst) Ops with
        | Some C => V = C
        | None =>
            exists id,
              NAryInst (getOpcode Inst) Ops id = Some V /\
              (InsertPt (Builder St), V) ∈ new /\
              InstFlags (IR St') !! id = Some (widenedFlags R Inst St)
        end /\
        forall VecOp, dyn_cast_Instruction V = Some VecOp ->
          exists flags,
            InstFlags (IR St') !! VecOp = Some flags /\
            flags = widenedFlags R Inst St /\
            (VPValue_id (Widen_self R) ∈ MayGeneratePoisonRecipes St ->
             hasPoisonGeneratingFlags flags = false) /\
            (VPValue_id (Widen_self R) ∉ MayGeneratePoisonRecipes St ->
             flags = getIRFlags Inst).
Proof.
  intros Hund Har Hops.
  set (self := VPValue_id (Widen_self R)).
  set (St0 := withDebugLocation (getDebugLoc Inst) St).
  set (F := Folder (Builder St)).
  set (ip := InsertPt (Builder St)).
  set (wf := widenedFlags R Inst St).
  destruct (for_range_inv
              (fun p S0 =>
                 MayGeneratePoisonRecipes S0 = MayGeneratePoisonRecipes St /\
                 Builder S0 = Builder St0 /\
                 (forall k, (forall q, (q < p)%nat -> k <> (self, q)) ->
                    PerPartOutput S0 !! k = PerPartOutput St !! k) /\
                 exists new,
                   Emitted (IR S0) = Emitted (IR St) ++ new /\
                   forall q, (q < p)%nat ->
                     exists Ops V,
                       Forall2 (fun Op A =>
                                  PerPartOutput St !! (VPValue_id Op, q) = Some A)
                         (Widen_Operands R) Ops /\
                       PerPartOutput S0 !! (self, q) = Some V /\
                       match NAryFold F (getOpcode Inst) Ops with
                       | Some C => V = C
                       | None =>
                           exists id, NAryInst (getOpcode Inst) Ops id = Some V /\
                                      (ip, V) ∈ new
                       end /\
                       forall id, dyn_cast_Instruction V = Some id ->
                         InstFlags (IR S0) !! id = Some wf)
              (VPWidenRecipe_widenArith R Inst) (UF St) 0 St0)
    as (St' & Hloop & _ & _ & _ & new & Hnew & Hall).
  { split; [reflexivity|]. split; [reflexivity|]. split; [intros k _; reflexivity|].
    exists []. split; [by rewrite app_nil_r|]. intros q Hq. lia. }
  { intros p S0 Hp (HsetI & HBI & Hframe & newI & HnewI & HallI).
    assert (Hkey : forall Op, PerPartOutput S0 !! (VPValue_id Op, p)
                              = PerPartOutput St !! (VPValue_id Op, p)).
    { intros Op. apply Hframe. intros q Hq [= _ ->]. lia. }
    destruct (widenArith_part_value R Inst p S0 Har)
      as (Ops & V & S1 & Hrun & Hvals & Hcache & Hset1 & HB1 & Hval & Hfl & Hoth).
    { intros Op HOp. rewrite Hkey. apply Hops; [exact HOp | lia]. }
    assert (Hw : widenedFlags R Inst S0 = wf)
      by (unfold wf, widenedFlags; by rewrite HsetI).
    assert (HFI : Folder (Builder S0) = F) by (by rewrite HBI).
    assert (HipI : InsertPt (Builder S0) = ip) by (by rewrite HBI).
    rewrite HFI, HipI in Hval.
    exists S1. split; [exact Hrun|]. split; [congruence|]. split; [congruence|]. split.
    - intros k Hk. rewrite Hcache.
      rewrite lookup_insert_ne by (intros <-; apply (Hk p); [lia|reflexivity]).
      apply Hframe. intros q Hq. apply Hk. lia.
    - exists (newI ++ match NAryFold F (getOpcode Inst) Ops with
                      | Some _ => []
                      | None => [(ip, V)]
                      end).
      split.
      + destruct (NAryFold F (getOpcode Inst) Ops); destruct Hval as [_ ->];
          rewrite HnewI; [by rewrite app_nil_r|by rewrite app_assoc].
      + intros q Hq. destruct (decide (q = p)) as [->|Hne].
        * exists Ops, V. split.
          { eapply Forall2_impl; [exact Hvals|]. intros Op A HA. simpl in HA.
            by rewrite <- Hkey. }
          split; [rewrite Hcache; apply lookup_insert_eq|]. split.
          { destruct (NAryFold F (getOpcode Inst) Ops); [tauto|].
            exists (NextId (IR S0)). split; [tauto|].
            rewrite elem_of_app, elem_of_cons. right. by left. }
          intros id Hid. rewrite <- Hw. by apply Hfl.
        * destruct (HallI q ltac:(lia)) as (Opsq & Vq & HOq & HVq & Hmq & Hflq).
          exists Opsq, Vq. split; [exact HOq|]. split.
          { rewrite Hcache, lookup_insert_ne by (intros [= ?]; lia). exact HVq. }
          split.
          { destruct (NAryFold F (getOpcode Inst) Opsq); [exact Hmq|].
            destruct Hmq as (id & Hi & Hin). exists id. split; [exact Hi|].
            rewrite elem_of_app. by left. }
          intros id Hid.
          destruct (decide (dyn_cast_Instruction V = Some id)) as [Heq|Hneq].
          { rewrite <- Hw. by apply Hfl. }
          { rewrite (Hoth id Hneq). by apply Hflq. } }
  exists St', new. split; [|split; [exact Hnew|]].
  - unfold VPWidenRecipe_execute. rewrite Hund. simpl.
    destruct (getOpcode Inst) as [o|o|o| | | | | | | | | | |]; try discriminate;
      unfold bind, State_setDebugLocFromInst, Builder_SetCurrentDebugLocation,
        modify, gets; fold St0; exact Hloop.
  - intros Part HPart. destruct (Hall Part HPart) as (Ops & V & HO & HV & Hm & Hfl).
    exists Ops, V. split; [exact HO|]. split; [exact HV|]. split.
    + destruct (NAryFold F (getOpcode Inst) Ops); [exact Hm|].
      destruct Hm as (id & Hi & Hin). exists id. split; [exact Hi|]. split; [exact Hin|].
      apply Hfl. revert Hi. unfold NAryInst.
      destruct (getOpcode Inst) as [o|o|o| | | | | | | | | | |]; try discriminate.
      * destruct Ops as [|a [|b [|? ?]]]; try discriminate. by intros [= <-].
      * destruct Ops as [|a [|? ?]]; try discriminate. by intros [= <-].
    + intros VecOp Hdyn.
      exists wf. split; [by apply Hfl|]. split; [reflexivity|].
      unfold wf, widenedFlags. split; intros Hin.
      * rewrite bool_decide_eq_true_2 by exact Hin. apply dropPoisonGeneratingFlags_clears.
      * rewrite bool_decide_eq_false_2 by exact Hin. reflexivity.
Qed.

Lemma widened_arithmetic_poison_flags_witness :
  let i32 := IntegerTy 32 in
  let Inst := mkOrigInstruction (Instruction.Binary Instruction.Add)
                (mkIRFlags true true false FMF_none) ICMP_EQ i32 0 false false false in
  let R := mkVPWidenRecipe (mkVPValue 3 (Some 3%nat) None)
             [mkVPValue 1 (Some 1%nat) None; mkVPValue 2 (Some 2%nat) None]
             (Some (UInstruction Inst)) in
  let St := mkVPTransformState (mkElementCount 1 false) 2 None
              (<[(1%nat, 0%nat) := Argument 0 i32]>
                 (<[(1%nat, 1%nat) := Argument 1 i32]>
                    (<[(2%nat, 0%nat) := Argument 2 i32]>
                       {[ (2%nat, 1%nat) := Argument 3 i32 ]})))
              ∅ {[ 3%nat ]}
              (mkIRBuilderBase (IP_at 0) FMF_none 0 NoFolder)
              (mkIRStore 0 [] ∅ ∅ ∅ ∅ ∅)
              (mkCFGState 0 ∅ (fun _ => 0%nat)) 0 in
  exists St' new,
    VPWidenRecipe_execute R St = Ok (tt, St') /\
    Emitted (IR St') = new /\
    forall Part, (Part < 2)%nat ->
      exists Ops V,
        Forall2 (fun Op A => PerPartOutput St !! (VPValue_id Op, Part) = Some A)
          (Widen_Operands R) Ops /\
        PerPartOutput St' !! (3%nat, Part) = Some V /\
        (exists id,
           NAryInst (Instruction.Binary Instruction.Add) Ops id = Some V /\
           (IP_at 0, V) ∈ new /\
           InstFlags (IR St') !! id = Some (mkIRFlags false false false FMF_none)) /\
        forall VecOp, dyn_cast_Instruction V = Some VecOp ->
          exists flags,
            InstFlags (IR St') !! VecOp = Some flags /\
            flags = widenedFlags R Inst St /\
            (3%nat ∈ MayGeneratePoisonRecipes St ->
             hasPoisonGeneratingFlags flags = false) /\
            (3%nat ∉ MayGeneratePoisonRecipes St -> flags = getIRFlags Inst).
Proof.
  intros i32 Inst R St.
  destruct (widened_arithmetic_poison_flags R St Inst) as (St' & new & Hrun & Hnew & Hall).
  - reflexivity.
  - reflexivity.
  - intros Op Part HOp HPart. simpl in HPart.
    assert (Part = 0 \/ Part = 1)%nat as [-> | ->] by lia;
      set_unfold; destruct HOp as [-> | [-> | []]]; eexists; reflexivity.
  - exists St', new. split; [exact Hrun|]. split; [exact Hnew|].
    intros Part HPart. destruct (Hall Part HPart) as (Ops & V & HO & HV & Hm & Hfl).
    exists Ops, V. split; [exact HO|]. split; [exact HV|]. split; [|exact Hfl].
    assert (HNF : NAryFold NoFolder (getOpcode Inst) Ops = None).
    { simpl. by destruct Ops as [|a [|b [|? ?]]]. }
    change (Folder (Builder St)) with NoFolder in Hm. rewrite HNF in Hm.
    exact Hm.
Defined.


(** *** The reduction phi *)

Lemma createPhi_loop (R : VPReductionPHIRecipe) (VecTy : Ty) (HeaderBB n : nat)
  (Sa : VPTransformState) :
  exists Sb,
    for_range 0 n (VPReductionPHIRecipe_createPhi R VecTy HeaderBB) Sa = Ok (tt, Sb) /\
    Builder Sb = Builder Sa /\ CFG Sb = CFG Sa /\ VF Sb = VF Sa /\
    forall Part, (Part < n)%nat ->
      PerPartOutput Sb !! (VPValue_id (RedPHI_self R), Part)
        = Some (PHINode (NextId (IR Sa) + Part) VecTy) /\
      Incoming (IR Sb) !! (NextId (IR Sa) + Part)%nat = Some [].
Proof.
  set (self := VPValue_id (RedPHI_self R)). set (n0 := NextId (IR Sa)).
  destruct (for_range_inv
              (fun p S0 =>
                 NextId (IR S0) = (n0 + p)%nat /\
                 Builder S0 = Builder Sa /\ CFG S0 = CFG Sa /\ VF S0 = VF Sa /\
                 forall q, (q < p)%nat ->
                   PerPartOutput S0 !! (self, q) = Some (PHINode (n0 + q) VecTy) /\
                   Incoming (IR S0) !! (n0 + q)%nat = Some [])
              (VPReductionPHIRecipe_createPhi R VecTy HeaderBB) n 0 Sa)
    as (Sb & Hrun & _ & HB & HC & HV & Hall).
  { repeat split; auto; unfold n0; lia. }
  { intros p S0 _ (Hn & HB & HC & HV & Hall).
    eexists. split; [reflexivity|]. simpl. rewrite Hn.
    split; [lia|]. split; [exact HB|]. split; [exact HC|]. split; [exact HV|].
    intros q Hq. split.
    - destruct (decide (q = p)) as [->|Hne].
      + apply lookup_insert_eq.
      + rewrite lookup_insert_ne by congruence. apply Hall. lia.
    - destruct (decide (q = p)) as [->|Hne].
      + apply lookup_insert_eq.
      + rewrite lookup_insert_ne by lia. apply Hall. lia. }
  exists Sb. auto.
Qed.

Lemma seedPhi_loop (R : VPReductionPHIRecipe) (StartV Iden : Value)
  (VectorPH n n0 : nat) (tys : nat -> Ty) (Sc : VPTransformState) :
  (forall Part, (Part < n)%nat ->
     PerPartOutput Sc !! (VPValue_id (RedPHI_self R), Part)
       = Some (PHINode (n0 + Part) (tys Part)) /\
     Incoming (IR Sc) !! (n0 + Part)%nat = Some []) ->
  exists St',
    for_range 0 n (VPReductionPHIRecipe_seedPhi R StartV Iden VectorPH) Sc
      = Ok (tt, St') /\
    PerPartOutput St' = PerPartOutput Sc /\
    forall Part, (Part < n)%nat ->
      Incoming (IR St') !! (n0 + Part)%nat
        = Some [(seedOf StartV Iden Part, VectorPH)].
Proof.
  intros Hphis. set (self := VPValue_id (RedPHI_self R)).
  destruct (for_range_inv
              (fun p S0 =>
                 PerPartOutput S0 = PerPartOutput Sc /\
                 (forall q, (q < p)%nat -> (q < n)%nat ->
                    Incoming (IR S0) !! (n0 + q)%nat
                      = Some [(seedOf StartV Iden q, VectorPH)]) /\
                 (forall q, (p <= q < n)%nat ->
                    Incoming (IR S0) !! (n0 + q)%nat = Some []))
              (VPReductionPHIRecipe_seedPhi R StartV Iden VectorPH) n 0 Sc)
    as (St' & Hrun & Hcache & Hdone & _).
  { split; [reflexivity|]. split; [intros q Hq; lia|].
    intros q Hq. apply Hphis. lia. }
  { intros p S0 Hp (Hcache & Hdone & Htodo).
    destruct (Hphis p ltac:(lia)) as [Hphi _].
    unfold VPReductionPHIRecipe_seedPhi, bind, State_get. rewrite Hcache, Hphi. simpl. eexists. split; [reflexivity|]. simpl.
    split; [exact Hcache|]. split.
    - intros q Hq Hqn. destruct (decide (q = p)) as [->|Hne].
      + rewrite lookup_insert_eq, (Htodo p) by lia. reflexivity.
      + rewrite lookup_insert_ne by lia. apply Hdone; lia.
    - intros q Hq. rewrite lookup_insert_ne by lia. apply Htodo. lia. }
  exists St'. split; [exact Hrun|]. split; [exact Hcache|].
  intros Part HPart. apply Hdone; lia.
Qed.

Lemma CreateInsertElement_spec (B : IRBuilderBase) (vec elt idx : Value)
  (St : VPTransformState) :
  FolderSound (Folder B) ->
  exists V St', CreateInsertElement B vec elt idx St = Ok (V, St') /\
    sameButIR St St' /\
    forall ρ, eval ρ V = eval ρ (InsertElementInst 0 vec elt idx).
Proof.
  intros HF. unfold CreateInsertElement.
  destruct (FoldInsertElement (Folder B) vec elt idx) as [c|] eqn:E.
  - destruct (FoldInsertElement_sound _ HF _ _ _ _ E) as [_ He].
    exists c, St. repeat split; auto using sameButIR_refl.
  - destruct (Builder_Insert_spec B (fun id => InsertElementInst id vec elt idx)
                IRFlags_none St) as (St' & -> & Hs).
    eexists _, St'. repeat split; auto.
Qed.

Lemma InsertPointGuard_run {A : Type} (body : M A) (St St1 : VPTransformState) (a : A) :
  body St = Ok (a, St1) ->
  InsertPointGuard body St =
    Ok (a, withDebugLocation (CurrentDebugLocation (Builder St))
             (withInsertPoint (InsertPt (Builder St)) St1)).
Proof.
  intros H. unfold InsertPointGuard, bind, gets, modify, ret. by rewrite H.
Qed.

Lemma seeds_preserve_cache (R : VPReductionPHIRecipe) (ScalarPHI : bool) (VecTy : Ty)
  (VF0 : ElementCount) (VectorPH : nat) (StartV : Value) :
  preserves PerPartOutput
    (VPReductionPHIRecipe_seeds R ScalarPHI VecTy VF0 VectorPH StartV).
Proof.
  unfold VPReductionPHIRecipe_seeds, InsertPointGuard, Builder_SetInsertPoint,
    CreateVectorSplat, CreateInsertElement, Builder_Insert.
  keeps.
Qed.

Lemma seeds_preserve_incoming (R : VPReductionPHIRecipe) (ScalarPHI : bool)
  (VecTy : Ty) (VF0 : ElementCount) (VectorPH : nat) (StartV : Value) :
  preserves incomingEdges
    (VPReductionPHIRecipe_seeds R ScalarPHI VecTy VF0 VectorPH StartV).
Proof.
  unfold VPReductionPHIRecipe_seeds, InsertPointGuard, Builder_SetInsertPoint,
    CreateVectorSplat, CreateInsertElement, Builder_Insert.
  keeps.
Qed.

Lemma getRecurrenceIdentity_ok (RK : RecurKind) (Tp : Ty) (F : FastMathFlags) :
  RK <> RK_None ->
  isMinMaxRecurrenceKind RK || isSelectCmpRecurrenceKind RK = false ->
  exists Iden0, getRecurrenceIdentity RK Tp F = Ok Iden0.
Proof. destruct RK; simpl; intros Hn Hm; try discriminate; try congruence; eauto. Qed.

(** The seeds: what is returned, and what it denotes. *)
Lemma seeds_spec (R : VPReductionPHIRecipe) (ScalarPHI : bool) (VecTy : Ty)
  (VF0 : ElementCount) (VectorPH : nat) (StartV : Value) (Sb : VPTransformState) :
  FolderSound (Folder (Builder Sb)) ->
  getRecurrenceKind (RdxDesc R) <> RK_None ->
  (ScalarPHI = false -> (0 < getKnownMinValue VF0)%nat) ->
  exists Seed0 Iden Sc,
    VPReductionPHIRecipe_seeds R ScalarPHI VecTy VF0 VectorPH StartV Sb
      = Ok ((Seed0, Iden), Sc) /\
    forall ρ s, eval ρ StartV = Some [s] -> (0 < lanes ρ VF0)%nat ->
      let W := if ScalarPHI then 1%nat else lanes ρ VF0 in
      (isMinMaxRecurrenceKind (getRecurrenceKind (RdxDesc R))
       || isSelectCmpRecurrenceKind (getRecurrenceKind (RdxDesc R)) = true ->
       Iden = Seed0 /\ eval ρ Seed0 = Some (replicate W s)) /\
      (isMinMaxRecurrenceKind (getRecurrenceKind (RdxDesc R))
       || isSelectCmpRecurrenceKind (getRecurrenceKind (RdxDesc R)) = false ->
       forall Iden0 i,
         getRecurrenceIdentity (getRecurrenceKind (RdxDesc R)) (getScalarType VecTy)
           (getFastMathFlags (RdxDesc R)) = Ok Iden0 ->
         eval ρ Iden0 = Some [i] ->
         eval ρ Iden = Some (replicate W i) /\
         eval ρ Seed0 = Some (<[0%nat := s]> (replicate W i))).
Proof.
  intros HF HRK Hpos. unfold VPReductionPHIRecipe_seeds.
  set (RK := getRecurrenceKind (RdxDesc R)) in *.
  destruct (isMinMaxRecurrenceKind RK || isSelectCmpRecurrenceKind RK) eqn:Hmm.
  - destruct ScalarPHI.
    + exists StartV, StartV, Sb. split; [reflexivity|].
      intros ρ s Hs _. simpl. split; [auto|discriminate].
    + set (Sip := withInsertPoint (IP_beforeTerminator VectorPH) Sb).
      destruct (CreateVectorSplat_spec (Builder Sip) VF0 StartV Sip HF (Hpos eq_refl))
        as (V & S1 & Hsplat & _ & _ & He).
      eexists V, V, _. split.
      * apply InsertPointGuard_run.
        unfold bind, Builder_SetInsertPoint, modify, gets, ret. fold Sip.
        rewrite Hsplat. reflexivity.
      * intros ρ s Hs _. simpl. split; [|discriminate]. intros _.
        split; [reflexivity|]. rewrite He. simpl. by rewrite Hs.
  - destruct (getRecurrenceIdentity_ok RK (getScalarType VecTy)
                (getFastMathFlags (RdxDesc R)) HRK Hmm) as (Iden0 & HI0).
    unfold bind at 1. unfold liftResult. rewrite HI0. simpl.
    destruct ScalarPHI; simpl.
    + exists StartV, Iden0, Sb. split; [reflexivity|].
      intros ρ s Hs _. split; [discriminate|]. intros _ I0 i HI Hi.
      injection HI as <-. by rewrite Hi, Hs.
    + destruct (CreateVectorSplat_spec (Builder Sb) VF0 Iden0 Sb HF (Hpos eq_refl))
        as (Iden & S1 & Hsplat & Hs1 & _ & HeI).
      set (Sip := withInsertPoint (IP_beforeTerminator VectorPH) S1).
      assert (HF1 : FolderSound (Folder (Builder Sip))).
      { unfold Sip. rewrite Hs1. exact HF. }
      destruct (CreateInsertElement_spec (Builder Sip) Iden StartV (getInt32 0) Sip HF1)
        as (Seed0 & S2 & Hins & _ & HeS).
      eexists Seed0, Iden, _. split.
      * unfold bind at 1, gets. unfold bind at 1. rewrite Hsplat.
        apply InsertPointGuard_run.
        unfold bind, Builder_SetInsertPoint, modify, gets, ret. fold Sip.
        rewrite Hins. reflexivity.
      * intros ρ s Hs HW. split; [discriminate|]. intros _ I0 i HI Hi.
        injection HI as <-. rewrite HeS, HeI. simpl. rewrite HeI. simpl.
        rewrite Hi, Hs, wrap_0. simpl. rewrite length_replicate.
        replace (0 <? Z.of_nat (lanes ρ VF0)) with true
          by (symmetry; apply Z.ltb_lt; lia).
        auto.
Qed.

Lemma sumZ_app (l1 l2 : list Z) : sumZ (l1 ++ l2) = sumZ l1 + sumZ l2.
Proof. unfold sumZ. induction l1 as [|x l1 IH]; simpl; lia. Qed.

Lemma sumZ_replicate_0 (n : nat) : sumZ (replicate n 0) = 0.
Proof. unfold sumZ. induction n as [|n IH]; simpl; lia. Qed.

Lemma sumZ_start_in_lane_0 (n : nat) (s : Z) :
  (0 < n)%nat -> sumZ (<[0%nat := s]> (replicate n 0)) = s.
Proof.
  destruct n as [|n]; [lia|]. intros _. simpl.
  change (s + sumZ (replicate n 0) = s). rewrite sumZ_replicate_0. lia.
Qed.

Lemma sumZ_flat_map_zero (f : nat -> list Z) (lo n : nat) :
  (forall q, (lo <= q < lo + n)%nat -> sumZ (f q) = 0) ->
  sumZ (flat_map f (seq lo n)) = 0.
Proof.
  revert lo. induction n as [|n IH]; intros lo Hz; simpl; [reflexivity|].
  rewrite sumZ_app, Hz by lia. rewrite IH; [lia|]. intros q Hq. apply Hz. lia.
Qed.

(** The seeds, as the emitter's operations on the start value and the
    identity: for every recurrence kind, whatever the type. *)
Lemma seeds_shape (R : VPReductionPHIRecipe) (ScalarPHI : bool) (VecTy : Ty)
  (VF0 : ElementCount) (VectorPH : nat) (StartV : Value) (Sb Sc : VPTransformState)
  (Seed0 Iden : Value) :
  VPReductionPHIRecipe_seeds R ScalarPHI VecTy VF0 VectorPH StartV Sb
    = Ok ((Seed0, Iden), Sc) ->
  let RK := getRecurrenceKind (RdxDesc R) in
  let F := Folder (Builder Sb) in
  (isMinMaxRecurrenceKind RK || isSelectCmpRecurrenceKind RK = true ->
   Iden = Seed0 /\
   if ScalarPHI then Seed0 = StartV else splatOf F VF0 StartV Seed0) /\
  (isMinMaxRecurrenceKind RK || isSelectCmpRecurrenceKind RK = false ->
   forall Iden0,
     getRecurrenceIdentity RK (getScalarType VecTy) (getFastMathFlags (RdxDesc R))
       = Ok Iden0 ->
     if ScalarPHI then Seed0 = StartV /\ Iden = Iden0
     else splatOf F VF0 Iden0 Iden /\ insertOf F Iden StartV (getInt32 0) Seed0).
Proof.
  intros Hrun RK F. unfold VPReductionPHIRecipe_seeds in Hrun. fold RK in Hrun.
  unfold splatOf, insertOf.
  destruct (isMinMaxRecurrenceKind RK || isSelectCmpRecurrenceKind RK) eqn:Hmm.
  - split; [|discriminate]. intros _. destruct ScalarPHI.
    + injection Hrun as <- <- _. auto.
    + unfold InsertPointGuard, Builder_SetInsertPoint, CreateVectorSplat,
        Builder_Insert, InsertAt in Hrun.
      unfold bind, gets, modify, ret, assert in Hrun. simpl in Hrun.
      destruct (negb (getKnownMinValue VF0 =? 0)%nat); [|discriminate].
      fold F in Hrun. destruct (FoldVectorSplat F VF0 StartV) as [C|];
        simpl in Hrun; injection Hrun as <- <- _; eauto.
  - split; [discriminate|]. intros _ Iden0 HI0.
    unfold bind at 1 in Hrun. unfold liftResult in Hrun. rewrite HI0 in Hrun.
    simpl in Hrun. destruct ScalarPHI; simpl in Hrun.
    + injection Hrun as <- <- _. auto.
    + unfold InsertPointGuard, Builder_SetInsertPoint, CreateVectorSplat,
        CreateInsertElement, Builder_Insert, InsertAt in Hrun.
      unfold bind, gets, modify, ret, assert in Hrun. simpl in Hrun.
      destruct (negb (getKnownMinValue VF0 =? 0)%nat); [|discriminate].
      fold F in Hrun. destruct (FoldVectorSplat F VF0 Iden0) as [C|];
        simpl in Hrun; fold F in Hrun.
      * destruct (FoldInsertElement F C StartV (getInt32 0)) as [D|] eqn:HD;
          simpl in Hrun; injection Hrun as <- <- _; rewrite HD; eauto.
      * match type of Hrun with
        | context [FoldInsertElement F ?vec StartV (getInt32 0)] =>
            destruct (FoldInsertElement F vec StartV (getInt32 0)) as [D|] eqn:HD
        end; simpl in Hrun; injection Hrun as <- <- _;
          (split; [eauto|]); rewrite HD; eauto.
Qed.

(** C3. Lowering a reduction phi whose start value is a live-in, over at
    least one stream, succeeds.
    It creates one placeholder for every stream (a single one for an ordered
    reduction), each with exactly one incoming edge, from the preheader:
    stream 0's carries [Seed0], every other stream's carries [Iden]. For a
    min/max or select-compare recurrence both are the start value itself,
    broadcast at vector width. For any other kind, integer or
    floating-point, [Iden] is the identity of the recurrence kind, broadcast
    at vector width, and [Seed0] is the start value, at vector width
    inserted at lane 0 of the identity vector: they are these very
    operations of the emitter, and for the integer kinds they denote the
    start value and the identity lane by lane. For an additive reduction the
    lanes of all seeds sum up to the start value. *)
Theorem reduction_phi_seeds (R : VPReductionPHIRecipe) (St : VPTransformState)
  (PN : OrigInstruction) (StartVPV : VPValue) (StartV : Value) :
  RedPHI_UnderlyingValue R = Some (UInstruction PN) ->
  getOpcode PN = Instruction.PHI ->
  CurrentVectorLoopHeader St = PrevBB (CFG St) ->
  RedPHI_StartValue R = Some StartVPV ->
  VPValue_getDef StartVPV = None ->
  VPValue_UnderlyingVal StartVPV = Some StartV ->
  getRecurrenceKind (RdxDesc R) <> RK_None ->
  FolderSound (Folder (Builder St)) ->
  (isScalarPHI R St = false -> (0 < getKnownMinValue (VF St))%nat) ->
  (0 < UF St)%nat ->
  exists St' n0 Seed0 Iden,
    VPReductionPHIRecipe_execute R St = Ok (tt, St') /\
    (forall Part, (Part < LastPartForNewPhi R St)%nat ->
       PerPartOutput St' !! (VPValue_id (RedPHI_self R), Part)
         = Some (PHINode (n0 + Part) (reductionVecTy R PN St)) /\
       Incoming (IR St') !! (n0 + Part)%nat
         = Some [(seedOf Seed0 Iden Part,
                  getPreheaderBBFor (CFG St) (VPValue_id (RedPHI_self R)))]) /\
    (let RK := getRecurrenceKind (RdxDesc R) in
     let F := Folder (Builder St) in
     (isMinMaxRecurrenceKind RK || isSelectCmpRecurrenceKind RK = true ->
      Iden = Seed0 /\
      if isScalarPHI R St then Seed0 = StartV
      else splatOf F (VF St) StartV Seed0) /\
     (isMinMaxRecurrenceKind RK || isSelectCmpRecurrenceKind RK = false ->
      exists Iden0,
        getRecurrenceIdentity RK (getScalarType (reductionVecTy R PN St))
          (getFastMathFlags (RdxDesc R)) = Ok Iden0 /\
        if isScalarPHI R St then Seed0 = StartV /\ Iden = Iden0
        else splatOf F (VF St) Iden0 Iden /\
             insertOf F Iden StartV (getInt32 0) Seed0)) /\
    (forall ρ s, eval ρ StartV = Some [s] -> (0 < lanes ρ (VF St))%nat ->
       let W := if isScalarPHI R St then 1%nat else lanes ρ (VF St) in
       let RK := getRecurrenceKind (RdxDesc R) in
       (isMinMaxRecurrenceKind RK || isSelectCmpRecurrenceKind RK = true ->
        Iden = Seed0 /\ eval ρ Seed0 = Some (replicate W s)) /\
       (isMinMaxRecurrenceKind RK || isSelectCmpRecurrenceKind RK = false ->
        forall Iden0 i,
          getRecurrenceIdentity RK (getScalarType (reductionVecTy R PN St))
            (getFastMathFlags (RdxDesc R)) = Ok Iden0 ->
          eval ρ Iden0 = Some [i] ->
          eval ρ Iden = Some (replicate W i) /\
          eval ρ Seed0 = Some (<[0%nat := s]> (replicate W i))) /\
       (RK = RK_Add -> (0 < LastPartForNewPhi R St)%nat ->
        sumZ (flat_map (seedLanes ρ Seed0 Iden) (seq 0 (LastPartForNewPhi R St))) = s)).
Proof.
  intros Hund Hphi Hhdr Hstart Hdef Huv HRK HF Hpos HUF.
  set (self := VPValue_id (RedPHI_self R)).
  set (PH := getPreheaderBBFor (CFG St) self).
  destruct (createPhi_loop R (reductionVecTy R PN St) (PrevBB (CFG St))
              (LastPartForNewPhi R St) St)
    as (Sb & Hloop1 & HB & HC & HV & Hphis).
  destruct (seeds_spec R (isScalarPHI R St) (reductionVecTy R PN St) (VF St) PH StartV Sb)
    as (Seed0 & Iden & Sc & Hseeds & Hsem); [by rewrite HB | exact HRK | exact Hpos |].
  pose proof (seeds_preserve_cache _ _ _ _ _ _ Sb _ Sc Hseeds) as Hcache_c.
  pose proof (seeds_preserve_incoming _ _ _ _ _ _ Sb _ Sc Hseeds) as Hinc_c.
  pose proof (seeds_shape _ _ _ _ _ _ Sb Sc Seed0 Iden Hseeds) as Hshape.
  rewrite HB in Hshape. simpl in Hshape.
  unfold incomingEdges in Hinc_c.
  destruct (seedPhi_loop R Seed0 Iden PH (LastPartForNewPhi R St) (NextId (IR St))
              (fun _ => reductionVecTy R PN St) Sc)
    as (St' & Hloop2 & Hcache' & Hinc').
  { intros Part HPart. destruct (Hphis Part HPart) as [Hc Hi].
    rewrite Hcache_c, Hinc_c. auto. }
  exists St', (NextId (IR St)), Seed0, Iden. split; [|split; [|split]].
  - unfold VPReductionPHIRecipe_execute.
    unfold LastPartForNewPhi, reductionVecTy, isScalarPHI in *.
    unfold bind, liftResult, gets, assert, ret, VPValue_getLiveInIRValue.
    rewrite Hund. simpl. rewrite Hphi, Hhdr, Nat.eqb_refl. rewrite Hloop1.
    rewrite HC, Hstart, Hdef, Huv. simpl. fold self. fold PH.
    rewrite Hseeds. exact Hloop2.
  - intros Part HPart. destruct (Hphis Part HPart) as [Hc _].
    split; [|by apply Hinc']. rewrite Hcache', Hcache_c. exact Hc.
  - destruct Hshape as [Hmm Hid]. split; [exact Hmm|]. intros Hk.
    destruct (getRecurrenceIdentity_ok (getRecurrenceKind (RdxDesc R))
                (getScalarType (reductionVecTy R PN St))
                (getFastMathFlags (RdxDesc R)) HRK Hk) as (Iden0 & HI0).
    exists Iden0. split; [exact HI0|]. exact (Hid Hk Iden0 HI0).
  - intros ρ s Hs HW W RK. destruct (Hsem ρ s Hs HW) as [Hmm Hid].
    split; [exact Hmm|]. split; [exact Hid|].
    intros HAdd HLast.
    assert (Hmmf : isMinMaxRecurrenceKind RK || isSelectCmpRecurrenceKind RK = false)
      by (by rewrite HAdd).
    destruct (Hid Hmmf (ConstantInt (typeBits (getScalarType (reductionVecTy R PN St))) 0) 0)
      as [HeI HeS].
    { fold RK. rewrite HAdd. reflexivity. }
    { simpl. by rewrite wrap_0. }
    destruct (LastPartForNewPhi R St) as [|n]; [lia|]. simpl.
    rewrite sumZ_app. unfold seedLanes at 1. unfold seedOf at 1.
    change (Nat.eqb 0 0) with true. cbv iota. rewrite HeS. simpl.
    rewrite sumZ_start_in_lane_0.
    2:{ fold W. subst W. destruct (isScalarPHI R St); lia. }
    rewrite sumZ_flat_map_zero; [lia|].
    intros q Hq. unfold seedLanes, seedOf.
    destruct (Nat.eqb_spec q 0); [lia|]. rewrite HeI. simpl. apply sumZ_replicate_0.
Qed.

Lemma reduction_phi_seeds_witness :
  let StartV := ConstantInt 32 10 in
  let PN := mkOrigInstruction Instruction.PHI IRFlags_none ICMP_EQ (IntegerTy 32)
              0 false false false in
  let R := mkVPReductionPHIRecipe (mkVPValue 5 (Some 5%nat) None)
             (Some (UInstruction PN)) (Some (mkVPValue 1 None (Some StartV)))
             (mkRecurrenceDescriptor RK_Add FMF_none) false false in
  let St := mkVPTransformState (mkElementCount 4 false) 2 None ∅ ∅ ∅
              (mkIRBuilderBase (IP_at 0) FMF_none 0 NoFolder)
              (mkIRStore 0 [] ∅ ∅ ∅ ∅ ∅)
              (mkCFGState 0 ∅ (fun _ => 7%nat)) 0 in
  exists St' n0 Seed0 Iden,
    VPReductionPHIRecipe_execute R St = Ok (tt, St') /\
    (forall Part, (Part < 2)%nat ->
       PerPartOutput St' !! (5%nat, Part)
         = Some (PHINode (n0 + Part) (VectorTy (IntegerTy 32) (VF St))) /\
       Incoming (IR St') !! (n0 + Part)%nat = Some [(seedOf Seed0 Iden Part, 7%nat)]) /\
    (exists idI idS,
       Iden = VectorSplat idI (VF St) (ConstantInt 32 0) /\
       Seed0 = InsertElementInst idS Iden StartV (getInt32 0)) /\
    (forall ρ,
       eval ρ Iden = Some (replicate 4 0) /\
       eval ρ Seed0 = Some (<[0%nat := 10]> (replicate 4 0)) /\
       sumZ (flat_map (seedLanes ρ Seed0 Iden) (seq 0 2)) = 10).
Proof.
  intros StartV PN R St.
  destruct (reduction_phi_seeds R St PN (mkVPValue 1 None (Some StartV)) StartV)
    as (St' & n0 & Seed0 & Iden & Hrun & Hphis & Hshape & Hsem).
  - reflexivity.
  - reflexivity.
  - reflexivity.
  - reflexivity.
  - reflexivity.
  - reflexivity.
  - simpl. discriminate.
  - exact NoFolder_sound.
  - intros _. simpl. lia.
  - simpl. lia.
  - exists St', n0, Seed0, Iden. split; [exact Hrun|]. split; [exact Hphis|]. split.
    + destruct Hshape as [_ Hid]. destruct (Hid eq_refl) as (Iden0 & HI0 & HI & HS).
      injection HI0 as <-. unfold splatOf, insertOf in HI, HS. simpl in HI, HS.
      destruct HI as [idI HI]. destruct HS as [idS HS]. eauto.
    + intros ρ.
      assert (HW : (0 < lanes ρ (VF St))%nat) by (unfold lanes; simpl; lia).
      destruct (Hsem ρ 10 eq_refl HW) as (_ & Hid & Hsum).
      destruct (Hid eq_refl (ConstantInt 32 0) 0 eq_refl eq_refl) as [HeI HeS].
      split; [exact HeI|]. split; [exact HeS|].
      apply Hsum; [reflexivity|unfold LastPartForNewPhi; simpl; lia].
Defined.

(** ** More on block membership *)

Lemma elem_of_iplist_insert (pos x y : nat) (l : list nat) :
  y ∈ iplist_insert pos x l <-> y = x \/ y ∈ l.
Proof.
  induction l as [|z l IH]; simpl.
  - rewrite !elem_of_cons. tauto.
  - destruct (Nat.eqb z pos); rewrite !elem_of_cons; [tauto|]. rewrite IH. tauto.
Qed.

Lemma elem_of_iplist_insertAfter (pos x y : nat) (l : list nat) :
  y ∈ iplist_insertAfter pos x l <-> y = x \/ y ∈ l.
Proof.
  induction l as [|z l IH]; simpl.
  - rewrite !elem_of_cons. tauto.
  - destruct (Nat.eqb z pos); rewrite !elem_of_cons; [tauto|]. rewrite IH. tauto.
Qed.

Lemma NoDup_iplist_insert (pos x : nat) (l : list nat) :
  x ∉ l -> NoDup l -> NoDup (iplist_insert pos x l).
Proof.
  induction l as [|z l IH]; simpl; intros Hx Hnd.
  - apply NoDup_singleton.
  - apply not_elem_of_cons in Hx as [Hne Hx]. apply NoDup_cons in Hnd as [Hz Hnd].
    destruct (Nat.eqb z pos).
    + apply NoDup_cons. split; [|by apply NoDup_cons].
      rewrite elem_of_cons. intros [?|?]; [congruence|done].
    + apply NoDup_cons. split; [|by apply IH].
      rewrite elem_of_iplist_insert. intros [->|?]; [congruence|done].
Qed.

Lemma NoDup_iplist_insertAfter (pos x : nat) (l : list nat) :
  x ∉ l -> NoDup l -> NoDup (iplist_insertAfter pos x l).
Proof.
  induction l as [|z l IH]; simpl; intros Hx Hnd.
  - apply NoDup_singleton.
  - apply not_elem_of_cons in Hx as [Hne Hx]. apply NoDup_cons in Hnd as [Hz Hnd].
    destruct (Nat.eqb z pos).
    + apply NoDup_cons. split; [|by apply NoDup_cons].
      rewrite elem_of_cons. intros [?|?]; [congruence|done].
    + apply NoDup_cons. split; [|by apply IH].
      rewrite elem_of_iplist_insertAfter. intros [->|?]; [congruence|done].
Qed.

Lemma iplist_insert_split (pos x : nat) (l1 l2 : list nat) :
  pos ∉ l1 -> iplist_insert pos x (l1 ++ pos :: l2) = l1 ++ x :: pos :: l2.
Proof.
  induction l1 as [|z l1 IH]; simpl; intros Hp.
  - by rewrite Nat.eqb_refl.
  - apply not_elem_of_cons in Hp as [Hne Hp].
    destruct (Nat.eqb_spec z pos); [congruence|]. by rewrite IH.
Qed.

Lemma iplist_insertAfter_split (pos x : nat) (l1 l2 : list nat) :
  pos ∉ l1 -> iplist_insertAfter pos x (l1 ++ pos :: l2) = l1 ++ pos :: x :: l2.
Proof.
  induction l1 as [|z l1 IH]; simpl; intros Hp.
  - by rewrite Nat.eqb_refl.
  - apply not_elem_of_cons in Hp as [Hne Hp].
    destruct (Nat.eqb_spec z pos); [congruence|]. by rewrite IH.
Qed.

Lemma iplist_remove_split (x : nat) (l1 l2 : list nat) :
  x ∉ l1 -> iplist_remove x (l1 ++ x :: l2) = l1 ++ l2.
Proof.
  induction l1 as [|z l1 IH]; simpl; intros Hp.
  - by rewrite Nat.eqb_refl.
  - apply not_elem_of_cons in Hp as [Hne Hp].
    destruct (Nat.eqb_spec z x); [congruence|]. by rewrite IH.
Qed.

Lemma iplist_remove_absent (x : nat) (l : list nat) :
  x ∉ l -> iplist_remove x l = l.
Proof.
  induction l as [|z l IH]; simpl; intros Hp; [reflexivity|].
  apply not_elem_of_cons in Hp as [Hne Hp].
  destruct (Nat.eqb_spec z x); [congruence|]. by rewrite IH.
Qed.

Lemma elem_of_iplist_remove (x y : nat) (l : list nat) :
  NoDup l -> y ∈ iplist_remove x l <-> y ∈ l /\ y <> x.
Proof.
  induction l as [|z l IH]; simpl; intros Hnd.
  - rewrite elem_of_nil. tauto.
  - apply NoDup_cons in Hnd as [Hz Hnd]. destruct (Nat.eqb_spec z x) as [->|Hne].
    + rewrite elem_of_cons. split; [|intros [[?|?] ?]; [congruence|done]].
      intros Hy. split; [by right|]. by intros ->.
    + rewrite !elem_of_cons, IH by done. split.
      * intros [->|[? ?]]; [split; [by left|done]|split; [by right|done]].
      * intros [[?|?] ?]; [by left|by right].
Qed.

Lemma NoDup_iplist_remove (x : nat) (l : list nat) :
  NoDup l -> NoDup (iplist_remove x l).
Proof.
  induction l as [|z l IH]; simpl; intros Hnd; [done|].
  apply NoDup_cons in Hnd as [Hz Hnd]. destruct (Nat.eqb z x); [done|].
  apply NoDup_cons. split; [|by apply IH].
  rewrite elem_of_iplist_remove by done. tauto.
Qed.

(** X1. In a block whose list is [l1 ++ P :: l2], with [P] not in [l1],
    inserting an unlinked recipe [R] before [P] makes the list
    [l1 ++ R :: P :: l2], inserting it after [P] makes it
    [l1 ++ P :: R :: l2]; [R] gets the block as its parent and every other
    block keeps its list. *)
Theorem insert_places_next_to_position (S : VPlanBlocks) (R P bb : nat)
  (l1 l2 : list nat) :
  Parent S !! R = None ->
  Parent S !! P = Some bb ->
  RecipeList S !! bb = Some (l1 ++ P :: l2) ->
  P ∉ l1 ->
  VPRecipeBase_insertBefore R P S
    = Ok (mkVPlanBlocks (<[bb := l1 ++ R :: P :: l2]> (RecipeList S))
            (<[R := bb]> (Parent S))) /\
  VPRecipeBase_insertAfter R P S
    = Ok (mkVPlanBlocks (<[bb := l1 ++ P :: R :: l2]> (RecipeList S))
            (<[R := bb]> (Parent S))).
Proof.
  intros HR HP Hl Hnot.
  unfold VPRecipeBase_insertBefore, VPRecipeBase_insertAfter, getRecipeList.
  rewrite HR, HP, Hl. simpl.
  by rewrite iplist_insert_split, iplist_insertAfter_split.
Qed.

Lemma insert_places_next_to_position_witness :
  let S := mkVPlanBlocks {[ 0%nat := [10%nat; 11%nat; 12%nat] ]}
             (<[10%nat := 0%nat]> (<[11%nat := 0%nat]> {[ 12%nat := 0%nat ]})) in
  VPRecipeBase_insertBefore 13 11 S
    = Ok (mkVPlanBlocks (<[0%nat := [10; 13; 11; 12]%nat]> (RecipeList S))
            (<[13%nat := 0%nat]> (Parent S))) /\
  VPRecipeBase_insertAfter 13 11 S
    = Ok (mkVPlanBlocks (<[0%nat := [10; 11; 13; 12]%nat]> (RecipeList S))
            (<[13%nat := 0%nat]> (Parent S))).
Proof.
  intros S.
  apply (insert_places_next_to_position S 13 11 0 [10%nat] [12%nat]).
  - reflexivity.
  - reflexivity.
  - reflexivity.
  - intros Hin. apply elem_of_cons in Hin as [Hin|Hin]; [discriminate|].
    by apply elem_of_nil in Hin.
Defined.

(** Linking [R] into block [bb] by any insertion [f] that adds exactly [R]
    keeps a plan well linked. *)
Lemma wellLinked_link (S : VPlanBlocks) (R bb : nat) (f : list nat -> list nat) :
  wellLinked S ->
  Parent S !! R = None ->
  (forall l y, y ∈ f l <-> y = R \/ y ∈ l) ->
  (forall l, R ∉ l -> NoDup l -> NoDup (f l)) ->
  wellLinked (mkVPlanBlocks (<[bb := f (getRecipeList S bb)]> (RecipeList S))
                (<[R := bb]> (Parent S))).
Proof.
  intros [[Hto Hfrom] Hnd] HR Hf Hfnd. unfold getRecipeList.
  assert (HRnot : forall b l, RecipeList S !! b = Some l -> R ∉ l).
  { intros b l Hl Hin. specialize (Hfrom b l R Hl Hin). congruence. }
  split; [split|]; simpl.
  - intros r b Hr. destruct (decide (r = R)) as [->|Hne].
    + rewrite lookup_insert_eq in Hr. injection Hr as <-.
      rewrite lookup_insert_eq. eexists. split; [reflexivity|]. apply Hf. by left.
    + rewrite lookup_insert_ne in Hr by congruence.
      destruct (Hto r b Hr) as (l & Hl & Hin).
      destruct (decide (b = bb)) as [->|Hb].
      * rewrite lookup_insert_eq, Hl. eexists. split; [reflexivity|]. apply Hf. by right.
      * rewrite lookup_insert_ne by congruence. eauto.
  - intros b l r Hl Hin. destruct (decide (b = bb)) as [->|Hb].
    + rewrite lookup_insert_eq in Hl. injection Hl as <-.
      apply Hf in Hin as [->|Hin]; [apply lookup_insert_eq|].
      destruct (RecipeList S !! bb) as [l0|] eqn:E; simpl in Hin; [|set_solver].
      rewrite lookup_insert_ne; [by eapply Hfrom|].
      intros ->. by apply (HRnot bb l0 E).
    + rewrite lookup_insert_ne in Hl by congruence.
      rewrite lookup_insert_ne; [by eapply Hfrom|].
      intros ->. by apply (HRnot b l Hl).
  - intros b l Hl. destruct (decide (b = bb)) as [->|Hb].
    + rewrite lookup_insert_eq in Hl. injection Hl as <-.
      destruct (RecipeList S !! bb) as [l0|] eqn:E; simpl.
      * apply Hfnd; [by eapply HRnot|by eapply Hnd].
      * apply Hfnd; [set_solver|constructor].
    + rewrite lookup_insert_ne in Hl by congruence. by eapply Hnd.
Qed.

Lemma wellLinked_unlink (S : VPlanBlocks) (R bb : nat) :
  wellLinked S ->
  Parent S !! R = Some bb ->
  wellLinked (mkVPlanBlocks
                (<[bb := iplist_remove R (getRecipeList S bb)]> (RecipeList S))
                (delete R (Parent S))).
Proof.
  intros [[Hto Hfrom] Hnd] HR. unfold getRecipeList.
  destruct (Hto R bb HR) as (l0 & Hl0 & HRin). rewrite Hl0. simpl.
  pose proof (Hnd bb l0 Hl0) as Hnd0.
  split; [split|]; simpl.
  - intros r b Hr. apply lookup_delete_Some in Hr as [Hne Hr].
    destruct (Hto r b Hr) as (l & Hl & Hin).
    destruct (decide (b = bb)) as [->|Hb].
    + rewrite lookup_insert_eq. eexists. split; [reflexivity|].
      rewrite Hl0 in Hl. injection Hl as <-.
      apply elem_of_iplist_remove; [done|]. split; [done|congruence].
    + rewrite lookup_insert_ne by congruence. eauto.
  - intros b l r Hl Hin. apply lookup_delete_Some.
    destruct (decide (b = bb)) as [->|Hb].
    + rewrite lookup_insert_eq in Hl. injection Hl as <-.
      apply elem_of_iplist_remove in Hin as [Hin Hne]; [|done].
      split; [congruence|]. by eapply Hfrom.
    + rewrite lookup_insert_ne in Hl by congruence.
      pose proof (Hfrom b l r Hl Hin) as Hp. split; [|done].
      intros ->. congruence.
  - intros b l Hl. destruct (decide (b = bb)) as [->|Hb].
    + rewrite lookup_insert_eq in Hl. injection Hl as <-. by apply NoDup_iplist_remove.
    + rewrite lookup_insert_ne in Hl by congruence. by eapply Hnd.
Qed.

Lemma elem_of_snoc (x y : nat) (l : list nat) : y ∈ l ++ [x] <-> y = x \/ y ∈ l.
Proof. rewrite elem_of_app, elem_of_cons, elem_of_nil. tauto. Qed.

Lemma NoDup_snoc (x : nat) (l : list nat) : x ∉ l -> NoDup l -> NoDup (l ++ [x]).
Proof.
  intros Hx Hnd. apply NoDup_app. split; [done|]. split; [|apply NoDup_singleton].
  intros y Hy Hyx. apply elem_of_cons in Hyx as [->|Hyx]; [done|].
  by apply elem_of_nil in Hyx.
Qed.

(** X2. Every membership operation that returns keeps a well-linked plan
    well linked: both forms of insertBefore, insertAfter, removeFromParent. *)
Theorem membership_keeps_wellLinked (S S' : VPlanBlocks) (R P BB : nat)
  (It : option nat) :
  wellLinked S ->
  VPRecipeBase_insertBefore R P S = Ok S' \/
  VPRecipeBase_insertAfter R P S = Ok S' \/
  VPRecipeBase_insertBefore_at R BB It S = Ok S' \/
  VPRecipeBase_removeFromParent R S = Ok S' ->
  wellLinked S'.
Proof.
  intros Hwl [H | [H | [H | H]]].
  - unfold VPRecipeBase_insertBefore in H.
    destruct (Parent S !! R) eqn:HR; [discriminate|].
    destruct (Parent S !! P) as [bb|] eqn:HP; [|discriminate].
    injection H as <-. apply (wellLinked_link S R bb (iplist_insert P R)); auto.
    + intros l y. apply elem_of_iplist_insert.
    + intros l. apply NoDup_iplist_insert.
  - unfold VPRecipeBase_insertAfter in H.
    destruct (Parent S !! R) eqn:HR; [discriminate|].
    destruct (Parent S !! P) as [bb|] eqn:HP; [|discriminate].
    injection H as <-. apply (wellLinked_link S R bb (iplist_insertAfter P R)); auto.
    + intros l y. apply elem_of_iplist_insertAfter.
    + intros l. apply NoDup_iplist_insertAfter.
  - unfold VPRecipeBase_insertBefore_at in H.
    destruct (Parent S !! R) eqn:HR; [discriminate|].
    destruct It as [i|].
    + destruct (bool_decide (Parent S !! i = Some BB)); [|discriminate].
      injection H as <-. apply (wellLinked_link S R BB (iplist_insert i R)); auto.
      * intros l y. apply elem_of_iplist_insert.
      * intros l. apply NoDup_iplist_insert.
    + injection H as <-. apply (wellLinked_link S R BB (fun l => l ++ [R])); auto.
      * intros l y. apply elem_of_snoc.
      * intros l. apply NoDup_snoc.
  - unfold VPRecipeBase_removeFromParent in H.
    destruct (Parent S !! R) as [bb|] eqn:HR; [|discriminate].
    injection H as <-. by apply wellLinked_unlink.
Qed.

(** A block of three recipes, well linked. *)
Lemma wellLinked_three :
  wellLinked (mkVPlanBlocks {[ 0%nat := [10%nat; 11%nat; 12%nat] ]}
                (<[10%nat := 0%nat]> (<[11%nat := 0%nat]> {[ 12%nat := 0%nat ]}))).
Proof.
  split; [split|].
  - intros r b Hr. exists [10%nat; 11%nat; 12%nat].
    destruct (decide (r = 10%nat)) as [->|H10].
    { vm_compute in Hr. injection Hr as <-. split; [reflexivity|set_solver]. }
    destruct (decide (r = 11%nat)) as [->|H11].
    { vm_compute in Hr. injection Hr as <-. split; [reflexivity|set_solver]. }
    destruct (decide (r = 12%nat)) as [->|H12].
    { vm_compute in Hr. injection Hr as <-. split; [reflexivity|set_solver]. }
    simpl in Hr. rewrite !lookup_insert_ne, lookup_singleton_ne in Hr by congruence.
    discriminate.
  - intros b l r Hl Hin. simpl in Hl.
    apply lookup_singleton_Some in Hl as [<- <-].
    apply elem_of_cons in Hin as [->|Hin]; [reflexivity|].
    apply elem_of_cons in Hin as [->|Hin]; [reflexivity|].
    apply elem_of_cons in Hin as [->|Hin]; [reflexivity|].
    by apply elem_of_nil in Hin.
  - intros b l Hl. simpl in Hl. apply lookup_singleton_Some in Hl as [<- <-].
    apply NoDup_ListNoDup. repeat constructor; simpl; intuition congruence.
Qed.

Lemma membership_keeps_wellLinked_witness :
  let lists : gmap nat (list nat) := {[ 0%nat := [10%nat; 11%nat; 12%nat] ]} in
  let parents : gmap nat nat :=
    <[10%nat := 0%nat]> (<[11%nat := 0%nat]> {[ 12%nat := 0%nat ]}) in
  wellLinked (mkVPlanBlocks (<[0%nat := [10; 13; 11; 12]%nat]> lists)
                (<[13%nat := 0%nat]> parents)) /\
  wellLinked (mkVPlanBlocks (<[0%nat := [10; 11; 13; 12]%nat]> lists)
                (<[13%nat := 0%nat]> parents)) /\
  wellLinked (mkVPlanBlocks (<[0%nat := [10; 11; 13; 12]%nat]> lists)
                (<[13%nat := 0%nat]> parents)) /\
  wellLinked (mkVPlanBlocks (<[1%nat := [13%nat]]> lists)
                (<[13%nat := 1%nat]> parents)) /\
  wellLinked (mkVPlanBlocks (<[0%nat := [10; 12]%nat]> lists)
                (delete 11%nat parents)).
Proof.
  intros lists parents.
  pose proof wellLinked_three as Hwl. fold lists parents in Hwl.
  split; [|split; [|split; [|split]]].
  - apply (membership_keeps_wellLinked (mkVPlanBlocks lists parents) _ 13 11 0 None Hwl).
    left. reflexivity.
  - apply (membership_keeps_wellLinked (mkVPlanBlocks lists parents) _ 13 11 0 None Hwl).
    right. left. reflexivity.
  - apply (membership_keeps_wellLinked (mkVPlanBlocks lists parents) _ 13 11 0
             (Some 12%nat) Hwl).
    right. right. left. reflexivity.
  - apply (membership_keeps_wellLinked (mkVPlanBlocks lists parents) _ 13 11 1 None Hwl).
    right. right. left. reflexivity.
  - apply (membership_keeps_wellLinked (mkVPlanBlocks lists parents) _ 11 11 0 None Hwl).
    right. right. right. reflexivity.
Defined.

(** X3. Unlinking a recipe and linking it back before the recipe that
    followed it (or at the end of the block, if it was the last one)
    restores a well-linked plan exactly. *)
Theorem remove_then_reinsert_restores (S : VPlanBlocks) (R bb : nat)
  (l1 l2 : list nat) :
  wellLinked S ->
  Parent S !! R = Some bb ->
  RecipeList S !! bb = Some (l1 ++ R :: l2) ->
  Result_bind (VPRecipeBase_removeFromParent R S)
    (match l2 with
     | Q :: _ => VPRecipeBase_insertBefore R Q
     | [] => VPRecipeBase_insertBefore_at R bb None
     end)
  = Ok S.
Proof.
  intros [[Hto Hfrom] Hnd] HR Hl.
  pose proof (Hnd bb _ Hl) as Hnd0.
  apply NoDup_app in Hnd0 as (Hnd1 & Hdisj & Hnd2).
  apply NoDup_cons in Hnd2 as [HR2 Hnd2].
  assert (HR1 : R ∉ l1) by (intros Hin; apply (Hdisj R Hin); by left).
  unfold VPRecipeBase_removeFromParent, getRecipeList. rewrite HR, Hl. simpl.
  rewrite iplist_remove_split by done.
  destruct S as [lists parent]; simpl in *.
  destruct l2 as [|Q l2].
  - unfold VPRecipeBase_insertBefore_at, getRecipeList. simpl.
    rewrite lookup_delete_eq, lookup_insert_eq. simpl.
    rewrite insert_insert_eq, app_nil_r, insert_delete_eq.
    rewrite (insert_id lists), (insert_id parent) by done. reflexivity.
  - assert (HQ : Q <> R) by (intros ->; apply HR2; by left).
    assert (HQ1 : Q ∉ l1) by (intros Hin; apply (Hdisj Q Hin); right; by left).
    assert (HQp : parent !! Q = Some bb).
    { eapply Hfrom; [exact Hl|]. set_solver. }
    unfold VPRecipeBase_insertBefore, getRecipeList. simpl.
    rewrite lookup_delete_eq, lookup_delete_ne, HQp, lookup_insert_eq by congruence.
    simpl. rewrite iplist_insert_split by done.
    rewrite insert_insert_eq, insert_delete_eq.
    rewrite (insert_id lists), (insert_id parent) by done. reflexivity.
Qed.

Lemma remove_then_reinsert_restores_witness :
  let S := mkVPlanBlocks {[ 0%nat := [10%nat; 11%nat; 12%nat] ]}
             (<[10%nat := 0%nat]> (<[11%nat := 0%nat]> {[ 12%nat := 0%nat ]})) in
  Result_bind (VPRecipeBase_removeFromParent 11 S) (VPRecipeBase_insertBefore 11 12)
  = Ok S.
Proof.
  intros S.
  apply (remove_then_reinsert_restores S 11 0 [10%nat] [12%nat]).
  - split; [split|].
    + intros r b Hr. exists [10%nat; 11%nat; 12%nat].
      destruct (decide (r = 10%nat)) as [->|H10].
      { vm_compute in Hr. injection Hr as <-. split; [reflexivity|set_solver]. }
      destruct (decide (r = 11%nat)) as [->|H11].
      { vm_compute in Hr. injection Hr as <-. split; [reflexivity|set_solver]. }
      destruct (decide (r = 12%nat)) as [->|H12].
      { vm_compute in Hr. injection Hr as <-. split; [reflexivity|set_solver]. }
      simpl in Hr. rewrite !lookup_insert_ne, lookup_singleton_ne in Hr by congruence.
      discriminate.
    + intros b l r Hl Hin. simpl in Hl.
      apply lookup_singleton_Some in Hl as [<- <-].
      apply elem_of_cons in Hin as [->|Hin]; [reflexivity|].
      apply elem_of_cons in Hin as [->|Hin]; [reflexivity|].
      apply elem_of_cons in Hin as [->|Hin]; [reflexivity|].
      by apply elem_of_nil in Hin.
    + intros b l Hl. simpl in Hl. apply lookup_singleton_Some in Hl as [<- <-].
      apply NoDup_ListNoDup. repeat constructor; simpl; intuition congruence.
  - reflexivity.
  - reflexivity.
Defined.


Lemma wellLinked_absent (S : VPlanBlocks) (R bb : nat) :
  wellLinked S -> Parent S !! R = None -> R ∉ getRecipeList S bb.
Proof.
  intros [[_ Hfrom] _] HR Hin. unfold getRecipeList in Hin.
  destruct (RecipeList S !! bb) as [l|] eqn:E; simpl in Hin.
  - specialize (Hfrom bb l R E Hin). congruence.
  - by apply elem_of_nil in Hin.
Qed.

Lemma wellLinked_present (S : VPlanBlocks) (P bb : nat) :
  wellLinked S -> Parent S !! P = Some bb ->
  exists l1 l2, getRecipeList S bb = l1 ++ P :: l2 /\ P ∉ l1.
Proof.
  intros [[Hto _] _] HP. destruct (Hto P bb HP) as (l & Hl & Hin).
  unfold getRecipeList. rewrite Hl. simpl.
  apply list_elem_of_split_l in Hin as (l1 & l2 & -> & Hnot). eauto.
Qed.

Lemma wellLinked_elsewhere (S : VPlanBlocks) (R b bb : nat) :
  wellLinked S -> Parent S !! R = Some b -> bb <> b -> R ∉ getRecipeList S bb.
Proof.
  intros [[_ Hfrom] _] HR Hne Hin. unfold getRecipeList in Hin.
  destruct (RecipeList S !! bb) as [l|] eqn:E; simpl in Hin.
  - specialize (Hfrom bb l R E Hin). congruence.
  - by apply elem_of_nil in Hin.
Qed.

Lemma iplist_remove_idemp (S : VPlanBlocks) (R bb : nat) :
  wellLinked S ->
  iplist_remove R (iplist_remove R (getRecipeList S bb))
  = iplist_remove R (getRecipeList S bb).
Proof.
  intros [_ Hnd]. apply iplist_remove_absent. unfold getRecipeList.
  destruct (RecipeList S !! bb) as [l|] eqn:E; simpl.
  - rewrite elem_of_iplist_remove by (by eapply Hnd). tauto.
  - apply not_elem_of_nil.
Qed.

(** The state that removeFromParent leaves, and what it keeps of each list. *)
Lemma removeFromParent_lists (S : VPlanBlocks) (R b : nat) :
  wellLinked S -> Parent S !! R = Some b ->
  exists S1, VPRecipeBase_removeFromParent R S = Ok S1 /\
    wellLinked S1 /\
    Parent S1 = delete R (Parent S) /\
    forall bb, getRecipeList S1 bb = iplist_remove R (getRecipeList S bb).
Proof.
  intros Hwl HR. eexists. split; [|split; [|split]].
  - unfold VPRecipeBase_removeFromParent. rewrite HR. reflexivity.
  - by apply wellLinked_unlink.
  - reflexivity.
  - intros bb. unfold getRecipeList at 1. simpl.
    destruct (decide (bb = b)) as [->|Hne].
    + by rewrite lookup_insert_eq.
    + rewrite lookup_insert_ne by congruence.
      symmetry. apply iplist_remove_absent. by eapply wellLinked_elsewhere.
Qed.

Lemma wellLinked_insertAfter (S S' : VPlanBlocks) (R P : nat) :
  wellLinked S -> VPRecipeBase_insertAfter R P S = Ok S' -> wellLinked S'.
Proof.
  intros Hwl H. unfold VPRecipeBase_insertAfter in H.
  destruct (Parent S !! R) eqn:HR; [discriminate|].
  destruct (Parent S !! P) as [bb|] eqn:HP; [|discriminate].
  injection H as <-. apply (wellLinked_link S R bb (iplist_insertAfter P R)); auto.
  - intros l y. apply elem_of_iplist_insertAfter.
  - intros l. apply NoDup_iplist_insertAfter.
Qed.

Lemma wellLinked_insertBefore_at (S S' : VPlanBlocks) (R BB : nat) (It : option nat) :
  wellLinked S -> VPRecipeBase_insertBefore_at R BB It S = Ok S' -> wellLinked S'.
Proof.
  intros Hwl H. unfold VPRecipeBase_insertBefore_at in H.
  destruct (Parent S !! R) eqn:HR; [discriminate|].
  destruct It as [i|].
  - destruct (bool_decide (Parent S !! i = Some BB)); [|discriminate].
    injection H as <-. apply (wellLinked_link S R BB (iplist_insert i R)); auto.
    + intros l y. apply elem_of_iplist_insert.
    + intros l. apply NoDup_iplist_insert.
  - injection H as <-. apply (wellLinked_link S R BB (fun l => l ++ [R])); auto.
    + intros l y. apply elem_of_snoc.
    + intros l. apply NoDup_snoc.
Qed.

(** X4. Moving a linked recipe [R] after another linked recipe [P] returns,
    leaves the plan well linked, puts [R] in [P]'s block immediately after
    [P], and, [R] apart, leaves the sequence of every block as it was. *)
Theorem moveAfter_places_after (S : VPlanBlocks) (R P b1 b2 : nat) :
  wellLinked S ->
  Parent S !! R = Some b1 ->
  Parent S !! P = Some b2 ->
  R <> P ->
  exists S', VPRecipeBase_moveAfter R P S = Ok S' /\
    wellLinked S' /\
    Parent S' = <[R := b2]> (Parent S) /\
    (exists l1 l2, getRecipeList S' b2 = l1 ++ P :: R :: l2) /\
    forall bb, iplist_remove R (getRecipeList S' bb)
               = iplist_remove R (getRecipeList S bb).
Proof.
  intros Hwl HR HP Hne.
  destruct (removeFromParent_lists S R b1 Hwl HR) as (S1 & Hrem & Hwl1 & Hpar1 & Hl1).
  assert (HR1 : Parent S1 !! R = None) by (rewrite Hpar1; apply lookup_delete_eq).
  assert (HP1 : Parent S1 !! P = Some b2).
  { rewrite Hpar1, lookup_delete_ne by congruence. done. }
  destruct (wellLinked_present S1 P b2 Hwl1 HP1) as (l1 & l2 & Hsplit & Hnot).
  unfold VPRecipeBase_moveAfter. rewrite Hrem. simpl.
  set (S' := mkVPlanBlocks
               (<[b2 := iplist_insertAfter P R (getRecipeList S1 b2)]> (RecipeList S1))
               (<[R := b2]> (Parent S1))).
  assert (Hrun : VPRecipeBase_insertAfter R P S1 = Ok S').
  { unfold VPRecipeBase_insertAfter. rewrite HR1, HP1. reflexivity. }
  exists S'. split; [exact Hrun|]. split; [|split; [|split]].
  - by eapply wellLinked_insertAfter.
  - subst S'. simpl. rewrite Hpar1. apply insert_delete_eq.
  - exists l1, l2. subst S'. unfold getRecipeList at 1. simpl.
    rewrite lookup_insert_eq. simpl. rewrite Hsplit.
    by apply iplist_insertAfter_split.
  - intros bb. destruct (decide (bb = b2)) as [->|Hb].
    + subst S'. unfold getRecipeList at 1. simpl. rewrite lookup_insert_eq. simpl.
      rewrite iplist_remove_insertAfter by (by apply wellLinked_absent).
      apply Hl1.
    + transitivity (iplist_remove R (getRecipeList S1 bb)).
      * f_equal. subst S'. unfold getRecipeList. simpl.
        by rewrite lookup_insert_ne by congruence.
      * rewrite Hl1. by apply iplist_remove_idemp.
Qed.

Lemma moveAfter_places_after_witness :
  let S := mkVPlanBlocks {[ 0%nat := [10%nat; 11%nat; 12%nat] ]}
             (<[10%nat := 0%nat]> (<[11%nat := 0%nat]> {[ 12%nat := 0%nat ]})) in
  exists S', VPRecipeBase_moveAfter 10 12 S = Ok S' /\
    wellLinked S' /\
    Parent S' = <[10%nat := 0%nat]> (Parent S) /\
    (exists l1 l2, getRecipeList S' 0 = l1 ++ 12%nat :: 10%nat :: l2) /\
    forall bb, iplist_remove 10 (getRecipeList S' bb)
               = iplist_remove 10 (getRecipeList S bb).
Proof.
  intros S.
  apply (moveAfter_places_after S 10 12 0 0).
  - apply wellLinked_three.
  - reflexivity.
  - reflexivity.
  - lia.
Defined.

(** X5. A recipe cannot be moved next to itself: moveAfter with the recipe
    as its own position, and moveBefore with the iterator at the recipe,
    end in an assertion failure in every plan. *)
Theorem move_next_to_itself_fails (S : VPlanBlocks) (R BB : nat) :
  isAssertionFailure (VPRecipeBase_moveAfter R R S) = true /\
  isAssertionFailure (VPRecipeBase_moveBefore R BB (Some R) S) = true.
Proof.
  unfold VPRecipeBase_moveAfter, VPRecipeBase_moveBefore,
    VPRecipeBase_removeFromParent.
  destruct (Parent S !! R) as [b|] eqn:HR; simpl; [|auto].
  unfold VPRecipeBase_insertAfter, VPRecipeBase_insertBefore_at. simpl.
  rewrite lookup_delete_eq. rewrite bool_decide_eq_false_2 by discriminate.
  auto.
Qed.

(** X6. Moving a linked recipe [R] to the end of block [BB] returns, leaves
    the plan well linked, and makes the list of [BB] its former list without
    [R], followed by [R]; [R] apart, every block keeps its sequence. *)
Theorem moveBefore_end_appends (S : VPlanBlocks) (R b BB : nat) :
  wellLinked S ->
  Parent S !! R = Some b ->
  exists S', VPRecipeBase_moveBefore R BB None S = Ok S' /\
    wellLinked S' /\
    Parent S' = <[R := BB]> (Parent S) /\
    getRecipeList S' BB = iplist_remove R (getRecipeList S BB) ++ [R] /\
    forall bb, bb <> BB ->
      getRecipeList S' bb = iplist_remove R (getRecipeList S bb).
Proof.
  intros Hwl HR.
  destruct (removeFromParent_lists S R b Hwl HR) as (S1 & Hrem & Hwl1 & Hpar1 & Hl1).
  assert (HR1 : Parent S1 !! R = None) by (rewrite Hpar1; apply lookup_delete_eq).
  unfold VPRecipeBase_moveBefore. rewrite Hrem. simpl.
  set (S' := mkVPlanBlocks (<[BB := getRecipeList S1 BB ++ [R]]> (RecipeList S1))
               (<[R := BB]> (Parent S1))).
  assert (Hrun : VPRecipeBase_insertBefore_at R BB None S1 = Ok S').
  { unfold VPRecipeBase_insertBefore_at. rewrite HR1. reflexivity. }
  exists S'. split; [exact Hrun|]. split; [|split; [|split]].
  - by eapply wellLinked_insertBefore_at.
  - subst S'. simpl. rewrite Hpar1. apply insert_delete_eq.
  - subst S'. unfold getRecipeList at 1. simpl. rewrite lookup_insert_eq. simpl.
    by rewrite Hl1.
  - intros bb Hne. rewrite <- Hl1. subst S'. unfold getRecipeList. simpl.
    by rewrite lookup_insert_ne by congruence.
Qed.

Lemma moveBefore_end_appends_witness :
  let S := mkVPlanBlocks {[ 0%nat := [10%nat; 11%nat; 12%nat] ]}
             (<[10%nat := 0%nat]> (<[11%nat := 0%nat]> {[ 12%nat := 0%nat ]})) in
  exists S', VPRecipeBase_moveBefore 10 1 None S = Ok S' /\
    wellLinked S' /\
    Parent S' = <[10%nat := 1%nat]> (Parent S) /\
    getRecipeList S' 1 = iplist_remove 10 (getRecipeList S 1) ++ [10%nat] /\
    forall bb, bb <> 1%nat ->
      getRecipeList S' bb = iplist_remove 10 (getRecipeList S bb).
Proof.
  intros S.
  apply (moveBefore_end_appends S 10 0 1).
  - apply wellLinked_three.
  - reflexivity.
Defined.

(** ** More on the effect classifier *)

(** X7. A memory recipe is classified by its kind alone: it writes exactly
    when it is a store, reads exactly when it is not, so one and only one of
    the two memory queries answers yes; the side-effect query always answers
    yes for it, for a load as for a store. None of the three can fail. *)
Theorem memory_recipe_reads_or_writes (R : VPRecipeBase) :
  getVPDefID R = VPWidenMemoryInstructionSC ->
  exists w r,
    VPRecipeBase_mayWriteToMemory R = Ok w /\
    VPRecipeBase_mayReadFromMemory R = Ok r /\
    w = isStore R /\ r = negb w /\
    VPRecipeBase_mayHaveSideEffects R = Ok true.
Proof.
  intros Hk. exists (isStore R), (negb (isStore R)).
  unfold VPRecipeBase_mayWriteToMemory, VPRecipeBase_mayReadFromMemory,
    VPRecipeBase_mayHaveSideEffects.
  rewrite Hk. auto.
Qed.

Lemma memory_recipe_reads_or_writes_witness :
  let R := mkVPRecipeBase VPWidenMemoryInstructionSC None false in
  exists w r,
    VPRecipeBase_mayWriteToMemory R = Ok w /\
    VPRecipeBase_mayReadFromMemory R = Ok r /\
    w = isStore R /\ r = negb w /\
    VPRecipeBase_mayHaveSideEffects R = Ok true.
Proof.
  intros R. apply (memory_recipe_reads_or_writes R). reflexivity.
Defined.

(** X8. A "no" never contradicts the mirrored instruction. Whatever the
    kind, if the side-effect query answers no, the mirrored instruction has
    no side effects; and for every kind but the two that decide by kind
    alone (memory recipes and branch-on-mask), if a memory query answers no,
    the mirrored instruction does not make that access. *)
Theorem no_answers_respect_mirrored_instruction (R : VPRecipeBase)
  (Inst : OrigInstruction) :
  getUnderlyingValue R = Some (UInstruction Inst) ->
  (VPRecipeBase_mayHaveSideEffects R = Ok false ->
     I_mayHaveSideEffects Inst = false) /\
  (getVPDefID R <> VPWidenMemoryInstructionSC ->
   getVPDefID R <> VPBranchOnMaskSC ->
     (VPRecipeBase_mayWriteToMemory R = Ok false ->
        I_mayWriteToMemory Inst = false) /\
     (VPRecipeBase_mayReadFromMemory R = Ok false ->
        I_mayReadFromMemory Inst = false)).
Proof.
  intros Hu.
  unfold VPRecipeBase_mayWriteToMemory, VPRecipeBase_mayReadFromMemory,
    VPRecipeBase_mayHaveSideEffects.
  rewrite Hu. simpl.
  split; [|intros Hm Hb; split]; intros H;
    destruct (getVPDefID R); try discriminate; try congruence; simpl in H;
    match goal with
    | |- ?f Inst = false => destruct (f Inst); [discriminate|reflexivity]
    end.
Qed.

Lemma no_answers_respect_mirrored_instruction_witness :
  let Inst := mkOrigInstruction (Instruction.Binary Instruction.Add) IRFlags_none
                ICMP_EQ (IntegerTy 32) 0 false false false in
  let R := mkVPRecipeBase VPReplicateSC (Some (UInstruction Inst)) false in
  (VPRecipeBase_mayHaveSideEffects R = Ok false ->
     I_mayHaveSideEffects Inst = false) /\
  (getVPDefID R <> VPWidenMemoryInstructionSC ->
   getVPDefID R <> VPBranchOnMaskSC ->
     (VPRecipeBase_mayWriteToMemory R = Ok false ->
        I_mayWriteToMemory Inst = false) /\
     (VPRecipeBase_mayReadFromMemory R = Ok false ->
        I_mayReadFromMemory Inst = false)).
Proof.
  intros Inst R. apply (no_answers_respect_mirrored_instruction R Inst). reflexivity.
Defined.

(** X9. The two kinds that copy one original instruction, replicate and
    widened call, pass the memory queries on to that instruction. For the
    side-effect query a replicate passes it on as well, while a widened call
    answers yes whatever the call does. Without an instruction to ask, every
    query that is passed on fails in the cast. *)
Theorem scalar_copies_delegate (R : VPRecipeBase) :
  getVPDefID R = VPReplicateSC \/ getVPDefID R = VPWidenCallSC ->
  match dyn_cast_or_null_Instruction (getUnderlyingValue R) with
  | Some Inst =>
      VPRecipeBase_mayWriteToMemory R = Ok (I_mayWriteToMemory Inst) /\
      VPRecipeBase_mayReadFromMemory R = Ok (I_mayReadFromMemory Inst) /\
      VPRecipeBase_mayHaveSideEffects R
        = Ok (match getVPDefID R with
              | VPReplicateSC => I_mayHaveSideEffects Inst
              | _ => true
              end)
  | None =>
      isAssertionFailure (VPRecipeBase_mayWriteToMemory R) = true /\
      isAssertionFailure (VPRecipeBase_mayReadFromMemory R) = true /\
      isAssertionFailure (VPRecipeBase_mayHaveSideEffects R)
        = match getVPDefID R with VPReplicateSC => true | _ => false end
  end.
Proof.
  unfold VPRecipeBase_mayWriteToMemory, VPRecipeBase_mayReadFromMemory,
    VPRecipeBase_mayHaveSideEffects.
  intros [Hk | Hk]; rewrite Hk;
    destruct (getUnderlyingValue R) as [[Inst | v] |]; simpl; auto.
Qed.

Lemma scalar_copies_delegate_witness :
  let Inst := mkOrigInstruction Instruction.Call IRFlags_none
                ICMP_EQ (IntegerTy 32) 0 false false false in
  let R := mkVPRecipeBase VPWidenCallSC (Some (UInstruction Inst)) false in
  VPRecipeBase_mayWriteToMemory R = Ok false /\
  VPRecipeBase_mayReadFromMemory R = Ok false /\
  VPRecipeBase_mayHaveSideEffects R = Ok true.
Proof.
  intros Inst R. apply (scalar_copies_delegate R). right. reflexivity.
Defined.

(** ** More on the generic control recipe *)

Lemma preserves_for_range {X : Type} (proj : VPTransformState -> X)
  (body : nat -> M unit) (n lo : nat) :
  (forall p, (lo <= p < lo + n)%nat -> preserves proj (body p)) ->
  preserves proj (for_range lo n body).
Proof.
  revert lo. induction n as [|n IH]; intros lo Hb; simpl.
  - apply preserves_ret.
  - apply preserves_bind; [apply Hb; lia|]. intros _. apply IH.
    intros p Hp. apply Hb. lia.
Qed.

Lemma preserves_State_set_other (Def : VPValue) (V : Value) (Part : nat)
  (k : nat * nat) :
  k <> (VPValue_id Def, Part) -> preserves (cacheAt k) (State_set Def V Part).
Proof.
  intros Hk St a St' H. injection H as _ <-. unfold cacheAt. simpl.
  by apply lookup_insert_ne.
Qed.

Lemma preserves_FastMathFlagGuard {X A : Type} (proj : VPTransformState -> X)
  (body : M A) :
  (forall F St, proj (withFastMathFlags F St) = proj St) ->
  preserves proj body -> preserves proj (FastMathFlagGuard body).
Proof.
  intros Hp Hb. unfold FastMathFlagGuard.
  apply preserves_bind; [apply preserves_gets|]. intros saved.
  apply preserves_bind; [exact Hb|]. intros a.
  apply preserves_bind; [apply preserves_modify; intros ?; apply Hp|].
  intros _. apply preserves_ret.
Qed.

(** Runs through the structure of a lowering procedure, with [tac] for the
    writes to the value cache. *)
Ltac keeps_with tac :=
  repeat first
    [ apply preserves_ret
    | apply preserves_gets
    | apply preserves_assert
    | apply preserves_AssertionFailure
    | apply preserves_llvm_unreachable
    | apply preserves_unmodelled
    | apply preserves_liftResult
    | match goal with
      | |- preserves _ (InsertAt _ _ _) =>
          let H := fresh "H" in
          intros ? ? ? H; injection H as _ <-; reflexivity
      end
    | apply preserves_State_get
    | apply preserves_Terminator_eraseFromParent; intros ? ?; reflexivity
    | match goal with
      | |- preserves _ (State_set _ _ _) => tac
      end
    | apply preserves_modify; intros ?; reflexivity
    | apply preserves_bind; [|intros ?]
    | match goal with
      | |- preserves _ (match ?x with _ => _ end) => destruct x
      end ].

Ltac unfold_emitter :=
  unfold Builder_SetCurrentDebugLocation, Builder_setFastMathFlags,
    Builder_SetInsertPoint, State_setDebugLocFromInst, State_addMetadata,
    getOperand, State_get_lane, CreateNot, CreateICmp, CreateFCmp, CreateFreeze,
    CreateCast, CreateSelect, CreateActiveLaneMask, CreateVectorSplice,
    CreateVectorSplat, CreateStepVector, CreateInsertElement,
    createStepForVF, CreateVScale, CreateMul, CreateNAryOp, CreateUnOp,
    CreateBinOp, CreateAdd, CreateCondBr, CreateExtractElement,
    BranchInst_setSuccessor, PHINode_Create, PHINode_addIncoming,
    Instruction_copyIRFlags, Instruction_dropPoisonGeneratingFlags,
    Builder_Insert.

Lemma preserves_frame_generateInstruction (R : VPInstruction) (Part : nat) :
  preserves loweringFrame (VPInstruction_generateInstruction R Part).
Proof.
  unfold VPInstruction_generateInstruction. unfold_emitter. unfold State_set.
  keeps.
Qed.

Lemma preserves_cache_generateInstruction (R : VPInstruction) (Part : nat)
  (k : nat * nat) :
  k <> (VPValue_id (VPI_self R), Part) ->
  preserves (cacheAt k) (VPInstruction_generateInstruction R Part).
Proof.
  intros Hk.
  unfold VPInstruction_generateInstruction. unfold_emitter.
  keeps_with ltac:(by apply preserves_State_set_other).
Qed.

(** X10. What the lowering of a generic control recipe leaves alone. When
    execute returns, the vector width, the stream count, the per-lane cache,
    the poison set, the block bookkeeping, and the emitter's insertion point
    and folder are as before; and in the value cache only entries of the
    recipe itself, for streams below the stream count, can differ. *)
Theorem VPInstruction_execute_frame (R : VPInstruction) (St St' : VPTransformState) :
  VPInstruction_execute R St = Ok (tt, St') ->
  loweringFrame St' = loweringFrame St /\
  forall k,
    (forall Part, (Part < UF St)%nat -> k <> (VPValue_id (VPI_self R), Part)) ->
    PerPartOutput St' !! k = PerPartOutput St !! k.
Proof.
  intros Hrun. split.
  - refine ((_ : preserves loweringFrame (VPInstruction_execute R)) _ _ _ Hrun).
    unfold VPInstruction_execute.
    apply preserves_bind; [apply preserves_gets|]. intros inst.
    apply preserves_bind; [apply preserves_assert|]. intros _.
    apply preserves_FastMathFlagGuard; [reflexivity|].
    apply preserves_bind; [apply preserves_modify; reflexivity|]. intros _.
    apply preserves_bind; [apply preserves_gets|]. intros UF0.
    apply preserves_for_range. intros p _. apply preserves_frame_generateInstruction.
  - intros k Hk. unfold VPInstruction_execute, FastMathFlagGuard,
      Builder_setFastMathFlags in Hrun.
    unfold bind at 1 in Hrun. simpl in Hrun.
    unfold bind at 1 in Hrun. unfold assert in Hrun.
    destruct (negb (is_Some_b (Instance St))); [|discriminate].
    unfold bind at 1 in Hrun. simpl in Hrun.
    unfold bind at 1 in Hrun. unfold bind at 1 in Hrun. simpl in Hrun.
    unfold bind at 1 in Hrun. simpl in Hrun.
    destruct (for_range 0 (UF St) _ _) as [[[] S1]| | |] eqn:Hloop; try discriminate.
    simpl in Hrun. injection Hrun as <-.
    change (cacheAt k S1 = cacheAt k (withFastMathFlags (VPI_FMF R) St)).
    eapply (preserves_for_range (cacheAt k)); [|exact Hloop].
    intros p Hp. apply preserves_cache_generateInstruction. apply Hk. lia.
Qed.

Lemma VPInstruction_execute_frame_witness :
  let i32 := IntegerTy 32 in
  let R := mkVPInstruction (mkVPValue 3 (Some 3%nat) None)
             (VPInstruction.IR (Instruction.Binary Instruction.Add))
             [mkVPValue 1 (Some 1%nat) None; mkVPValue 2 (Some 2%nat) None]
             FMF_none 0 false 0 0 in
  let St := mkVPTransformState (mkElementCount 1 false) 2 None
              (<[(1%nat, 0%nat) := Argument 0 i32]>
                 (<[(1%nat, 1%nat) := Argument 1 i32]>
                    (<[(2%nat, 0%nat) := Argument 2 i32]>
                       {[ (2%nat, 1%nat) := Argument 3 i32 ]})))
              ∅ ∅
              (mkIRBuilderBase (IP_at 0) FMF_none 0 NoFolder)
              (mkIRStore 0 [] ∅ ∅ ∅ ∅ ∅)
              (mkCFGState 0 ∅ (fun _ => 0%nat)) 0 in
  exists St',
    VPInstruction_execute R St = Ok (tt, St') /\
    loweringFrame St' = loweringFrame St /\
    forall k,
      (forall Part, (Part < 2)%nat -> k <> (3%nat, Part)) ->
      PerPartOutput St' !! k = PerPartOutput St !! k.
Proof.
  intros i32 R St.
  destruct (VPInstruction_execute R St) as [[[] St']| | |] eqn:Hrun;
    try (vm_compute in Hrun; discriminate).
  exists St'. split; [reflexivity|].
  apply (VPInstruction_execute_frame R St St'). exact Hrun.
Defined.

(** *** Calls that cannot end in llvm_unreachable *)

Lemma neverUnreachable_ret {A : Type} (a : A) : neverUnreachable (ret a).
Proof. intros St msg H. discriminate. Qed.

Lemma neverUnreachable_gets {A : Type} (f : VPTransformState -> A) :
  neverUnreachable (gets f).
Proof. intros St msg H. discriminate. Qed.

Lemma neverUnreachable_modify (f : VPTransformState -> VPTransformState) :
  neverUnreachable (modify f).
Proof. intros St msg H. discriminate. Qed.

Lemma neverUnreachable_assert (b : bool) (m : string) : neverUnreachable (assert b m).
Proof. intros St msg H. unfold assert in H. destruct b; discriminate. Qed.

Lemma neverUnreachable_AssertionFailure {A : Type} (m : string) :
  neverUnreachable (fun _ : VPTransformState => @AssertionFailure (A * VPTransformState) m).
Proof. intros St msg H. discriminate. Qed.

Lemma neverUnreachable_unmodelled {A : Type} (m : string) :
  neverUnreachable (@unmodelled A m).
Proof. intros St msg H. discriminate. Qed.

Lemma neverUnreachable_InsertAt (ip : InsertPoint) (mk : nat -> Value) (f : IRFlags) :
  neverUnreachable (InsertAt ip mk f).
Proof. intros St msg H. discriminate. Qed.

Lemma neverUnreachable_State_get (Def : VPValue) (Part : nat) :
  neverUnreachable (State_get Def Part).
Proof.
  intros St msg H. unfold State_get in H.
  destruct (PerPartOutput St !! _); discriminate.
Qed.

Lemma neverUnreachable_Terminator_eraseFromParent (bb : nat) (Br : Value) :
  neverUnreachable (Terminator_eraseFromParent bb Br).
Proof.
  intros St msg H. unfold Terminator_eraseFromParent in H.
  destruct (Terminators (IR St) !! bb); discriminate.
Qed.

Lemma neverUnreachable_bind {A B : Type} (m : M A) (k : A -> M B) :
  neverUnreachable m -> (forall a, neverUnreachable (k a)) ->
  neverUnreachable (bind m k).
Proof.
  intros Hm Hk St msg H. unfold bind in H.
  destruct (m St) as [[a S1]| | |] eqn:E; try discriminate.
  - exact (Hk a S1 msg H).
  - injection H as ->. exact (Hm St msg E).
Qed.

Ltac reaches :=
  repeat first
    [ apply neverUnreachable_ret
    | apply neverUnreachable_gets
    | apply neverUnreachable_assert
    | apply neverUnreachable_AssertionFailure
    | apply neverUnreachable_unmodelled
    | apply neverUnreachable_InsertAt
    | apply neverUnreachable_State_get
    | apply neverUnreachable_Terminator_eraseFromParent
    | apply neverUnreachable_modify
    | apply neverUnreachable_bind; [|intros ?]
    | match goal with
      | |- neverUnreachable (match ?x with _ => _ end) => destruct x
      end ].

(** X11. generateInstruction ends in llvm_unreachable exactly for the opcodes
    it has no case for, whatever the stream and the state: of the opcodes of
    the IR only the binary ones and select are lowered, and the two SLP
    opcodes are not lowered at all. *)
Theorem generateInstruction_unreachable_iff (R : VPInstruction) (Part : nat)
  (St : VPTransformState) :
  (exists msg, VPInstruction_generateInstruction R Part St = Unreachable msg) <->
  VPInstruction_hasLowering (VPI_Opcode R) = false.
Proof.
  split.
  - intros [msg H].
    destruct (VPInstruction_hasLowering (VPI_Opcode R)) eqn:Hl; [|reflexivity].
    exfalso. revert St msg H.
    change (neverUnreachable (VPInstruction_generateInstruction R Part)).
    unfold VPInstruction_generateInstruction. unfold_emitter. unfold State_set.
    apply neverUnreachable_bind; [apply neverUnreachable_modify|]. intros _.
    destruct (VPI_Opcode R) as [[ | | | | | | | | | | | | | ] | | | | | | | | | | ];
      try discriminate; reaches.
  - intros Hl. exists "Unsupported opcode for instruction".
    unfold VPInstruction_generateInstruction, Builder_SetCurrentDebugLocation.
    unfold bind, modify.
    destruct (VPI_Opcode R) as [[ | | | | | | | | | | | | | ] | | | | | | | | | | ];
      try discriminate; reflexivity.
Qed.

(** X12. Of the opcodes that may take fast-math flags, the two that are not
    binary, fneg and fcmp, have no lowering here: a generic control recipe
    that accepted flags and is not a binary operation ends execute in
    llvm_unreachable as soon as there is a stream to generate. *)
Theorem flagged_non_binary_has_no_lowering (R R' : VPInstruction)
  (F : FastMathFlags) (St : VPTransformState) :
  VPInstruction_setFastMathFlags R F = Ok R' ->
  (forall opc, VPI_Opcode R <> VPInstruction.IR (Instruction.Binary opc)) ->
  Instance St = None ->
  (0 < UF St)%nat ->
  VPI_FMF R' = F /\
  VPInstruction_execute R' St = Unreachable "Unsupported opcode for instruction".
Proof.
  intros Hset Hnb Hinst Huf. unfold VPInstruction_setFastMathFlags in Hset.
  destruct (VPI_Opcode R) as [[o| [] | | | | | | | | | | | | ] | | | | | | | | | | ] eqn:Hopc;
    try discriminate; try (exfalso; by apply (Hnb o)).
  all: injection Hset as <-; split; [reflexivity|].
  all: unfold VPInstruction_execute, FastMathFlagGuard, Builder_setFastMathFlags,
    VPInstruction_generateInstruction, Builder_SetCurrentDebugLocation.
  all: unfold bind at 1; simpl; unfold bind at 1; unfold assert; rewrite Hinst; simpl.
  all: unfold bind at 1; simpl.
  all: unfold bind, modify, gets; simpl.
  all: destruct (UF St) as [|n]; [lia|]; simpl.
  all: unfold bind, modify, llvm_unreachable; reflexivity.
Qed.

Lemma flagged_non_binary_has_no_lowering_witness :
  let R := mkVPInstruction (mkVPValue 3 (Some 3%nat) None)
             (VPInstruction.IR Instruction.FCmp)
             [mkVPValue 1 (Some 1%nat) None; mkVPValue 2 (Some 2%nat) None]
             FMF_none 0 false 0 0 in
  let F := mkFMF true true true false false false false in
  let R' := mkVPInstruction (mkVPValue 3 (Some 3%nat) None)
             (VPInstruction.IR Instruction.FCmp)
             [mkVPValue 1 (Some 1%nat) None; mkVPValue 2 (Some 2%nat) None]
             F 0 false 0 0 in
  let St := mkVPTransformState (mkElementCount 4 false) 1 None ∅ ∅ ∅
              (mkIRBuilderBase (IP_at 0) FMF_none 0 NoFolder)
              (mkIRStore 0 [] ∅ ∅ ∅ ∅ ∅)
              (mkCFGState 0 ∅ (fun _ => 0%nat)) 0 in
  VPI_FMF R' = F /\
  VPInstruction_execute R' St = Unreachable "Unsupported opcode for instruction".
Proof.
  intros R F R' St.
  apply (flagged_non_binary_has_no_lowering R R' F St).
  - reflexivity.
  - intros opc H. discriminate.
  - reflexivity.
  - simpl. lia.
Defined.

(** X13. The latch branch on the trip count. For stream 0, with both
    operands in the cache and a temporary terminator in the insertion
    block, generateInstruction compares the two for equality, ends the block
    with a conditional branch on that compare whose first successor is left
    unbound and whose second successor is the IR block of the plan's loop
    header, and leaves the value cache alone. For every later stream it does
    nothing but set the debug location. *)
Theorem branch_on_count_lowering (R : VPInstruction) (St : VPTransformState)
  (Op0 Op1 : VPValue) (IV TC T : Value) :
  VPI_Opcode R = VPInstruction.BranchOnCount ->
  VPI_Operands R !! 0%nat = Some Op0 ->
  VPI_Operands R !! 1%nat = Some Op1 ->
  PerPartOutput St !! (VPValue_id Op0, 0%nat) = Some IV ->
  PerPartOutput St !! (VPValue_id Op1, 0%nat) = Some TC ->
  Terminators (IR St) !! InsertPoint_block (InsertPt (Builder St)) = Some T ->
  (exists St' Cond id,
     VPInstruction_generateInstruction R 0 St = Ok (tt, St') /\
     match FoldCmp (Folder (Builder St)) ICMP_EQ IV TC with
     | Some C => Cond = C
     | None => Cond = ICmpInst (NextId (IR St)) ICMP_EQ IV TC
     end /\
     Terminators (IR St') !! InsertPoint_block (InsertPt (Builder St))
       = Some (BranchInst id Cond) /\
     Successors (IR St') !! id
       = Some (None, VPBB2IRBB (CFG St) !! VPI_PlanHeader R) /\
     PerPartOutput St' = PerPartOutput St) /\
  forall Part, Part <> 0%nat ->
    VPInstruction_generateInstruction R Part St
      = Ok (tt, withDebugLocation (VPI_DL R) St).
Proof.
  intros Hopc H0 H1 HIV HTC HT. split.
  - unfold VPInstruction_generateInstruction, Builder_SetCurrentDebugLocation,
      getOperand, State_get, CreateICmp, CreateCondBr, BranchInst_setSuccessor,
      Terminator_eraseFromParent, Builder_Insert, InsertAt.
    rewrite Hopc, H0, H1. unfold bind, modify, gets, ret. simpl.
    rewrite HIV. simpl. rewrite HTC. simpl.
    destruct (FoldCmp (Folder (Builder St)) ICMP_EQ IV TC) as [C|] eqn:Hfold; simpl;
      rewrite HT; simpl.
    + eexists _, C, _. split; [reflexivity|]. split; [reflexivity|]. simpl.
      split; [apply lookup_insert_eq|]. split; [|reflexivity].
      rewrite lookup_alter_eq, lookup_insert_eq. reflexivity.
    + eexists _, _, _. split; [reflexivity|]. split; [reflexivity|]. simpl.
      split; [apply lookup_insert_eq|]. split; [|reflexivity].
      rewrite lookup_alter_eq, lookup_insert_eq. reflexivity.
  - intros Part HP. unfold VPInstruction_generateInstruction,
      Builder_SetCurrentDebugLocation. rewrite Hopc.
    destruct Part as [|p]; [congruence|]. reflexivity.
Qed.

Lemma branch_on_count_lowering_witness :
  let i64 := IntegerTy 64 in
  let R := mkVPInstruction (mkVPValue 3 (Some 3%nat) None)
             VPInstruction.BranchOnCount
             [mkVPValue 1 (Some 1%nat) None; mkVPValue 2 None (Some (Argument 1 i64))]
             FMF_none 0 true 5 5 in
  let St := mkVPTransformState (mkElementCount 4 false) 2 None
              (<[(1%nat, 0%nat) := Argument 0 i64]>
                 {[ (2%nat, 0%nat) := Argument 1 i64 ]})
              ∅ ∅
              (mkIRBuilderBase (IP_at 7) FMF_none 0 NoFolder)
              (mkIRStore 0 [] ∅ ∅ ∅ {[ 7%nat := PoisonValue VoidTy ]} ∅)
              (mkCFGState 7 {[ 5%nat := 7%nat ]} (fun _ => 6%nat)) 0 in
  (exists St' Cond id,
     VPInstruction_generateInstruction R 0 St = Ok (tt, St') /\
     Cond = ICmpInst 0 ICMP_EQ (Argument 0 i64) (Argument 1 i64) /\
     Terminators (IR St') !! 7%nat = Some (BranchInst id Cond) /\
     Successors (IR St') !! id = Some (None, Some 7%nat) /\
     PerPartOutput St' = PerPartOutput St) /\
  forall Part, Part <> 0%nat ->
    VPInstruction_generateInstruction R Part St = Ok (tt, withDebugLocation 0 St).
Proof.
  intros i64 R St.
  apply (branch_on_count_lowering R St (mkVPValue 1 (Some 1%nat) None)
           (mkVPValue 2 None (Some (Argument 1 i64)))
           (Argument 0 i64) (Argument 1 i64) (PoisonValue VoidTy));
    reflexivity.
Defined.

Lemma State_get_lane_keeps (Def : VPValue) (Part Lane : nat) :
  preserves (fun St => (Builder St, CFG St, PerPartOutput St,
                        Terminators (IR St), Successors (IR St)))
    (State_get_lane Def Part Lane).
Proof.
  unfold State_get_lane, CreateExtractElement, Builder_Insert. keeps.
Qed.

(** X14. The branch on a condition. For stream 0, with the condition's
    lane 0 at hand and a temporary terminator in the insertion block,
    generateInstruction ends the block with a conditional branch on that
    condition whose first successor is left unbound; the second successor is
    the IR block of the region's entry block when the recipe's block exits
    its region, and is left unbound as well otherwise. The value cache is
    left alone, and every later stream only sets the debug location. *)
Theorem branch_on_cond_lowering (R : VPInstruction) (St S1 : VPTransformState)
  (Op0 : VPValue) (Cond T : Value) :
  VPI_Opcode R = VPInstruction.BranchOnCond ->
  VPI_Operands R !! 0%nat = Some Op0 ->
  State_get_lane Op0 0 0 (withDebugLocation (VPI_DL R) St) = Ok (Cond, S1) ->
  Terminators (IR St) !! InsertPoint_block (InsertPt (Builder St)) = Some T ->
  (exists St' id,
     VPInstruction_generateInstruction R 0 St = Ok (tt, St') /\
     Terminators (IR St') !! InsertPoint_block (InsertPt (Builder St))
       = Some (BranchInst id Cond) /\
     Successors (IR St') !! id
       = Some (None, if VPI_ParentIsExiting R
                     then VPBB2IRBB (CFG St) !! VPI_RegionEntry R else None) /\
     PerPartOutput St' = PerPartOutput St) /\
  forall Part, Part <> 0%nat ->
    VPInstruction_generateInstruction R Part St
      = Ok (tt, withDebugLocation (VPI_DL R) St).
Proof.
  intros Hopc H0 Hget HT. split.
  - pose proof (State_get_lane_keeps Op0 0 0 _ _ _ Hget) as Hk. simpl in Hk.
    injection Hk as HB HC HP HTm HS.
    unfold VPInstruction_generateInstruction, Builder_SetCurrentDebugLocation,
      getOperand. rewrite Hopc, H0.
    unfold bind at 1. unfold modify at 1. simpl.
    unfold bind at 1. unfold bind at 1. unfold ret at 1. rewrite Hget.
    unfold CreateCondBr, BranchInst_setSuccessor, Terminator_eraseFromParent,
      Builder_Insert, InsertAt.
    unfold bind, modify, gets, ret. simpl. rewrite HB. simpl.
    destruct (VPI_ParentIsExiting R); simpl; rewrite HTm, HT; simpl.
    + eexists _, _. split; [reflexivity|]. simpl.
      split; [apply lookup_insert_eq|]. split; [|exact HP].
      rewrite lookup_alter_eq, lookup_alter_eq, lookup_insert_eq, HC. reflexivity.
    + eexists _, _. split; [reflexivity|]. simpl.
      split; [apply lookup_insert_eq|]. split; [|exact HP].
      rewrite lookup_alter_eq, lookup_insert_eq. reflexivity.
  - intros Part HP. unfold VPInstruction_generateInstruction,
      Builder_SetCurrentDebugLocation. rewrite Hopc.
    destruct Part as [|p]; [congruence|]. reflexivity.
Qed.

Lemma branch_on_cond_lowering_witness :
  let i1 := IntegerTy 1 in
  let Op0 := mkVPValue 1 None (Some (Argument 0 i1)) in
  let R := mkVPInstruction (mkVPValue 3 (Some 3%nat) None)
             VPInstruction.BranchOnCond [Op0] FMF_none 0 true 5 5 in
  let St := mkVPTransformState (mkElementCount 4 false) 2 None ∅ ∅ ∅
              (mkIRBuilderBase (IP_at 7) FMF_none 0 NoFolder)
              (mkIRStore 0 [] ∅ ∅ ∅ {[ 7%nat := PoisonValue VoidTy ]} ∅)
              (mkCFGState 7 {[ 5%nat := 7%nat ]} (fun _ => 6%nat)) 0 in
  (exists St' id,
     VPInstruction_generateInstruction R 0 St = Ok (tt, St') /\
     Terminators (IR St') !! 7%nat = Some (BranchInst id (Argument 0 i1)) /\
     Successors (IR St') !! id = Some (None, Some 7%nat) /\
     PerPartOutput St' = PerPartOutput St) /\
  forall Part, Part <> 0%nat ->
    VPInstruction_generateInstruction R Part St = Ok (tt, withDebugLocation 0 St).
Proof.
  intros i1 Op0 R St.
  apply (branch_on_cond_lowering R St (withDebugLocation 0 St) Op0 (Argument 0 i1)
           (PoisonValue VoidTy));
    reflexivity.
Defined.

(** One turn of the loop for a binary opcode that the folder leaves alone. *)
Lemma generateInstruction_binary (R : VPInstruction) (S0 : VPTransformState)
  (opc : Instruction.BinaryOps) (Op0 Op1 : VPValue) (A B : Value) (Part : nat) :
  VPI_Opcode R = VPInstruction.IR (Instruction.Binary opc) ->
  VPI_Operands R !! 0%nat = Some Op0 ->
  VPI_Operands R !! 1%nat = Some Op1 ->
  PerPartOutput S0 !! (VPValue_id Op0, Part) = Some A ->
  PerPartOutput S0 !! (VPValue_id Op1, Part) = Some B ->
  FoldBinOp (Folder (Builder S0)) opc A B = None ->
  exists S1,
    VPInstruction_generateInstruction R Part S0 = Ok (tt, S1) /\
    FMF (Builder S1) = FMF (Builder S0) /\
    Folder (Builder S1) = Folder (Builder S0) /\
    NextId (IR S1) = S (NextId (IR S0)) /\
    PerPartOutput S1
      = <[(VPValue_id (VPI_self R), Part) :=
            BinaryOperator (NextId (IR S0)) opc A B]> (PerPartOutput S0) /\
    InstFlags (IR S1)
      = <[NextId (IR S0) :=
            if isFPBinaryOp opc
            then mkIRFlags false false false (FMF (Builder S0))
            else IRFlags_none]> (InstFlags (IR S0)).
Proof.
  intros Hopc H0 H1 HA HB Hfold.
  unfold VPInstruction_generateInstruction, Builder_SetCurrentDebugLocation,
    getOperand, State_get, CreateBinOp, State_set, Builder_Insert, InsertAt.
  rewrite Hopc, H0, H1. unfold bind, modify, gets, ret. simpl.
  rewrite HA. simpl. rewrite HB. simpl. rewrite Hfold. simpl.
  eexists. split; [reflexivity|]. simpl. unfold FPAttrs. simpl.
  repeat split; reflexivity.
Qed.

(** X15. A binary opcode is lowered stream by stream, and a floating-point
    one takes the recipe's fast-math flags. When both operands are in the
    cache for every stream and the folder leaves the operation alone,
    execute returns, and the value of stream s is a new binary instruction
    on the operands' values of stream s whose flags are the recipe's
    fast-math flags for a floating-point opcode and no flags otherwise. *)
Theorem binary_op_takes_recipe_flags (R : VPInstruction) (St : VPTransformState)
  (opc : Instruction.BinaryOps) (Op0 Op1 : VPValue) :
  VPI_Opcode R = VPInstruction.IR (Instruction.Binary opc) ->
  Instance St = None ->
  VPI_Operands R !! 0%nat = Some Op0 ->
  VPI_Operands R !! 1%nat = Some Op1 ->
  (forall Part, (Part < UF St)%nat ->
     is_Some (PerPartOutput St !! (VPValue_id Op0, Part)) /\
     is_Some (PerPartOutput St !! (VPValue_id Op1, Part))) ->
  (forall a b, FoldBinOp (Folder (Builder St)) opc a b = None) ->
  exists St',
    VPInstruction_execute R St = Ok (tt, St') /\
    forall Part, (Part < UF St)%nat ->
      exists id A B,
        PerPartOutput St !! (VPValue_id Op0, Part) = Some A /\
        PerPartOutput St !! (VPValue_id Op1, Part) = Some B /\
        PerPartOutput St' !! (VPValue_id (VPI_self R), Part)
          = Some (BinaryOperator id opc A B) /\
        InstFlags (IR St') !! id
          = Some (if isFPBinaryOp opc
                  then mkIRFlags false false false (VPI_FMF R)
                  else IRFlags_none).
Proof.
  intros Hopc Hinst H0 H1 Hops Hfold.
  set (self := VPValue_id (VPI_self R)).
  set (flags := if isFPBinaryOp opc
                then mkIRFlags false false false (VPI_FMF R) else IRFlags_none).
  set (St0 := withFastMathFlags (VPI_FMF R) St).
  destruct (for_range_inv
              (fun p S0 =>
                 FMF (Builder S0) = VPI_FMF R /\
                 Folder (Builder S0) = Folder (Builder St) /\
                 (forall k, (forall q, (q < p)%nat -> k <> (self, q)) ->
                    PerPartOutput S0 !! k = PerPartOutput St !! k) /\
                 forall q, (q < p)%nat ->
                   exists id A B,
                     (id < NextId (IR S0))%nat /\
                     PerPartOutput St !! (VPValue_id Op0, q) = Some A /\
                     PerPartOutput St !! (VPValue_id Op1, q) = Some B /\
                     PerPartOutput S0 !! (self, q) = Some (BinaryOperator id opc A B) /\
                     InstFlags (IR S0) !! id = Some flags)
              (VPInstruction_generateInstruction R) (UF St) 0 St0)
    as (S1 & Hloop & HF & _ & _ & Hall).
  { repeat split; try reflexivity. intros q Hq. lia. }
  { intros p S0 Hp (HFMF & HFold & Hframe & Hdone).
    destruct (Hops p ltac:(lia)) as [[A HA] [B HB]].
    assert (HA0 : PerPartOutput S0 !! (VPValue_id Op0, p) = Some A).
    { rewrite Hframe; [exact HA|]. intros q Hq [= _ ->]. lia. }
    assert (HB0 : PerPartOutput S0 !! (VPValue_id Op1, p) = Some B).
    { rewrite Hframe; [exact HB|]. intros q Hq [= _ ->]. lia. }
    destruct (generateInstruction_binary R S0 opc Op0 Op1 A B p Hopc H0 H1 HA0 HB0)
      as (S1 & Hrun & HF1 & HFo1 & HN1 & HC1 & HI1).
    { rewrite HFold. apply Hfold. }
    exists S1. split; [exact Hrun|]. repeat split.
    - congruence.
    - congruence.
    - intros k Hk. rewrite HC1. fold self.
      rewrite lookup_insert_ne by (intros <-; apply (Hk p); [lia|reflexivity]).
      apply Hframe. intros q Hq. apply Hk. lia.
    - intros q Hq. destruct (decide (q = p)) as [->|Hne].
      + exists (NextId (IR S0)), A, B. rewrite HN1, HC1, HI1, HFMF. fold self flags.
        rewrite !lookup_insert_eq. repeat split; auto.
      + destruct (Hdone q ltac:(lia)) as (id & A' & B' & Hid & HA' & HB' & Hc & Hfl).
        exists id, A', B'. rewrite HN1, HC1, HI1. fold self.
        rewrite !lookup_insert_ne by (try lia; intros [= ?]; lia).
        repeat split; auto. }
  unfold VPInstruction_execute, FastMathFlagGuard, Builder_setFastMathFlags.
  unfold bind at 1. simpl. unfold bind at 1. unfold assert. rewrite Hinst. simpl.
  unfold bind at 1. simpl. unfold bind at 1. unfold bind at 1. simpl.
  unfold bind at 1. simpl. fold St0. rewrite Hloop. simpl.
  eexists. split; [reflexivity|].
  intros Part HP. destruct (Hall Part HP) as (id & A & B & _ & HA & HB & Hc & Hfl).
  exists id, A, B. simpl. auto.
Qed.

Lemma binary_op_takes_recipe_flags_witness :
  let f32 := FloatTy in
  let fast := mkFMF true true true true true true true in
  let Op0 := mkVPValue 1 (Some 1%nat) None in
  let Op1 := mkVPValue 2 (Some 2%nat) None in
  let R := mkVPInstruction (mkVPValue 3 (Some 3%nat) None)
             (VPInstruction.IR (Instruction.Binary Instruction.FAdd))
             [Op0; Op1] fast 0 false 0 0 in
  let St := mkVPTransformState (mkElementCount 1 false) 2 None
              (<[(1%nat, 0%nat) := Argument 0 f32]>
                 (<[(1%nat, 1%nat) := Argument 1 f32]>
                    (<[(2%nat, 0%nat) := Argument 2 f32]>
                       {[ (2%nat, 1%nat) := Argument 3 f32 ]})))
              ∅ ∅
              (mkIRBuilderBase (IP_at 0) FMF_none 0 NoFolder)
              (mkIRStore 0 [] ∅ ∅ ∅ ∅ ∅)
              (mkCFGState 0 ∅ (fun _ => 0%nat)) 0 in
  exists St',
    VPInstruction_execute R St = Ok (tt, St') /\
    forall Part, (Part < 2)%nat ->
      exists id A B,
        PerPartOutput St !! (1%nat, Part) = Some A /\
        PerPartOutput St !! (2%nat, Part) = Some B /\
        PerPartOutput St' !! (3%nat, Part)
          = Some (BinaryOperator id Instruction.FAdd A B) /\
        InstFlags (IR St') !! id = Some (mkIRFlags false false false fast).
Proof.
  intros f32 fast Op0 Op1 R St.
  apply (binary_op_takes_recipe_flags R St Instruction.FAdd Op0 Op1).
  - reflexivity.
  - reflexivity.
  - reflexivity.
  - reflexivity.
  - intros Part HPart. simpl in HPart.
    assert (Part = 0 \/ Part = 1)%nat as [-> | ->] by lia;
      split; eexists; reflexivity.
  - reflexivity.
Defined.

(** ** The widened select *)

(** One turn of the loop, for a select that the folder leaves alone. *)
Lemma VPWidenSelectRecipe_part_spec (R : VPWidenSelectRecipe) (Inst : OrigInstruction)
  (InvarCond : option Value) (S0 : VPTransformState) (Op0 Op1 Op2 : VPValue)
  (C A B : Value) (Part : nat) :
  WidenSel_Operands R !! 0%nat = Some Op0 ->
  WidenSel_Operands R !! 1%nat = Some Op1 ->
  WidenSel_Operands R !! 2%nat = Some Op2 ->
  match InvarCond with
  | Some C' => C = C'
  | None => PerPartOutput S0 !! (VPValue_id Op0, Part) = Some C
  end ->
  PerPartOutput S0 !! (VPValue_id Op1, Part) = Some A ->
  PerPartOutput S0 !! (VPValue_id Op2, Part) = Some B ->
  FoldSelect (Folder (Builder S0)) C A B = None ->
  exists S1,
    VPWidenSelectRecipe_part R Inst InvarCond Part S0 = Ok (tt, S1) /\
    Builder S1 = Builder S0 /\
    UF S1 = UF S0 /\
    NextId (IR S1) = S (NextId (IR S0)) /\
    PerPartOutput S1
      = <[(VPValue_id (WidenSel_self R), Part) :=
            SelectInst (NextId (IR S0)) C A B]> (PerPartOutput S0) /\
    Metadata (IR S1) = <[NextId (IR S0) := Inst]> (Metadata (IR S0)).
Proof.
  intros H0 H1 H2 HC HA HB Hfold.
  unfold VPWidenSelectRecipe_part, getOperand, State_get, CreateSelect, State_set,
    State_addMetadata, Builder_Insert, InsertAt.
  rewrite H0, H1, H2.
  destruct InvarCond as [C'|]; [subst C'|];
    unfold bind, modify, gets, ret; simpl; [|rewrite HC; simpl];
    rewrite HA; simpl; rewrite HB; simpl; rewrite Hfold; simpl;
    (eexists; split; [reflexivity|]); simpl; repeat split; reflexivity.
Qed.

(** X16. A widened select whose condition is loop invariant takes lane 0
    of the condition's value of stream 0 once, in front of the loop, and
    uses that one value in the select of every stream; otherwise stream s
    uses the condition's value of stream s. With the two arms in the cache
    for every stream and a folder that leaves selects alone, execute
    returns, the value of stream s is a new select on the arms' values of
    stream s, and the original select's metadata is attached to it. *)
Theorem widened_select_condition (R : VPWidenSelectRecipe) (St S1 : VPTransformState)
  (Inst : OrigInstruction) (Op0 Op1 Op2 : VPValue) (C : Value) :
  WidenSel_UnderlyingValue R = Some (UInstruction Inst) ->
  getOpcode Inst = Instruction.Select ->
  WidenSel_Operands R !! 0%nat = Some Op0 ->
  WidenSel_Operands R !! 1%nat = Some Op1 ->
  WidenSel_Operands R !! 2%nat = Some Op2 ->
  (if InvariantCond R
   then State_get_lane Op0 0 0 (withDebugLocation (getDebugLoc Inst) St) = Ok (C, S1)
   else forall Part, (Part < UF St)%nat ->
          is_Some (PerPartOutput St !! (VPValue_id Op0, Part))) ->
  (forall Part, (Part < UF St)%nat ->
     is_Some (PerPartOutput St !! (VPValue_id Op1, Part)) /\
     is_Some (PerPartOutput St !! (VPValue_id Op2, Part))) ->
  (forall c a b, FoldSelect (Folder (Builder St)) c a b = None) ->
  exists St',
    VPWidenSelectRecipe_execute R St = Ok (tt, St') /\
    forall Part, (Part < UF St)%nat ->
      exists id Cond A B,
        (if InvariantCond R then Cond = C
         else PerPartOutput St !! (VPValue_id Op0, Part) = Some Cond) /\
        PerPartOutput St !! (VPValue_id Op1, Part) = Some A /\
        PerPartOutput St !! (VPValue_id Op2, Part) = Some B /\
        PerPartOutput St' !! (VPValue_id (WidenSel_self R), Part)
          = Some (SelectInst id Cond A B) /\
        Metadata (IR St') !! id = Some Inst.
Proof.
  intros Hund Hopc H0 H1 H2 Hcond Hops Hfold.
  set (self := VPValue_id (WidenSel_self R)).
  set (St0 := withDebugLocation (getDebugLoc Inst) St).
  (* the state and the condition in front of the loop *)
  set (Sa := if InvariantCond R then S1 else St0).
  set (InvarCond := if InvariantCond R then Some C else None).
  assert (Hpre : Builder Sa = Builder St0 /\ PerPartOutput Sa = PerPartOutput St /\
                 UF Sa = UF St).
  { subst Sa. destruct (InvariantCond R); [|auto].
    pose proof (State_get_lane_keeps Op0 0 0 _ _ _ Hcond) as Hk. simpl in Hk.
    injection Hk as HB HC HP HTm HS. repeat split; try assumption.
    refine ((_ : preserves UF (State_get_lane Op0 0 0)) _ _ _ Hcond).
    unfold State_get_lane, CreateExtractElement, Builder_Insert. keeps. }
  destruct Hpre as (HBa & HPa & HUa).
  destruct (for_range_inv
              (fun p S0 =>
                 Builder S0 = Builder St0 /\
                 (forall k, (forall q, (q < p)%nat -> k <> (self, q)) ->
                    PerPartOutput S0 !! k = PerPartOutput St !! k) /\
                 forall q, (q < p)%nat ->
                   exists id Cond A B,
                     (id < NextId (IR S0))%nat /\
                     (if InvariantCond R then Cond = C
                      else PerPartOutput St !! (VPValue_id Op0, q) = Some Cond) /\
                     PerPartOutput St !! (VPValue_id Op1, q) = Some A /\
                     PerPartOutput St !! (VPValue_id Op2, q) = Some B /\
                     PerPartOutput S0 !! (self, q) = Some (SelectInst id Cond A B) /\
                     Metadata (IR S0) !! id = Some Inst)
              (VPWidenSelectRecipe_part R Inst InvarCond) (UF St) 0 Sa)
    as (Send & Hloop & _ & _ & Hall).
  { split; [exact HBa|]. split; [intros k _; by rewrite HPa|]. intros q Hq. lia. }
  { intros p S0 Hp (HB0 & Hframe & Hdone).
    destruct (Hops p ltac:(lia)) as [[A HA] [B HB]].
    assert (HA0 : PerPartOutput S0 !! (VPValue_id Op1, p) = Some A).
    { rewrite Hframe; [exact HA|]. intros q Hq [= _ ->]. lia. }
    assert (HB1 : PerPartOutput S0 !! (VPValue_id Op2, p) = Some B).
    { rewrite Hframe; [exact HB|]. intros q Hq [= _ ->]. lia. }
    assert (HCond : exists Cond,
               (if InvariantCond R then Cond = C
                else PerPartOutput St !! (VPValue_id Op0, p) = Some Cond) /\
               match InvarCond with
               | Some C' => Cond = C'
               | None => PerPartOutput S0 !! (VPValue_id Op0, p) = Some Cond
               end).
    { subst InvarCond. destruct (InvariantCond R).
      - exists C. auto.
      - destruct (Hcond p ltac:(lia)) as [Cond HCond]. exists Cond. split; [exact HCond|].
        rewrite Hframe; [exact HCond|]. intros q Hq [= _ ->]. lia. }
    destruct HCond as (Cond & HCspec & HCrun).
    destruct (VPWidenSelectRecipe_part_spec R Inst InvarCond S0 Op0 Op1 Op2 Cond A B p
                H0 H1 H2 HCrun HA0 HB1)
      as (Sb & Hrun & HBb & _ & HN & HC1 & HM).
    { rewrite HB0. apply Hfold. }
    exists Sb. split; [exact Hrun|]. repeat split.
    - congruence.
    - intros k Hk. rewrite HC1. fold self.
      rewrite lookup_insert_ne by (intros <-; apply (Hk p); [lia|reflexivity]).
      apply Hframe. intros q Hq. apply Hk. lia.
    - intros q Hq. destruct (decide (q = p)) as [->|Hne].
      + exists (NextId (IR S0)), Cond, A, B. rewrite HN, HC1, HM. fold self.
        rewrite !lookup_insert_eq. repeat split; auto.
      + destruct (Hdone q ltac:(lia))
          as (id & Cond' & A' & B' & Hid & HC' & HA' & HB' & Hc & Hmd).
        exists id, Cond', A', B'. rewrite HN, HC1, HM. fold self.
        rewrite !lookup_insert_ne by (try lia; intros [= ?]; lia).
        repeat split; auto. }
  exists Send. split.
  - unfold VPWidenSelectRecipe_execute, cast_SelectInst, State_setDebugLocFromInst,
      Builder_SetCurrentDebugLocation, getOperand.
    rewrite Hund. simpl. rewrite Hopc, H0.
    unfold bind at 1. simpl. unfold bind at 1. unfold modify at 1. simpl. fold St0.
    unfold bind at 1.
    subst Sa InvarCond. destruct (InvariantCond R).
    + fold St0 in Hcond. unfold bind at 1. unfold ret at 1. unfold bind at 1.
      rewrite Hcond.
      unfold ret at 1. unfold bind at 1. unfold gets at 1. rewrite HUa. exact Hloop.
    + unfold ret at 1. unfold bind at 1. unfold gets at 1. exact Hloop.
  - intros Part HP.
    destruct (Hall Part HP) as (id & Cond & A & B & _ & HC & HA & HB & Hc & Hmd).
    exists id, Cond, A, B. auto.
Qed.

Lemma widened_select_condition_witness :
  let i32 := IntegerTy 32 in
  let C := Argument 9 (IntegerTy 1) in
  let Inst := mkOrigInstruction Instruction.Select IRFlags_none ICMP_EQ i32 4
                false false false in
  let Op0 := mkVPValue 1 None (Some C) in
  let Op1 := mkVPValue 2 (Some 2%nat) None in
  let Op2 := mkVPValue 3 (Some 3%nat) None in
  let R := mkVPWidenSelectRecipe (mkVPValue 4 (Some 4%nat) None) [Op0; Op1; Op2]
             (Some (UInstruction Inst)) true in
  let St := mkVPTransformState (mkElementCount 1 false) 2 None
              (<[(2%nat, 0%nat) := Argument 0 i32]>
                 (<[(2%nat, 1%nat) := Argument 1 i32]>
                    (<[(3%nat, 0%nat) := Argument 2 i32]>
                       {[ (3%nat, 1%nat) := Argument 3 i32 ]})))
              ∅ ∅
              (mkIRBuilderBase (IP_at 0) FMF_none 0 NoFolder)
              (mkIRStore 0 [] ∅ ∅ ∅ ∅ ∅)
              (mkCFGState 0 ∅ (fun _ => 0%nat)) 0 in
  exists St',
    VPWidenSelectRecipe_execute R St = Ok (tt, St') /\
    forall Part, (Part < 2)%nat ->
      exists id Cond A B,
        Cond = C /\
        PerPartOutput St !! (2%nat, Part) = Some A /\
        PerPartOutput St !! (3%nat, Part) = Some B /\
        PerPartOutput St' !! (4%nat, Part) = Some (SelectInst id Cond A B) /\
        Metadata (IR St') !! id = Some Inst.
Proof.
  intros i32 C Inst Op0 Op1 Op2 R St.
  apply (widened_select_condition R St (withDebugLocation 4 St) Inst Op0 Op1 Op2 C).
  - reflexivity.
  - reflexivity.
  - reflexivity.
  - reflexivity.
  - reflexivity.
  - reflexivity.
  - intros Part HPart. simpl in HPart.
    assert (Part = 0 \/ Part = 1)%nat as [-> | ->] by lia;
      split; eexists; reflexivity.
  - reflexivity.
Defined.

(** ** More on widened arithmetic, compares and casts *)

Lemma FastMathFlagGuard_restores {A : Type} (body : M A) :
  preserves emitterFMF (FastMathFlagGuard body).
Proof.
  intros St a St' H. unfold FastMathFlagGuard in H.
  unfold bind at 1 in H. simpl in H. unfold bind at 1 in H.
  destruct (body St) as [[b S1]| | |]; try discriminate.
  unfold bind at 1 in H. simpl in H. by injection H as _ <-.
Qed.

Lemma neverUnreachable_for_range (body : nat -> M unit) (n lo : nat) :
  (forall p, neverUnreachable (body p)) -> neverUnreachable (for_range lo n body).
Proof.
  intros Hb. revert lo. induction n as [|n IH]; intros lo; simpl.
  - apply neverUnreachable_ret.
  - apply neverUnreachable_bind; [apply Hb|]. intros _. apply IH.
Qed.

Lemma neverUnreachable_gatherOperands (Ops : list VPValue) (Part : nat) :
  neverUnreachable (gatherOperands Ops Part).
Proof.
  induction Ops as [|Op Ops IH]; simpl.
  - apply neverUnreachable_ret.
  - apply neverUnreachable_bind; [apply neverUnreachable_State_get|]. intros V.
    apply neverUnreachable_bind; [exact IH|]. intros Vs. apply neverUnreachable_ret.
Qed.

Lemma preserves_gatherOperands {X : Type} (proj : VPTransformState -> X)
  (Ops : list VPValue) (Part : nat) :
  preserves proj (gatherOperands Ops Part).
Proof.
  induction Ops as [|Op Ops IH]; simpl.
  - apply preserves_ret.
  - apply preserves_bind; [apply preserves_State_get|]. intros V.
    apply preserves_bind; [exact IH|]. intros Vs. apply preserves_ret.
Qed.

(** The structure of a lowering procedure with loops and guards. *)
Ltac keeps_loops tac :=
  repeat first
    [ apply preserves_for_range; intros ? ?
    | apply preserves_gatherOperands
    | apply FastMathFlagGuard_restores
    | apply preserves_FastMathFlagGuard; [reflexivity|]
    | apply preserves_ret
    | apply preserves_gets
    | apply preserves_assert
    | apply preserves_AssertionFailure
    | apply preserves_llvm_unreachable
    | apply preserves_unmodelled
    | apply preserves_liftResult
    | match goal with
      | |- preserves _ (InsertAt _ _ _) =>
          let H := fresh "H" in
          intros ? ? ? H; injection H as _ <-; reflexivity
      end
    | apply preserves_State_get
    | apply preserves_Terminator_eraseFromParent; intros ? ?; reflexivity
    | match goal with
      | |- preserves _ (State_set _ _ _) => tac
      end
    | apply preserves_modify; intros ?; reflexivity
    | apply preserves_bind; [|intros ?]
    | match goal with
      | |- preserves _ (match ?x with _ => _ end) => destruct x
      end ].

(** X17. What the lowering of a widened operation leaves alone. When
    execute returns, for any opcode, the vector width, the stream count, the
    per-lane cache, the poison set, the block bookkeeping and the emitter's
    insertion point and folder are as before; the emitter's fast-math flags
    are as before as well, also after a floating-point compare installed
    its own; and the cache entries of every other plan value are untouched. *)
Theorem VPWidenRecipe_execute_frame (R : VPWidenRecipe) (St St' : VPTransformState) :
  VPWidenRecipe_execute R St = Ok (tt, St') ->
  loweringFrame St' = loweringFrame St /\
  emitterFMF St' = emitterFMF St /\
  forall v Part, v <> VPValue_id (Widen_self R) ->
    PerPartOutput St' !! (v, Part) = PerPartOutput St !! (v, Part).
Proof.
  intros Hrun. split; [|split].
  - refine ((_ : preserves loweringFrame (VPWidenRecipe_execute R)) _ _ _ Hrun).
    unfold VPWidenRecipe_execute, VPWidenRecipe_widenArith. unfold_emitter.
    unfold State_set. keeps_loops idtac.
  - refine ((_ : preserves emitterFMF (VPWidenRecipe_execute R)) _ _ _ Hrun).
    unfold VPWidenRecipe_execute, VPWidenRecipe_widenArith. unfold_emitter.
    unfold State_set. keeps_loops idtac.
  - intros v Part Hv.
    refine ((_ : preserves (cacheAt (v, Part)) (VPWidenRecipe_execute R)) _ _ _ Hrun).
    unfold VPWidenRecipe_execute, VPWidenRecipe_widenArith. unfold_emitter.
    keeps_loops ltac:(apply preserves_State_set_other; intros [= ? ?]; congruence).
Qed.

Lemma VPWidenRecipe_execute_frame_witness :
  let f32 := FloatTy in
  let Inst := mkOrigInstruction Instruction.FCmp
                (mkIRFlags false false false (mkFMF true true true true true true true))
                (FCMP_other 1) (IntegerTy 1) 0 false false false in
  let R := mkVPWidenRecipe (mkVPValue 3 (Some 3%nat) None)
             [mkVPValue 1 (Some 1%nat) None; mkVPValue 2 (Some 2%nat) None]
             (Some (UInstruction Inst)) in
  let St := mkVPTransformState (mkElementCount 1 false) 2 None
              (<[(1%nat, 0%nat) := Argument 0 f32]>
                 (<[(1%nat, 1%nat) := Argument 1 f32]>
                    (<[(2%nat, 0%nat) := Argument 2 f32]>
                       {[ (2%nat, 1%nat) := Argument 3 f32 ]})))
              ∅ ∅
              (mkIRBuilderBase (IP_at 0) FMF_none 0 NoFolder)
              (mkIRStore 0 [] ∅ ∅ ∅ ∅ ∅)
              (mkCFGState 0 ∅ (fun _ => 0%nat)) 0 in
  exists St',
    VPWidenRecipe_execute R St = Ok (tt, St') /\
    loweringFrame St' = loweringFrame St /\
    emitterFMF St' = emitterFMF St /\
    forall v Part, v <> 3%nat ->
      PerPartOutput St' !! (v, Part) = PerPartOutput St !! (v, Part).
Proof.
  intros f32 Inst R St.
  destruct (VPWidenRecipe_execute R St) as [[[] St']| | |] eqn:Hrun;
    try (vm_compute in Hrun; discriminate).
  exists St'. split; [reflexivity|].
  apply (VPWidenRecipe_execute_frame R St St'). exact Hrun.
Defined.

(** X18. execute of a widened operation ends in llvm_unreachable exactly
    when the original instruction's opcode is one it does not widen itself:
    call, branch, phi, address computation and select belong to other
    recipes, loads, stores and the rest are not widened at all. The opcodes
    it widens are the unary and binary operations, freeze, the two compares
    and the casts. *)
Theorem VPWidenRecipe_unreachable_iff (R : VPWidenRecipe) (Inst : OrigInstruction)
  (St : VPTransformState) :
  Widen_UnderlyingValue R = Some (UInstruction Inst) ->
  (exists msg, VPWidenRecipe_execute R St = Unreachable msg) <->
  VPWidenRecipe_hasLowering (getOpcode Inst) = false.
Proof.
  intros Hund. split.
  - intros [msg H].
    destruct (VPWidenRecipe_hasLowering (getOpcode Inst)) eqn:Hl; [|reflexivity].
    exfalso. revert St msg H.
    change (neverUnreachable (VPWidenRecipe_execute R)).
    unfold VPWidenRecipe_execute. rewrite Hund. simpl.
    destruct (getOpcode Inst) eqn:Hopc; try discriminate.
    all: unfold State_setDebugLocFromInst, Builder_SetCurrentDebugLocation.
    all: apply neverUnreachable_bind; [apply neverUnreachable_modify|]; intros _.
    all: repeat (apply neverUnreachable_bind; [apply neverUnreachable_gets|]; intros ?).
    all: apply neverUnreachable_for_range; intros Part.
    all: unfold VPWidenRecipe_widenArith, FastMathFlagGuard; rewrite ?Hopc.
    all: unfold_emitter; unfold State_set.
    all: repeat first [ apply neverUnreachable_gatherOperands | progress reaches ].
  - intros Hl. unfold VPWidenRecipe_execute. rewrite Hund. simpl.
    destruct (getOpcode Inst); try discriminate; eexists; reflexivity.
Qed.

Lemma VPWidenRecipe_unreachable_iff_witness :
  let Inst := mkOrigInstruction Instruction.Load IRFlags_none ICMP_EQ (IntegerTy 32) 0
                false true false in
  let R := mkVPWidenRecipe (mkVPValue 3 (Some 3%nat) None) []
             (Some (UInstruction Inst)) in
  let St := mkVPTransformState (mkElementCount 4 false) 2 None ∅ ∅ ∅
              (mkIRBuilderBase (IP_at 0) FMF_none 0 NoFolder)
              (mkIRStore 0 [] ∅ ∅ ∅ ∅ ∅)
              (mkCFGState 0 ∅ (fun _ => 0%nat)) 0 in
  (exists msg, VPWidenRecipe_execute R St = Unreachable msg) <->
  VPWidenRecipe_hasLowering (getOpcode Inst) = false.
Proof.
  intros Inst R St. apply (VPWidenRecipe_unreachable_iff R Inst St). reflexivity.
Defined.

(** X19. A widened compare. With both operands in the cache for every
    stream and a folder that leaves the compare alone, execute returns; the
    value of stream s is a new compare, with the original predicate, of the
    operands' values of stream s, with the original's metadata. A
    floating-point compare carries the fast-math flags of the original
    compare, not those of the emitter, and the emitter has its own flags
    back afterwards; an integer compare carries no flags. *)
Theorem widened_compare_flags (R : VPWidenRecipe) (St : VPTransformState)
  (Inst : OrigInstruction) (Op0 Op1 : VPValue) :
  Widen_UnderlyingValue R = Some (UInstruction Inst) ->
  getOpcode Inst = Instruction.ICmp \/ getOpcode Inst = Instruction.FCmp ->
  Widen_Operands R !! 0%nat = Some Op0 ->
  Widen_Operands R !! 1%nat = Some Op1 ->
  (forall Part, (Part < UF St)%nat ->
     is_Some (PerPartOutput St !! (VPValue_id Op0, Part)) /\
     is_Some (PerPartOutput St !! (VPValue_id Op1, Part))) ->
  (forall a b, FoldCmp (Folder (Builder St)) (getPredicate Inst) a b = None) ->
  exists St',
    VPWidenRecipe_execute R St = Ok (tt, St') /\
    emitterFMF St' = emitterFMF St /\
    forall Part, (Part < UF St)%nat ->
      exists id A B,
        PerPartOutput St !! (VPValue_id Op0, Part) = Some A /\
        PerPartOutput St !! (VPValue_id Op1, Part) = Some B /\
        PerPartOutput St' !! (VPValue_id (Widen_self R), Part)
          = Some (match getOpcode Inst with
                  | Instruction.FCmp => FCmpInst id (getPredicate Inst) A B
                  | _ => ICmpInst id (getPredicate Inst) A B
                  end) /\
        InstFlags (IR St') !! id
          = Some (match getOpcode Inst with
                  | Instruction.FCmp =>
                      mkIRFlags false false false (InstFMF (getIRFlags Inst))
                  | _ => IRFlags_none
                  end) /\
        Metadata (IR St') !! id = Some Inst.
Proof.
  intros Hund Hopc H0 H1 Hops Hfold.
  set (self := VPValue_id (Widen_self R)).
  set (St0 := withDebugLocation (getDebugLoc Inst) St).
  set (mk := fun id A B => match getOpcode Inst with
                           | Instruction.FCmp => FCmpInst id (getPredicate Inst) A B
                           | _ => ICmpInst id (getPredicate Inst) A B
                           end).
  set (flags := match getOpcode Inst with
                | Instruction.FCmp =>
                    mkIRFlags false false false (InstFMF (getIRFlags Inst))
                | _ => IRFlags_none
                end).
  assert (Hexec : VPWidenRecipe_execute R St
            = for_range 0 (UF St) (fun Part =>
                Op0 <- getOperand (Widen_Operands R) 0 ;;
                A <- State_get Op0 Part ;;
                Op1 <- getOperand (Widen_Operands R) 1 ;;
                B <- State_get Op1 Part ;;
                C <- (if match getOpcode Inst with
                         | Instruction.FCmp => true
                         | _ => false
                         end
                      then
                        FastMathFlagGuard (
                          Builder_setFastMathFlags (InstFMF (getIRFlags Inst)) ;;
                          Bd <- gets Builder ;;
                          CreateFCmp Bd (getPredicate Inst) A B)
                      else
                        Bd <- gets Builder ;;
                        CreateICmp Bd (getPredicate Inst) A B) ;;
                State_set (Widen_self R) C Part ;;
                State_addMetadata C Inst) St0).
  { unfold VPWidenRecipe_execute. rewrite Hund. simpl.
    destruct Hopc as [-> | ->]; reflexivity. }
  rewrite Hexec.
  match goal with
  | |- context [for_range 0 (UF St) ?body St0] =>
      destruct (for_range_inv
                  (fun p S0 =>
                     Builder S0 = Builder St0 /\
                     (forall k, (forall q, (q < p)%nat -> k <> (self, q)) ->
                        PerPartOutput S0 !! k = PerPartOutput St !! k) /\
                     forall q, (q < p)%nat ->
                       exists id A B,
                         (id < NextId (IR S0))%nat /\
                         PerPartOutput St !! (VPValue_id Op0, q) = Some A /\
                         PerPartOutput St !! (VPValue_id Op1, q) = Some B /\
                         PerPartOutput S0 !! (self, q) = Some (mk id A B) /\
                         InstFlags (IR S0) !! id = Some flags /\
                         Metadata (IR S0) !! id = Some Inst)
                  body (UF St) 0 St0)
        as (Send & Hloop & HBend & _ & Hall)
  end.
  { split; [reflexivity|]. split; [intros k _; reflexivity|]. intros q Hq. lia. }
  { intros p S0 Hp (HB0 & Hframe & Hdone).
    destruct (Hops p ltac:(lia)) as [[A HA] [B HB]].
    assert (HA0 : PerPartOutput S0 !! (VPValue_id Op0, p) = Some A).
    { rewrite Hframe; [exact HA|]. intros q Hq [= _ ->]. lia. }
    assert (HB1 : PerPartOutput S0 !! (VPValue_id Op1, p) = Some B).
    { rewrite Hframe; [exact HB|]. intros q Hq [= _ ->]. lia. }
    assert (HFo : FoldCmp (Folder (Builder S0)) (getPredicate Inst) A B = None).
    { rewrite HB0. apply Hfold. }
    assert (Hstep : exists S1,
      (Op0 <- getOperand (Widen_Operands R) 0 ;;
       A <- State_get Op0 p ;;
       Op1 <- getOperand (Widen_Operands R) 1 ;;
       B <- State_get Op1 p ;;
       C <- (if match getOpcode Inst with
                | Instruction.FCmp => true
                | _ => false
                end
             then
               FastMathFlagGuard (
                 Builder_setFastMathFlags (InstFMF (getIRFlags Inst)) ;;
                 Bd <- gets Builder ;;
                 CreateFCmp Bd (getPredicate Inst) A B)
             else
               Bd <- gets Builder ;;
               CreateICmp Bd (getPredicate Inst) A B) ;;
       State_set (Widen_self R) C p ;;
       State_addMetadata C Inst) S0 = Ok (tt, S1) /\
      Builder S1 = Builder S0 /\
      NextId (IR S1) = S (NextId (IR S0)) /\
      PerPartOutput S1 = <[(self, p) := mk (NextId (IR S0)) A B]> (PerPartOutput S0) /\
      InstFlags (IR S1) = <[NextId (IR S0) := flags]> (InstFlags (IR S0)) /\
      Metadata (IR S1) = <[NextId (IR S0) := Inst]> (Metadata (IR S0))).
    { unfold getOperand, State_get, FastMathFlagGuard, Builder_setFastMathFlags,
        CreateFCmp, CreateICmp, State_set, State_addMetadata, Builder_Insert, InsertAt.
      rewrite H0, H1. subst mk flags.
      destruct Hopc as [Ho | Ho]; rewrite Ho;
        unfold bind, modify, gets, ret; simpl;
        rewrite HA0; simpl; rewrite HB1; simpl; rewrite HFo; simpl;
        (eexists; split; [reflexivity|]); simpl; repeat split; try reflexivity.
      by destruct S0 as [? ? ? ? ? ? [] ? ? ?]. }
    destruct Hstep as (S1 & Hrun & HB1' & HN & HC & HI & HM).
    exists S1. split; [exact Hrun|]. repeat split.
    - congruence.
    - intros k Hk. rewrite HC.
      rewrite lookup_insert_ne by (intros <-; apply (Hk p); [lia|reflexivity]).
      apply Hframe. intros q Hq. apply Hk. lia.
    - intros q Hq. destruct (decide (q = p)) as [->|Hne].
      + exists (NextId (IR S0)), A, B. rewrite HN, HC, HI, HM.
        rewrite !lookup_insert_eq. repeat split; auto.
      + destruct (Hdone q ltac:(lia)) as (id & A' & B' & Hid & HA' & HB' & Hc & Hfl & Hmd).
        exists id, A', B'. rewrite HN, HC, HI, HM.
        rewrite !lookup_insert_ne by (try lia; intros [= ?]; lia).
        repeat split; auto. }
  exists Send. split; [exact Hloop|]. split.
  - unfold emitterFMF. rewrite HBend. reflexivity.
  - intros Part HP.
    destruct (Hall Part HP) as (id & A & B & _ & HA & HB & Hc & Hfl & Hmd).
    exists id, A, B. auto.
Qed.

Lemma widened_compare_flags_witness :
  let f32 := FloatTy in
  let fast := mkFMF true true true true true true true in
  let Inst := mkOrigInstruction Instruction.FCmp (mkIRFlags false false false fast)
                (FCMP_other 1) (IntegerTy 1) 0 false false false in
  let Op0 := mkVPValue 1 (Some 1%nat) None in
  let Op1 := mkVPValue 2 (Some 2%nat) None in
  let R := mkVPWidenRecipe (mkVPValue 3 (Some 3%nat) None) [Op0; Op1]
             (Some (UInstruction Inst)) in
  let St := mkVPTransformState (mkElementCount 1 false) 2 None
              (<[(1%nat, 0%nat) := Argument 0 f32]>
                 (<[(1%nat, 1%nat) := Argument 1 f32]>
                    (<[(2%nat, 0%nat) := Argument 2 f32]>
                       {[ (2%nat, 1%nat) := Argument 3 f32 ]})))
              ∅ ∅
              (mkIRBuilderBase (IP_at 0) FMF_none 0 NoFolder)
              (mkIRStore 0 [] ∅ ∅ ∅ ∅ ∅)
              (mkCFGState 0 ∅ (fun _ => 0%nat)) 0 in
  exists St',
    VPWidenRecipe_execute R St = Ok (tt, St') /\
    emitterFMF St' = FMF_none /\
    forall Part, (Part < 2)%nat ->
      exists id A B,
        PerPartOutput St !! (1%nat, Part) = Some A /\
        PerPartOutput St !! (2%nat, Part) = Some B /\
        PerPartOutput St' !! (3%nat, Part) = Some (FCmpInst id (FCMP_other 1) A B) /\
        InstFlags (IR St') !! id = Some (mkIRFlags false false false fast) /\
        Metadata (IR St') !! id = Some Inst.
Proof.
  intros f32 fast Inst Op0 Op1 R St.
  apply (widened_compare_flags R St Inst Op0 Op1).
  - reflexivity.
  - right. reflexivity.
  - reflexivity.
  - reflexivity.
  - intros Part HPart. simpl in HPart.
    assert (Part = 0 \/ Part = 1)%nat as [-> | ->] by lia;
      split; eexists; reflexivity.
  - reflexivity.
Defined.

(** X20. A widened cast. The destination type is the original cast's type
    for a scalar width and the vector of that type otherwise. With the
    operand in the cache for every stream and a folder that leaves the cast
    alone, execute returns, and the value of every stream has the
    destination type: it is the operand's value itself when that already
    has the destination type, and a new cast instruction of it otherwise. *)
Theorem widened_cast_type (R : VPWidenRecipe) (St : VPTransformState)
  (Inst : OrigInstruction) (opc : Instruction.CastOps) (Op0 : VPValue) :
  Widen_UnderlyingValue R = Some (UInstruction Inst) ->
  getOpcode Inst = Instruction.Cast opc ->
  Widen_Operands R !! 0%nat = Some Op0 ->
  (forall Part, (Part < UF St)%nat ->
     is_Some (PerPartOutput St !! (VPValue_id Op0, Part))) ->
  (forall a t, FoldCast (Folder (Builder St)) opc a t = None) ->
  let DestTy := if ElementCount_isScalar (VF St) then getInstType Inst
                else VectorType_get (getInstType Inst) (VF St) in
  exists St',
    VPWidenRecipe_execute R St = Ok (tt, St') /\
    forall Part, (Part < UF St)%nat ->
      exists A V,
        PerPartOutput St !! (VPValue_id Op0, Part) = Some A /\
        PerPartOutput St' !! (VPValue_id (Widen_self R), Part) = Some V /\
        getType V = DestTy /\
        (getType A = DestTy -> V = A) /\
        (getType A <> DestTy -> exists id, V = CastInst id opc A DestTy).
Proof.
  intros Hund Hopc H0 Hops Hfold DestTy.
  set (self := VPValue_id (Widen_self R)).
  set (St0 := withDebugLocation (getDebugLoc Inst) St).
  assert (Hexec : VPWidenRecipe_execute R St
            = for_range 0 (UF St) (fun Part =>
                Op0 <- getOperand (Widen_Operands R) 0 ;;
                A <- State_get Op0 Part ;;
                Bd <- gets Builder ;;
                Cast <- CreateCast Bd opc A DestTy ;;
                State_set (Widen_self R) Cast Part ;;
                State_addMetadata Cast Inst) St0).
  { unfold VPWidenRecipe_execute. rewrite Hund. simpl. rewrite Hopc. reflexivity. }
  rewrite Hexec.
  match goal with
  | |- context [for_range 0 (UF St) ?body St0] =>
      destruct (for_range_inv
                  (fun p S0 =>
                     Builder S0 = Builder St0 /\
                     (forall k, (forall q, (q < p)%nat -> k <> (self, q)) ->
                        PerPartOutput S0 !! k = PerPartOutput St !! k) /\
                     forall q, (q < p)%nat ->
                       exists A V,
                         PerPartOutput St !! (VPValue_id Op0, q) = Some A /\
                         PerPartOutput S0 !! (self, q) = Some V /\
                         getType V = DestTy /\
                         (getType A = DestTy -> V = A) /\
                         (getType A <> DestTy -> exists id, V = CastInst id opc A DestTy))
                  body (UF St) 0 St0)
        as (Send & Hloop & _ & _ & Hall)
  end.
  { split; [reflexivity|]. split; [intros k _; reflexivity|]. intros q Hq. lia. }
  { intros p S0 Hp (HB0 & Hframe & Hdone).
    destruct (Hops p ltac:(lia)) as [A HA].
    assert (HA0 : PerPartOutput S0 !! (VPValue_id Op0, p) = Some A).
    { rewrite Hframe; [exact HA|]. intros q Hq [= _ ->]. lia. }
    assert (HFo : FoldCast (Folder (Builder S0)) opc A DestTy = None).
    { rewrite HB0. apply Hfold. }
    assert (Hstep : exists S1 V,
      (Op0 <- getOperand (Widen_Operands R) 0 ;;
       A <- State_get Op0 p ;;
       Bd <- gets Builder ;;
       Cast <- CreateCast Bd opc A DestTy ;;
       State_set (Widen_self R) Cast p ;;
       State_addMetadata Cast Inst) S0 = Ok (tt, S1) /\
      Builder S1 = Builder S0 /\
      PerPartOutput S1 = <[(self, p) := V]> (PerPartOutput S0) /\
      getType V = DestTy /\
      (getType A = DestTy -> V = A) /\
      (getType A <> DestTy -> exists id, V = CastInst id opc A DestTy)).
    { unfold getOperand, State_get, CreateCast, State_set, State_addMetadata,
        Builder_Insert, InsertAt.
      rewrite H0. unfold bind at 1. unfold ret at 1. unfold bind at 1. rewrite HA0.
      unfold bind at 1. unfold gets at 1.
      destruct (bool_decide (getType A = DestTy)) eqn:Hty.
      - apply bool_decide_eq_true in Hty.
        unfold bind at 1. unfold ret at 1. unfold bind at 1. unfold modify at 1.
        destruct (dyn_cast_Instruction A); (eexists _, A; split; [reflexivity|]);
          simpl; repeat split; auto; intros; contradiction.
      - apply bool_decide_eq_false in Hty. rewrite HFo.
        unfold bind, modify. simpl.
        eexists _, _; split; [reflexivity|]; simpl; repeat split; auto.
        + intros; contradiction.
        + intros _. eexists. reflexivity. }
    destruct Hstep as (S1 & V & Hrun & HB1 & HC & HTy & Hsame & Hnew).
    exists S1. split; [exact Hrun|]. repeat split.
    - congruence.
    - intros k Hk. rewrite HC.
      rewrite lookup_insert_ne by (intros <-; apply (Hk p); [lia|reflexivity]).
      apply Hframe. intros q Hq. apply Hk. lia.
    - intros q Hq. destruct (decide (q = p)) as [->|Hne].
      + exists A, V. rewrite HC, lookup_insert_eq. repeat split; auto.
      + destruct (Hdone q ltac:(lia)) as (A' & V' & HA' & Hc & HT' & Hs' & Hn').
        exists A', V'. rewrite HC.
        rewrite lookup_insert_ne by (intros [= ?]; lia).
        repeat split; auto. }
  exists Send. split; [exact Hloop|]. exact Hall.
Qed.

Lemma widened_cast_type_witness :
  let i32 := IntegerTy 32 in
  let i64 := IntegerTy 64 in
  let VF0 := mkElementCount 4 false in
  let Inst := mkOrigInstruction (Instruction.Cast Instruction.ZExt) IRFlags_none
                ICMP_EQ i64 0 false false false in
  let Op0 := mkVPValue 1 (Some 1%nat) None in
  let R := mkVPWidenRecipe (mkVPValue 3 (Some 3%nat) None) [Op0]
             (Some (UInstruction Inst)) in
  let St := mkVPTransformState VF0 2 None
              (<[(1%nat, 0%nat) := Argument 0 (VectorTy i32 VF0)]>
                 {[ (1%nat, 1%nat) := Argument 1 (VectorTy i32 VF0) ]})
              ∅ ∅
              (mkIRBuilderBase (IP_at 0) FMF_none 0 NoFolder)
              (mkIRStore 0 [] ∅ ∅ ∅ ∅ ∅)
              (mkCFGState 0 ∅ (fun _ => 0%nat)) 0 in
  exists St',
    VPWidenRecipe_execute R St = Ok (tt, St') /\
    forall Part, (Part < 2)%nat ->
      exists A V,
        PerPartOutput St !! (1%nat, Part) = Some A /\
        PerPartOutput St' !! (3%nat, Part) = Some V /\
        getType V = VectorTy i64 VF0 /\
        (getType A = VectorTy i64 VF0 -> V = A) /\
        (getType A <> VectorTy i64 VF0 ->
         exists id, V = CastInst id Instruction.ZExt A (VectorTy i64 VF0)).
Proof.
  intros i32 i64 VF0 Inst Op0 R St.
  apply (widened_cast_type R St Inst Instruction.ZExt Op0).
  - reflexivity.
  - reflexivity.
  - reflexivity.
  - intros Part HPart. simpl in HPart.
    assert (Part = 0 \/ Part = 1)%nat as [-> | ->] by lia; eexists; reflexivity.
  - reflexivity.
Defined.

(** ** Canonical scalar steps *)

(** X21. The scalar steps of an induction are canonical exactly when the
    start operand is the very plan value that the canonical induction
    starts from, and the step operand is a live-in that stands for the
    integer constant one. On a recipe with its three operands whose first
    operand is a canonical induction phi the check always returns: unlike
    the check of the widened induction it answers no, without an assertion,
    for a step that a recipe defines or that has no IR value. *)
Theorem scalar_steps_isCanonical (CanonicalIVs : gmap nat VPCanonicalIVPHIRecipe)
  (R : VPScalarIVStepsRecipe) (Op0 Start Step : VPValue) (r : nat)
  (CanIV : VPCanonicalIVPHIRecipe) :
  Steps_Operands R !! 0%nat = Some Op0 ->
  Steps_Operands R !! 1%nat = Some Start ->
  Steps_Operands R !! 2%nat = Some Step ->
  VPValue_getDef Op0 = Some r ->
  CanonicalIVs !! r = Some CanIV ->
  exists b,
    VPScalarIVStepsRecipe_isCanonical CanonicalIVs R = Ok b /\
    (b = true <->
       (exists s, CanIV_Operands CanIV !! 0%nat = Some s /\
                  VPValue_id s = VPValue_id Start) /\
       VPValue_getDef Step = None /\
       exists bits, VPValue_UnderlyingVal Step = Some (ConstantInt bits 1)).
Proof.
  intros H0 H1 H2 Hdef Hcan.
  unfold VPScalarIVStepsRecipe_isCanonical, VPScalarIVStepsRecipe_getCanonicalIV,
    Steps_getStartValue, Steps_getStepValue, Operand, VPHeaderPHIRecipe_getStartValue,
    sameVPValue, VPValue_getLiveInIRValue.
  rewrite H0, H1, H2. simpl. rewrite Hdef. simpl. rewrite Hcan. simpl.
  destruct (CanIV_Operands CanIV !! 0%nat) as [s|] eqn:Hs; simpl.
  - destruct (Nat.eqb_spec (VPValue_id s) (VPValue_id Start)) as [Heq|Hne]; simpl.
    + destruct (VPValue_getDef Step) as [d|] eqn:Hd; simpl.
      * exists false. split; [reflexivity|]. split; [discriminate|].
        intros (_ & Hn & _). discriminate.
      * destruct (VPValue_UnderlyingVal Step) as [v|] eqn:Hu; simpl.
        -- destruct v; simpl;
             try (exists false; split; [reflexivity|]; split; [discriminate|];
                  intros (_ & _ & bits' & Hb); discriminate).
           unfold ConstantInt_isOne. eexists. split; [reflexivity|]. split.
           ++ intros Hv. apply Z.eqb_eq in Hv. subst. eauto 6.
           ++ intros (_ & _ & bits' & Hb). injection Hb as _ ->. reflexivity.
        -- exists false. split; [reflexivity|]. split; [discriminate|].
           intros (_ & _ & bits' & Hb). discriminate.
    + exists false. split; [reflexivity|]. split; [discriminate|].
      intros ((s' & Hs' & Hid) & _). injection Hs' as <-. contradiction.
  - exists false. split; [reflexivity|]. split; [discriminate|].
    intros ((s' & Hs' & _) & _). discriminate.
Qed.

Lemma scalar_steps_isCanonical_witness :
  let start := mkVPValue 5 None (Some (ConstantInt 64 0)) in
  let CanIV := mkVPCanonicalIVPHIRecipe (mkVPValue 1 (Some 1%nat) None) [start] 0 in
  let Op0 := mkVPValue 1 (Some 1%nat) None in
  let Step := mkVPValue 6 None (Some (ConstantInt 64 1)) in
  let R := mkVPScalarIVStepsRecipe [Op0; start; Step] in
  exists b,
    VPScalarIVStepsRecipe_isCanonical {[ 1%nat := CanIV ]} R = Ok b /\
    (b = true <->
       (exists s, CanIV_Operands CanIV !! 0%nat = Some s /\
                  VPValue_id s = VPValue_id start) /\
       VPValue_getDef Step = None /\
       exists bits, VPValue_UnderlyingVal Step = Some (ConstantInt bits 1)).
Proof.
  intros start CanIV Op0 Step R.
  apply (scalar_steps_isCanonical {[ 1%nat := CanIV ]} R Op0 start Step 1 CanIV);
    reflexivity.
Defined.

(** ** Header phis *)

(** A loop that stores one value for every stream. *)
Lemma set_all_parts (Def : VPValue) (V : Value) (n : nat) (St : VPTransformState) :
  exists St',
    for_range 0 n (fun Part => State_set Def V Part) St = Ok (tt, St') /\
    IR St' = IR St /\ Builder St' = Builder St /\
    (forall Part, (Part < n)%nat ->
       PerPartOutput St' !! (VPValue_id Def, Part) = Some V) /\
    (forall k, (forall Part, (Part < n)%nat -> k <> (VPValue_id Def, Part)) ->
       PerPartOutput St' !! k = PerPartOutput St !! k).
Proof.
  destruct (for_range_inv
              (fun p S0 =>
                 IR S0 = IR St /\ Builder S0 = Builder St /\
                 (forall q, (q < p)%nat ->
                    PerPartOutput S0 !! (VPValue_id Def, q) = Some V) /\
                 (forall k, (forall q, (q < p)%nat -> k <> (VPValue_id Def, q)) ->
                    PerPartOutput S0 !! k = PerPartOutput St !! k))
              (fun Part => State_set Def V Part) n 0 St)
    as (St' & Hrun & HI & HB & Hall & Hframe).
  { repeat split; try reflexivity. intros q Hq. lia. }
  { intros p S0 Hp (HI & HB & Hdone & Hframe).
    eexists. split; [reflexivity|]. simpl. repeat split; auto.
    - intros q Hq. destruct (decide (q = p)) as [->|Hne].
      + apply lookup_insert_eq.
      + rewrite lookup_insert_ne by (intros [= ?]; lia). apply Hdone. lia.
    - intros k Hk.
      rewrite lookup_insert_ne by (intros <-; apply (Hk p); [lia|reflexivity]).
      apply Hframe. intros q Hq. apply Hk. lia. }
  exists St'. auto.
Qed.

(** X22. The canonical induction phi is one object for all streams. With a
    live-in start value that stands for an IR value, execute returns; it
    creates exactly one phi, of the start value's type, at the first
    insertion point of the previous block; the phi has exactly one incoming
    edge, the start value from the preheader; the cache entry of every
    stream is that same phi; no other cache entry and nothing of the emitter
    changes. *)
Theorem canonical_iv_phi_shared (R : VPCanonicalIVPHIRecipe) (St : VPTransformState)
  (StartVPV : VPValue) (Start : Value) :
  CanIV_Operands R !! 0%nat = Some StartVPV ->
  VPValue_getDef StartVPV = None ->
  VPValue_UnderlyingVal StartVPV = Some Start ->
  let Phi := PHINode (NextId (IR St)) (getType Start) in
  exists St',
    VPCanonicalIVPHIRecipe_execute R St = Ok (tt, St') /\
    Emitted (IR St')
      = Emitted (IR St) ++ [(IP_firstInsertionPt (PrevBB (CFG St)), Phi)] /\
    Incoming (IR St') !! NextId (IR St)
      = Some [(Start, getPreheaderBBFor (CFG St) (VPValue_id (CanIV_self R)))] /\
    (forall Part, (Part < UF St)%nat ->
       PerPartOutput St' !! (VPValue_id (CanIV_self R), Part) = Some Phi) /\
    (forall k, (forall Part, (Part < UF St)%nat ->
                  k <> (VPValue_id (CanIV_self R), Part)) ->
       PerPartOutput St' !! k = PerPartOutput St !! k) /\
    Builder St' = Builder St.
Proof.
  intros H0 Hdef Hund Phi.
  unfold VPCanonicalIVPHIRecipe_execute, HeaderPHI_StartIRValue,
    VPHeaderPHIRecipe_getStartValue, VPValue_getLiveInIRValue, liftResult,
    PHINode_Create, PHINode_addIncoming, InsertAt.
  rewrite H0. unfold bind, ret, gets, modify. simpl.
  rewrite Hdef. simpl. rewrite Hund. simpl.
  match goal with
  | |- context [for_range 0 (UF St) _ ?Sa] =>
      destruct (set_all_parts (CanIV_self R) Phi (UF St) Sa)
        as (St' & Hrun & HI & HB & Hall & Hframe)
  end.
  exists St'. split; [exact Hrun|]. rewrite HI, HB. simpl.
  split; [reflexivity|]. split.
  - rewrite lookup_insert_eq, lookup_insert_eq. reflexivity.
  - repeat split; auto.
Qed.

Lemma canonical_iv_phi_shared_witness :
  let Start := ConstantInt 64 0 in
  let StartVPV := mkVPValue 5 None (Some Start) in
  let R := mkVPCanonicalIVPHIRecipe (mkVPValue 1 (Some 1%nat) None) [StartVPV] 0 in
  let St := mkVPTransformState (mkElementCount 4 false) 2 None ∅ ∅ ∅
              (mkIRBuilderBase (IP_at 7) FMF_none 0 NoFolder)
              (mkIRStore 3 [] ∅ ∅ ∅ ∅ ∅)
              (mkCFGState 7 ∅ (fun _ => 6%nat)) 7 in
  let Phi := PHINode 3 (IntegerTy 64) in
  exists St',
    VPCanonicalIVPHIRecipe_execute R St = Ok (tt, St') /\
    Emitted (IR St') = [(IP_firstInsertionPt 7, Phi)] /\
    Incoming (IR St') !! 3%nat = Some [(Start, 6%nat)] /\
    (forall Part, (Part < 2)%nat -> PerPartOutput St' !! (1%nat, Part) = Some Phi) /\
    (forall k, (forall Part, (Part < 2)%nat -> k <> (1%nat, Part)) ->
       PerPartOutput St' !! k = PerPartOutput St !! k) /\
    Builder St' = Builder St.
Proof.
  intros Start StartVPV R St Phi.
  apply (canonical_iv_phi_shared R St StartVPV Start); reflexivity.
Defined.

(** X23. The expansion of a closed-form expression is done once: with no
    instance set, execute calls the expander once, at the emitter's
    insertion point, and stores the one value it returns for every stream;
    nothing else changes after the expander returned. With an instance set
    it fails its assertion and the expander is not called. *)
Theorem expand_scev_once (expandCodeFor : SCEV -> InsertPoint -> M Value)
  (R : VPExpandSCEVRecipe) (St : VPTransformState) :
  (forall Res S1,
     Instance St = None ->
     expandCodeFor (ExpandSCEV_Expr R) (InsertPt (Builder St)) St = Ok (Res, S1) ->
     exists St',
       VPExpandSCEVRecipe_execute expandCodeFor R St = Ok (tt, St') /\
       IR St' = IR S1 /\ Builder St' = Builder S1 /\
       (forall Part, (Part < UF S1)%nat ->
          PerPartOutput St' !! (VPValue_id (ExpandSCEV_self R), Part) = Some Res) /\
       (forall k, (forall Part, (Part < UF S1)%nat ->
                     k <> (VPValue_id (ExpandSCEV_self R), Part)) ->
          PerPartOutput St' !! k = PerPartOutput S1 !! k)) /\
  (forall i, Instance St = Some i ->
     VPExpandSCEVRecipe_execute expandCodeFor R St
       = AssertionFailure "cannot be used in per-lane").
Proof.
  split.
  - intros Res S1 Hinst Hexp.
    destruct (set_all_parts (ExpandSCEV_self R) Res (UF S1) S1)
      as (St' & Hrun & HI & HB & Hall & Hframe).
    exists St'. split; [|auto].
    unfold VPExpandSCEVRecipe_execute.
    unfold bind at 1. simpl. unfold bind at 1. unfold assert. rewrite Hinst. simpl.
    unfold bind at 1. simpl. unfold bind at 1. rewrite Hexp.
    unfold bind at 1. simpl. exact Hrun.
  - intros i Hinst. unfold VPExpandSCEVRecipe_execute.
    unfold bind at 1. simpl. unfold bind at 1. unfold assert. rewrite Hinst.
    reflexivity.
Qed.

Lemma expand_scev_once_witness :
  let expandCodeFor := fun (_ : SCEV) (ip : InsertPoint) =>
                         InsertAt ip (fun id => VScaleCall id (IntegerTy 64)) IRFlags_none in
  let R := mkVPExpandSCEVRecipe (mkVPValue 1 (Some 1%nat) None)
             (SCEVUnknown (Argument 0 (IntegerTy 64))) in
  let St := mkVPTransformState (mkElementCount 4 false) 2 None ∅ ∅ ∅
              (mkIRBuilderBase (IP_at 7) FMF_none 0 NoFolder)
              (mkIRStore 3 [] ∅ ∅ ∅ ∅ ∅)
              (mkCFGState 7 ∅ (fun _ => 6%nat)) 7 in
  exists St',
    VPExpandSCEVRecipe_execute expandCodeFor R St = Ok (tt, St') /\
    (forall Part, (Part < 2)%nat ->
       PerPartOutput St' !! (1%nat, Part) = Some (VScaleCall 3 (IntegerTy 64))).
Proof.
  intros expandCodeFor R St.
  destruct (proj1 (expand_scev_once expandCodeFor R St)
              (VScaleCall 3 (IntegerTy 64))
              (set_IR (fun F =>
                 mkIRStore 4 (Emitted F ++ [(IP_at 7, VScaleCall 3 (IntegerTy 64))])
                   (<[3%nat := IRFlags_none]> (InstFlags F))
                   (Incoming F) (Successors F) (Terminators F) (Metadata F)) St)
              eq_refl eq_refl)
    as (St' & Hrun & _ & _ & Hall & _).
  exists St'. split; [exact Hrun|exact Hall].
Defined.

(** *** Calls that only add to the function *)

Lemma runsInIR_ret {A : Type} (a : A) : runsInIR (ret a).
Proof. intros St. exists a, (IR St). by destruct St. Qed.

Lemma runsInIR_bind {A B : Type} (m : M A) (k : A -> M B) :
  runsInIR m -> (forall a, runsInIR (k a)) -> runsInIR (bind m k).
Proof.
  intros Hm Hk St. destruct (Hm St) as (a & F1 & H1).
  destruct (Hk a (set_IR (fun _ => F1) St)) as (b & F2 & H2).
  exists b, F2. unfold bind. rewrite H1, H2. reflexivity.
Qed.

Lemma runsInIR_InsertAt (ip : InsertPoint) (mk : nat -> Value) (f : IRFlags) :
  runsInIR (InsertAt ip mk f).
Proof. intros St. eexists _, _. unfold InsertAt, set_IR. simpl. reflexivity. Qed.

Lemma runsInIR_CreateBinOp (B : IRBuilderBase) (opc : Instruction.BinaryOps)
  (a b : Value) : runsInIR (CreateBinOp B opc a b).
Proof.
  unfold CreateBinOp, Builder_Insert.
  destruct (FoldBinOp _ _ _ _); [apply runsInIR_ret|apply runsInIR_InsertAt].
Qed.

Lemma runsInIR_getRuntimeVF (B : IRBuilderBase) (bits : N) (VF0 : ElementCount) :
  runsInIR (getRuntimeVF B bits VF0).
Proof.
  unfold getRuntimeVF, ConstantInt_get, CreateVScale, CreateMul, Builder_Insert.
  destruct (isScalable VF0); [|apply runsInIR_ret].
  destruct (ConstantInt_isZero _); [apply runsInIR_ret|].
  apply runsInIR_bind; [apply runsInIR_InsertAt|]. intros CI.
  destruct (ConstantInt_isOne _); [apply runsInIR_ret|apply runsInIR_CreateBinOp].
Qed.

Lemma State_set_checked_in_range (Def : VPValue) (V : Value) (Part : nat)
  (St : VPTransformState) :
  (Part < UF St)%nat -> State_set_checked Def V Part St = State_set Def V Part St.
Proof.
  intros H. unfold State_set_checked, bind, gets, assert.
  apply Nat.ltb_lt in H. by rewrite H.
Qed.

(** X24. The first-order recurrence phi. With a live-in start value that
    stands for an IR value and at least one stream, execute returns.
    However many streams there are, it stores a value for stream 0 only: a
    new phi of the recurrence type at the first insertion point of the
    previous block, with exactly one incoming edge, from the preheader. For
    a scalar width that edge carries the start value itself and nothing but
    the phi is created; for a vector width it carries the start value
    inserted into a poison vector (unless the folder folds the insertion).
    The emitter is as before afterwards. Without any stream the store of
    stream 0 fails its index check. *)
Theorem first_order_recurrence_phi (R : VPFirstOrderRecurrencePHIRecipe)
  (St : VPTransformState) (StartVPV : VPValue) (Start : Value) :
  FORPhi_Operands R !! 0%nat = Some StartVPV ->
  VPValue_getDef StartVPV = None ->
  VPValue_UnderlyingVal StartVPV = Some Start ->
  let VecTy := if ElementCount_isScalar (VF St) then getType Start
               else VectorType_get (getType Start) (VF St) in
  let VectorPH := getPreheaderBBFor (CFG St) (VPValue_id (FORPhi_self R)) in
  ((0 < UF St)%nat ->
   exists St' id VectorInit,
     VPFirstOrderRecurrencePHIRecipe_execute R St = Ok (tt, St') /\
     PerPartOutput St'
       = <[(VPValue_id (FORPhi_self R), 0%nat) := PHINode id VecTy]> (PerPartOutput St) /\
     Incoming (IR St') !! id = Some [(VectorInit, VectorPH)] /\
     (exists pre,
        Emitted (IR St')
          = pre ++ [(IP_firstInsertionPt (PrevBB (CFG St)), PHINode id VecTy)]) /\
     Builder St' = Builder St /\
     (if ElementCount_isVector (VF St)
      then exists LastIdx,
             match FoldInsertElement (Folder (Builder St)) (PoisonValue VecTy) Start
                     LastIdx with
             | Some V => VectorInit = V
             | None =>
                 exists id', VectorInit
                             = InsertElementInst id' (PoisonValue VecTy) Start LastIdx /\
                   (IP_beforeTerminator VectorPH, VectorInit) ∈ Emitted (IR St')
             end
      else VectorInit = Start /\ id = NextId (IR St) /\
           Emitted (IR St')
             = Emitted (IR St)
                 ++ [(IP_firstInsertionPt (PrevBB (CFG St)), PHINode id VecTy)])) /\
  (UF St = 0%nat ->
   VPFirstOrderRecurrencePHIRecipe_execute R St = AssertionFailure "idx < size()").
Proof.
  intros H0 Hdef Hund VecTy VectorPH.
  assert (Hlt : forall n : nat, (0 < n)%nat -> Nat.ltb 0 n = true)
    by (intros n Hn; by apply Nat.ltb_lt).
  assert (Hz : forall n : nat, n = 0%nat -> Nat.ltb 0 n = false)
    by (by intros n ->).
  (* the run up to the store of stream 0 *)
  assert (Hpre : exists Sp VectorInit,
    VPFirstOrderRecurrencePHIRecipe_execute R St
      = State_set_checked (FORPhi_self R) (PHINode (NextId (IR Sp)) VecTy) 0
          (set_IR (fun F =>
             mkIRStore (S (NextId (IR Sp)))
               (Emitted (IR Sp)
                  ++ [(IP_firstInsertionPt (PrevBB (CFG St)),
                       PHINode (NextId (IR Sp)) VecTy)])
               (<[NextId (IR Sp) := IRFlags_none]> (InstFlags (IR Sp)))
               (<[NextId (IR Sp) := [(VectorInit, VectorPH)]]> (Incoming (IR Sp)))
               (Successors (IR Sp)) (Terminators (IR Sp)) (Metadata (IR Sp))) St) /\
    (if ElementCount_isVector (VF St)
     then exists LastIdx,
            match FoldInsertElement (Folder (Builder St)) (PoisonValue VecTy) Start
                    LastIdx with
            | Some V => VectorInit = V
            | None =>
                exists id', VectorInit
                            = InsertElementInst id' (PoisonValue VecTy) Start LastIdx /\
                  (IP_beforeTerminator VectorPH, VectorInit) ∈ Emitted (IR Sp)
            end
     else VectorInit = Start /\ IR Sp = IR St)).
  { unfold VPFirstOrderRecurrencePHIRecipe_execute, HeaderPHI_StartIRValue,
      VPHeaderPHIRecipe_getStartValue, VPValue_getLiveInIRValue, liftResult.
    generalize (State_set_checked (FORPhi_self R)). intros K.
    rewrite H0.
    unfold bind at 1. unfold bind at 1. unfold ret at 1. unfold bind at 1.
    rewrite Hdef. simpl. rewrite Hund. unfold ret at 1.
    unfold bind at 1. unfold gets at 1. fold VecTy.
    unfold bind at 1. unfold gets at 1. fold VectorPH.
    destruct (ElementCount_isVector (VF St)) eqn:Hvec.
    - unfold InsertPointGuard, Builder_SetInsertPoint.
      unfold bind at 1. unfold bind at 1. unfold gets at 1.
      unfold bind at 1. unfold bind at 1. unfold modify at 1.
      unfold bind at 1. unfold gets at 1.
      set (Sg := withInsertPoint (IP_beforeTerminator VectorPH) St).
      set (Bd := Builder Sg).
      destruct (runsInIR_bind (getRuntimeVF Bd 32 (VF St))
                  (fun RuntimeVF => CreateSub Bd RuntimeVF (ConstantInt_get 32 1))
                  (runsInIR_getRuntimeVF Bd 32 (VF St))
                  (fun v => runsInIR_CreateBinOp Bd Instruction.Sub v _) Sg)
        as (LastIdx & F1 & Hidx).
      unfold bind at 1. unfold bind at 1 in Hidx.
      destruct (getRuntimeVF Bd 32 (VF St) Sg) as [[RuntimeVF Sr]| | |]; try discriminate.
      unfold bind at 1. rewrite Hidx.
      unfold CreateInsertElement, Builder_Insert, InsertAt.
      assert (HFo : Folder Bd = Folder (Builder St)) by reflexivity.
      rewrite HFo.
      unfold PHINode_Create, PHINode_addIncoming, InsertAt.
      destruct (FoldInsertElement (Folder (Builder St)) (PoisonValue VecTy) Start LastIdx)
        as [V|] eqn:Hfold.
      + exists (set_IR (fun _ => F1) St), V. split.
        * unfold bind, ret, gets, modify. simpl. f_equal.
          clear Hidx Hfold HFo. subst Sg Bd VecTy VectorPH.
          destruct St as [vf uf inst ppo pps mgp [ip fmf dl fo] ir cfg hdr].
          cbv [set_IR withDebugLocation withInsertPoint set_Builder
               VF UF Instance PerPartOutput PerPartScalars MayGeneratePoisonRecipes
               Builder IR CFG CurrentVectorLoopHeader
               InsertPt FMF CurrentDebugLocation Folder
               NextId Emitted InstFlags Incoming Successors Terminators Metadata].
          by rewrite lookup_insert_eq, insert_insert_eq.
        * exists LastIdx. rewrite Hfold. reflexivity.
      + exists (set_IR (fun _ =>
                  mkIRStore (S (NextId F1))
                    (Emitted F1
                       ++ [(IP_beforeTerminator VectorPH,
                            InsertElementInst (NextId F1) (PoisonValue VecTy) Start
                              LastIdx)])
                    (<[NextId F1 := IRFlags_none]> (InstFlags F1))
                    (Incoming F1) (Successors F1) (Terminators F1) (Metadata F1)) St),
               (InsertElementInst (NextId F1) (PoisonValue VecTy) Start LastIdx).
        split.
        * unfold bind, ret, gets, modify. simpl. f_equal.
          clear Hidx Hfold HFo. subst Sg Bd VecTy VectorPH.
          destruct St as [vf uf inst ppo pps mgp [ip fmf dl fo] ir cfg hdr].
          cbv [set_IR withDebugLocation withInsertPoint set_Builder
               VF UF Instance PerPartOutput PerPartScalars MayGeneratePoisonRecipes
               Builder IR CFG CurrentVectorLoopHeader
               InsertPt FMF CurrentDebugLocation Folder
               NextId Emitted InstFlags Incoming Successors Terminators Metadata].
          by rewrite lookup_insert_eq, insert_insert_eq.
        * exists LastIdx. rewrite Hfold. eexists. split; [reflexivity|]. simpl.
          rewrite elem_of_app, elem_of_cons. right. left. reflexivity.
    - exists St, Start. split; [|auto].
      unfold PHINode_Create, PHINode_addIncoming, InsertAt.
      unfold bind, ret, gets, modify. simpl. f_equal.
      unfold set_IR. simpl.
      by rewrite lookup_insert_eq, insert_insert_eq. }
  destruct Hpre as (Sp & VectorInit & Hrun & Hinit). rewrite Hrun. split.
  - intros HUF. rewrite State_set_checked_in_range by exact HUF.
    eexists _, (NextId (IR Sp)), VectorInit. split; [reflexivity|]. simpl.
    split; [reflexivity|]. split; [apply lookup_insert_eq|].
    split; [eexists; reflexivity|]. split; [reflexivity|].
    destruct (ElementCount_isVector (VF St)).
    + destruct Hinit as (LastIdx & Hinit). exists LastIdx.
      destruct (FoldInsertElement _ _ _ _); [exact Hinit|].
      destruct Hinit as (id' & HV & Hmem). exists id'. split; [exact HV|].
      rewrite elem_of_app. by left.
    + destruct Hinit as [-> ->]. auto.
  - intros HUF. unfold State_set_checked, bind, gets, assert. simpl.
    rewrite (Hz _ HUF). reflexivity.
Qed.

Lemma first_order_recurrence_phi_witness :
  let i32 := IntegerTy 32 in
  let Start := Argument 0 i32 in
  let StartVPV := mkVPValue 5 None (Some Start) in
  let R := mkVPFirstOrderRecurrencePHIRecipe (mkVPValue 1 (Some 1%nat) None)
             [StartVPV] in
  let VF0 := mkElementCount 4 false in
  let St := mkVPTransformState VF0 2 None ∅ ∅ ∅
              (mkIRBuilderBase (IP_at 7) FMF_none 0 NoFolder)
              (mkIRStore 3 [] ∅ ∅ ∅ ∅ ∅)
              (mkCFGState 7 ∅ (fun _ => 6%nat)) 7 in
  let VecTy := VectorTy i32 VF0 in
  exists St' id VectorInit,
    VPFirstOrderRecurrencePHIRecipe_execute R St = Ok (tt, St') /\
    PerPartOutput St' = <[(1%nat, 0%nat) := PHINode id VecTy]> (PerPartOutput St) /\
    Incoming (IR St') !! id = Some [(VectorInit, 6%nat)] /\
    (exists pre,
       Emitted (IR St') = pre ++ [(IP_firstInsertionPt 7, PHINode id VecTy)]) /\
    Builder St' = Builder St /\
    exists LastIdx id',
      VectorInit = InsertElementInst id' (PoisonValue VecTy) Start LastIdx /\
      (IP_beforeTerminator 6, VectorInit) ∈ Emitted (IR St').
Proof.
  intros i32 Start StartVPV R VF0 St VecTy.
  destruct (proj1 (first_order_recurrence_phi R St StartVPV Start eq_refl eq_refl eq_refl))
    as (St' & id & VectorInit & Hrun & Hc & Hin & Hem & HB & Hvec).
  { simpl. lia. }
  exists St', id, VectorInit. repeat (split; [assumption|]).
  simpl in Hvec. destruct Hvec as (LastIdx & id' & HV & Hmem).
  exists LastIdx, id'. split; assumption.
Defined.

(** ** The widened phi of the native path *)

(** The scan over the incoming blocks keeps the last index that matches. *)
Lemma WidenPHI_scan_spec (Blocks : list nat) (Target : nat) (n From StartIdx : nat) :
  (From + n <= length Blocks)%nat ->
  exists i,
    WidenPHI_scan Blocks Target From n StartIdx = Ok i /\
    (((forall j, (From <= j < From + n)%nat -> Blocks !! j <> Some Target) /\
      i = StartIdx) \/
     ((From <= i < From + n)%nat /\ Blocks !! i = Some Target /\
      forall j, (i < j < From + n)%nat -> Blocks !! j <> Some Target)).
Proof.
  revert From StartIdx. induction n as [|n IH]; intros From StartIdx Hlen; simpl.
  - exists StartIdx. split; [reflexivity|]. left. split; [|reflexivity]. intros j Hj. lia.
  - destruct (lookup_lt_is_Some_2 Blocks From ltac:(lia)) as [b Hb]. rewrite Hb.
    destruct (IH (S From) (if Nat.eqb b Target then From else StartIdx) ltac:(lia))
      as (i & Hrun & Hi).
    exists i. split; [exact Hrun|].
    destruct Hi as [[Hnone ->] | (Hr & Hm & Hlater)].
    + destruct (Nat.eqb_spec b Target) as [->|Hne].
      * right. split; [lia|]. split; [exact Hb|]. intros j Hj. apply Hnone. lia.
      * left. split; [|reflexivity]. intros j Hj.
        destruct (decide (j = From)) as [->|Hj']; [|apply Hnone; lia].
        rewrite Hb. congruence.
    + right. split; [lia|]. split; [exact Hm|]. intros j Hj. apply Hlater. lia.
Qed.

(** X25. A widened phi of the native path. The operand whose type the new
    phi takes is operand 0, unless the phi sits in the entry block of its
    loop region and some operand comes from the exiting block of the
    region's predecessor: then it is the last such operand. With that
    operand in the cache for stream 0, execute creates one phi of the type
    of that value, without incoming edges, at the emitter's insertion point,
    and stores it for stream 0 only. With the native path disabled execute
    fails its assertion. *)
Theorem widen_phi_start_operand (R : VPWidenPHIRecipe) :
  (length (WidenPHI_Operands R) <= length (WidenPHI_IncomingBlocks R))%nat ->
  exists i,
    VPWidenPHIRecipe_StartIdx R = Ok i /\
    (if Nat.eqb (WidenPHI_RegionEntry R) (WidenPHI_Parent R)
     then ((forall j, (j < length (WidenPHI_Operands R))%nat ->
              WidenPHI_IncomingBlocks R !! j <> Some (WidenPHI_PreheaderExiting R)) /\
           i = 0%nat) \/
          ((i < length (WidenPHI_Operands R))%nat /\
           WidenPHI_IncomingBlocks R !! i = Some (WidenPHI_PreheaderExiting R) /\
           forall j, (i < j < length (WidenPHI_Operands R))%nat ->
             WidenPHI_IncomingBlocks R !! j <> Some (WidenPHI_PreheaderExiting R))
     else i = 0%nat) /\
    (forall St Op V,
       WidenPHI_Operands R !! i = Some Op ->
       PerPartOutput St !! (VPValue_id Op, 0%nat) = Some V ->
       let Phi := PHINode (NextId (IR St)) (getType V) in
       exists St',
         VPWidenPHIRecipe_execute true R St = Ok (tt, St') /\
         PerPartOutput St'
           = <[(VPValue_id (WidenPHI_self R), 0%nat) := Phi]> (PerPartOutput St) /\
         Emitted (IR St') = Emitted (IR St) ++ [(InsertPt (Builder St), Phi)] /\
         Incoming (IR St') !! NextId (IR St) = Some [] /\
         Builder St' = Builder St) /\
    (forall St,
       VPWidenPHIRecipe_execute false R St
         = AssertionFailure
             "Non-native vplans are not expected to have VPWidenPHIRecipes.").
Proof.
  intros Hlen.
  assert (Hidx : exists i,
            VPWidenPHIRecipe_StartIdx R = Ok i /\
            (if Nat.eqb (WidenPHI_RegionEntry R) (WidenPHI_Parent R)
             then ((forall j, (j < length (WidenPHI_Operands R))%nat ->
                      WidenPHI_IncomingBlocks R !! j
                      <> Some (WidenPHI_PreheaderExiting R)) /\
                   i = 0%nat) \/
                  ((i < length (WidenPHI_Operands R))%nat /\
                   WidenPHI_IncomingBlocks R !! i
                   = Some (WidenPHI_PreheaderExiting R) /\
                   forall j, (i < j < length (WidenPHI_Operands R))%nat ->
                     WidenPHI_IncomingBlocks R !! j
                     <> Some (WidenPHI_PreheaderExiting R))
             else i = 0%nat)).
  { unfold VPWidenPHIRecipe_StartIdx.
    destruct (Nat.eqb (WidenPHI_RegionEntry R) (WidenPHI_Parent R)).
    - destruct (WidenPHI_scan_spec (WidenPHI_IncomingBlocks R)
                  (WidenPHI_PreheaderExiting R) (length (WidenPHI_Operands R)) 0 0
                  ltac:(lia)) as (i & Hrun & Hi).
      exists i. split; [exact Hrun|].
      destruct Hi as [[Hnone ->] | (Hr & Hm & Hlater)].
      + left. split; [|reflexivity]. intros j Hj. apply Hnone. lia.
      + right. split; [lia|]. split; [exact Hm|]. intros j Hj. apply Hlater. lia.
    - exists 0%nat. split; reflexivity. }
  destruct Hidx as (i & Hrun & Hi). exists i. split; [exact Hrun|]. split; [exact Hi|].
  split.
  - intros St Op V HOp HV Phi.
    unfold VPWidenPHIRecipe_execute, liftResult, getOperand, State_get, CreatePHI,
      State_set, Builder_Insert, InsertAt.
    rewrite Hrun. unfold bind, ret, gets, modify, assert. simpl.
    rewrite HOp. simpl. rewrite HV. simpl.
    eexists. split; [reflexivity|]. simpl.
    split; [reflexivity|]. split; [reflexivity|]. split; [|reflexivity].
    apply lookup_insert_eq.
  - intros St. reflexivity.
Qed.

Lemma widen_phi_start_operand_witness :
  let R := mkVPWidenPHIRecipe (mkVPValue 1 (Some 1%nat) None)
             [mkVPValue 2 (Some 2%nat) None; mkVPValue 3 (Some 3%nat) None]
             [8%nat; 9%nat] 10 10 9 in
  exists i,
    VPWidenPHIRecipe_StartIdx R = Ok i /\
    (((forall j, (j < 2)%nat -> WidenPHI_IncomingBlocks R !! j <> Some 9%nat) /\
      i = 0%nat) \/
     ((i < 2)%nat /\ WidenPHI_IncomingBlocks R !! i = Some 9%nat /\
      forall j, (i < j < 2)%nat -> WidenPHI_IncomingBlocks R !! j <> Some 9%nat)).
Proof.
  intros R.
  destruct (widen_phi_start_operand R) as (i & Hrun & Hi & _).
  - simpl. lia.
  - exists i. split; [exact Hrun|exact Hi].
Defined.

(** ** More on the reduction phi *)

Lemma InsertPointGuard_restores {A : Type} (body : M A) :
  preserves (fun St => (FMF (Builder St), Folder (Builder St))) body ->
  preserves Builder (InsertPointGuard body).
Proof.
  intros Hb St a St' H. unfold InsertPointGuard in H.
  unfold bind at 1 in H. simpl in H. unfold bind at 1 in H.
  destruct (body St) as [[b S1]| | |] eqn:E; try discriminate.
  unfold bind at 1 in H. simpl in H. injection H as _ <-.
  specialize (Hb St b S1 E). simpl in Hb. injection Hb as HF HFo.
  simpl. rewrite HF, HFo. by destruct (Builder St).
Qed.

Lemma preserves_InsertPointGuard {X A : Type} (proj : VPTransformState -> X)
  (body : M A) :
  (forall DL ip St, proj (withDebugLocation DL (withInsertPoint ip St)) = proj St) ->
  preserves proj body -> preserves proj (InsertPointGuard body).
Proof.
  intros Hp Hb. unfold InsertPointGuard.
  apply preserves_bind; [apply preserves_gets|]. intros saved.
  apply preserves_bind; [exact Hb|]. intros a.
  apply preserves_bind; [apply preserves_modify; intros ?; apply Hp|].
  intros _. apply preserves_ret.
Qed.

(** The structure of a lowering procedure with loops and both guards. *)
Ltac keeps_guards tac :=
  repeat first
    [ apply preserves_for_range; intros ? ?
    | apply preserves_gatherOperands
    | apply FastMathFlagGuard_restores
    | apply preserves_FastMathFlagGuard; [reflexivity|]
    | apply InsertPointGuard_restores
    | apply preserves_InsertPointGuard; [reflexivity|]
    | apply preserves_ret
    | apply preserves_gets
    | apply preserves_assert
    | apply preserves_AssertionFailure
    | apply preserves_llvm_unreachable
    | apply preserves_unmodelled
    | apply preserves_liftResult
    | match goal with
      | |- preserves _ (InsertAt _ _ _) =>
          let H := fresh "H" in
          intros ? ? ? H; injection H as _ <-; reflexivity
      end
    | apply preserves_State_get
    | apply preserves_Terminator_eraseFromParent; intros ? ?; reflexivity
    | match goal with
      | |- preserves _ (State_set _ _ _) => tac
      end
    | apply preserves_modify; intros ?; reflexivity
    | apply preserves_bind; [|intros ?]
    | match goal with
      | |- preserves _ (match ?x with _ => _ end) => destruct x
      end ].

Ltac unfold_reduction :=
  unfold VPReductionPHIRecipe_execute, VPReductionPHIRecipe_createPhi,
    VPReductionPHIRecipe_seedPhi, VPReductionPHIRecipe_seeds.

(** X26. What the lowering of a reduction phi leaves alone. When execute
    returns, the emitter is exactly as before: the insertion point and the
    debug location that were changed to seed the phis from the preheader are
    put back; the vector width, the stream count, the per-lane cache, the
    poison set and the block bookkeeping are unchanged; and the cache
    entries of every other plan value are untouched. *)
Theorem VPReductionPHIRecipe_execute_frame (R : VPReductionPHIRecipe)
  (St St' : VPTransformState) :
  VPReductionPHIRecipe_execute R St = Ok (tt, St') ->
  Builder St' = Builder St /\
  loweringFrame St' = loweringFrame St /\
  forall v Part, v <> VPValue_id (RedPHI_self R) ->
    PerPartOutput St' !! (v, Part) = PerPartOutput St !! (v, Part).
Proof.
  intros Hrun.
  assert (HB : Builder St' = Builder St).
  { refine ((_ : preserves Builder (VPReductionPHIRecipe_execute R)) _ _ _ Hrun).
    unfold_reduction. unfold_emitter. unfold State_set. keeps_guards idtac. }
  split; [exact HB|]. split.
  - assert (HP : (VF St', UF St', Instance St', PerPartScalars St',
                  MayGeneratePoisonRecipes St', CFG St', CurrentVectorLoopHeader St')
                 = (VF St, UF St, Instance St, PerPartScalars St,
                    MayGeneratePoisonRecipes St, CFG St, CurrentVectorLoopHeader St)).
    { refine ((_ : preserves
                     (fun S0 => (VF S0, UF S0, Instance S0, PerPartScalars S0,
                                 MayGeneratePoisonRecipes S0, CFG S0,
                                 CurrentVectorLoopHeader S0))
                     (VPReductionPHIRecipe_execute R)) _ _ _ Hrun).
      unfold_reduction. unfold_emitter. unfold State_set. keeps_guards idtac. }
    unfold loweringFrame. rewrite HB. injection HP as -> -> -> -> -> -> ->.
    reflexivity.
  - intros v Part Hv.
    refine ((_ : preserves (cacheAt (v, Part)) (VPReductionPHIRecipe_execute R))
              _ _ _ Hrun).
    unfold_reduction. unfold_emitter.
    keeps_guards ltac:(apply preserves_State_set_other; intros [= ? ?]; congruence).
Qed.

Lemma VPReductionPHIRecipe_execute_frame_witness :
  let StartV := ConstantInt 32 10 in
  let PN := mkOrigInstruction Instruction.PHI IRFlags_none ICMP_EQ (IntegerTy 32)
              0 false false false in
  let R := mkVPReductionPHIRecipe (mkVPValue 5 (Some 5%nat) None)
             (Some (UInstruction PN)) (Some (mkVPValue 1 None (Some StartV)))
             (mkRecurrenceDescriptor RK_Add FMF_none) false false in
  let St := mkVPTransformState (mkElementCount 4 false) 2 None ∅ ∅ ∅
              (mkIRBuilderBase (IP_at 0) FMF_none 0 NoFolder)
              (mkIRStore 0 [] ∅ ∅ ∅ ∅ ∅)
              (mkCFGState 0 ∅ (fun _ => 7%nat)) 0 in
  exists St',
    VPReductionPHIRecipe_execute R St = Ok (tt, St') /\
    Builder St' = Builder St /\
    loweringFrame St' = loweringFrame St /\
    forall v Part, v <> 5%nat ->
      PerPartOutput St' !! (v, Part) = PerPartOutput St !! (v, Part).
Proof.
  intros StartV PN R St.
  destruct (VPReductionPHIRecipe_execute R St) as [[[] St']| | |] eqn:Hrun;
    try (vm_compute in Hrun; discriminate).
  exists St'. split; [reflexivity|].
  apply (VPReductionPHIRecipe_execute_frame R St St'). exact Hrun.
Defined.

(** ** Where the widened canonical induction puts its instructions *)

Section EmittedAt.
Variable ip : InsertPoint.

Lemma emittedAt_refl (St : VPTransformState) : emittedAt ip St St.
Proof. exists []. split; [by rewrite app_nil_r|constructor]. Qed.

Lemma emittedAt_trans (S1 S2 S3 : VPTransformState) :
  emittedAt ip S1 S2 -> emittedAt ip S2 S3 -> emittedAt ip S1 S3.
Proof.
  intros (n1 & H1 & F1) (n2 & H2 & F2). exists (n1 ++ n2). split.
  - by rewrite H2, H1, app_assoc.
  - by apply Forall_app.
Qed.

Lemma emittedAt_same_IR (S1 S2 : VPTransformState) :
  IR S2 = IR S1 -> emittedAt ip S1 S2.
Proof. intros H. exists []. split; [by rewrite H, app_nil_r|constructor]. Qed.

Lemma ensures_ret {A : Type} (a : A) : ensures (emittedAt ip) (ret a).
Proof. intros St b St' H. injection H as _ <-. apply emittedAt_refl. Qed.

Lemma ensures_gets {A : Type} (f : VPTransformState -> A) :
  ensures (emittedAt ip) (gets f).
Proof. intros St b St' H. injection H as _ <-. apply emittedAt_refl. Qed.

Lemma ensures_assert (b : bool) (msg : string) : ensures (emittedAt ip) (assert b msg).
Proof.
  intros St a St' H. unfold assert in H. destruct b; [|discriminate].
  injection H as _ <-. apply emittedAt_refl.
Qed.

Lemma ensures_AssertionFailure {A : Type} (msg : string) :
  ensures (emittedAt ip)
    (fun _ : VPTransformState => @AssertionFailure (A * VPTransformState) msg).
Proof. intros St a St' H. discriminate. Qed.

Lemma ensures_bind {A B : Type} (m : M A) (k : A -> M B) :
  ensures (emittedAt ip) m -> (forall a, ensures (emittedAt ip) (k a)) ->
  ensures (emittedAt ip) (bind m k).
Proof.
  intros Hm Hk St b St' H. unfold bind in H.
  destruct (m St) as [[a S1]| | |] eqn:E; try discriminate.
  eapply emittedAt_trans; [exact (Hm St a S1 E)|exact (Hk a S1 b St' H)].
Qed.

Lemma ensures_InsertAt (mk : nat -> Value) (f : IRFlags) :
  ensures (emittedAt ip) (InsertAt ip mk f).
Proof.
  intros St a St' H. injection H as _ <-. eexists. split; [reflexivity|].
  constructor; [reflexivity|constructor].
Qed.

Lemma ensures_State_set (Def : VPValue) (V : Value) (Part : nat) :
  ensures (emittedAt ip) (State_set Def V Part).
Proof. intros St a St' H. injection H as _ <-. by apply emittedAt_same_IR. Qed.

Lemma ensures_for_range (body : nat -> M unit) (n lo : nat) :
  (forall p, ensures (emittedAt ip) (body p)) ->
  ensures (emittedAt ip) (for_range lo n body).
Proof.
  intros Hb. revert lo. induction n as [|n IH]; intros lo; simpl.
  - apply ensures_ret.
  - apply ensures_bind; [apply Hb|]. intros _. apply IH.
Qed.

End EmittedAt.

Ltac emits :=
  repeat first
    [ apply ensures_for_range; intros ?
    | apply ensures_ret
    | apply ensures_gets
    | apply ensures_assert
    | apply ensures_AssertionFailure
    | apply ensures_InsertAt
    | apply ensures_State_set
    | apply ensures_bind; [|intros ?]
    | match goal with
      | |- ensures _ (match ?x with _ => _ end) => destruct x
      end ].

(** X27. The widened canonical induction works with an emitter of its own.
    When execute returns, every instruction it added to the function was
    placed in front of the terminator of the previous block, in creation
    order after what was there; the state's emitter is untouched, and so are
    the vector width, the stream count, the per-lane cache, the poison set,
    the block bookkeeping, the phi edges, the branch successors and the
    cache entries of every other plan value. *)
Theorem widened_canonical_iv_placement (ConstantFolder : IRBuilderFolder)
  (R : VPWidenCanonicalIVRecipe) (St St' : VPTransformState) :
  VPWidenCanonicalIVRecipe_execute ConstantFolder R St = Ok (tt, St') ->
  emittedAt (IP_beforeTerminator (PrevBB (CFG St))) St St' /\
  Builder St' = Builder St /\
  loweringFrame St' = loweringFrame St /\
  (Incoming (IR St'), Successors (IR St'), Terminators (IR St'))
    = (Incoming (IR St), Successors (IR St), Terminators (IR St)) /\
  forall v Part, v <> VPValue_id (WidenCanIV_self R) ->
    PerPartOutput St' !! (v, Part) = PerPartOutput St !! (v, Part).
Proof.
  intros Hrun. split; [|split; [|split; [|split]]].
  - unfold VPWidenCanonicalIVRecipe_execute, getOperand in Hrun.
    destruct (WidenCanIV_Operands R !! 0%nat) as [Op0|]; [|discriminate].
    unfold bind at 1 in Hrun. unfold ret at 1 in Hrun.
    unfold bind at 1 in Hrun. unfold State_get at 1 in Hrun.
    destruct (PerPartOutput St !! (VPValue_id Op0, 0%nat)) as [CanonicalIV|];
      [|discriminate].
    unfold bind at 1 in Hrun. unfold gets at 1 in Hrun.
    revert Hrun. generalize (PrevBB (CFG St)). intros prev Hrun.
    refine ((_ : ensures (emittedAt (IP_beforeTerminator prev)) _) _ _ _ Hrun).
    unfold VPWidenCanonicalIVRecipe_part. unfold_emitter. emits.
  - refine ((_ : preserves Builder
                   (VPWidenCanonicalIVRecipe_execute ConstantFolder R)) _ _ _ Hrun).
    unfold VPWidenCanonicalIVRecipe_execute, VPWidenCanonicalIVRecipe_part.
    unfold_emitter. unfold State_set. keeps_guards idtac.
  - refine ((_ : preserves loweringFrame
                   (VPWidenCanonicalIVRecipe_execute ConstantFolder R)) _ _ _ Hrun).
    unfold VPWidenCanonicalIVRecipe_execute, VPWidenCanonicalIVRecipe_part.
    unfold_emitter. unfold State_set. keeps_guards idtac.
  - refine ((_ : preserves
                   (fun S0 => (Incoming (IR S0), Successors (IR S0), Terminators (IR S0)))
                   (VPWidenCanonicalIVRecipe_execute ConstantFolder R)) _ _ _ Hrun).
    unfold VPWidenCanonicalIVRecipe_execute, VPWidenCanonicalIVRecipe_part.
    unfold_emitter. unfold State_set. keeps_guards idtac.
  - intros v Part Hv.
    refine ((_ : preserves (cacheAt (v, Part))
                   (VPWidenCanonicalIVRecipe_execute ConstantFolder R)) _ _ _ Hrun).
    unfold VPWidenCanonicalIVRecipe_execute, VPWidenCanonicalIVRecipe_part.
    unfold_emitter.
    keeps_guards ltac:(apply preserves_State_set_other; intros [= ? ?]; congruence).
Qed.

Lemma widened_canonical_iv_placement_witness :
  let CanonicalIV := PHINode 0 (IntegerTy 64) in
  let R := mkVPWidenCanonicalIVRecipe (mkVPValue 2 (Some 2%nat) None)
             [mkVPValue 1 (Some 1%nat) None] in
  let St := mkVPTransformState (mkElementCount 4 false) 2 None
              {[ (1%nat, 0%nat) := CanonicalIV ]} ∅ ∅
              (mkIRBuilderBase (IP_at 0) FMF_none 0 NoFolder)
              (mkIRStore 1 [] ∅ ∅ ∅ ∅ ∅)
              (mkCFGState 3 ∅ (fun _ => 0%nat)) 0 in
  exists St',
    VPWidenCanonicalIVRecipe_execute NoFolder R St = Ok (tt, St') /\
    emittedAt (IP_beforeTerminator 3) St St' /\
    Builder St' = Builder St /\
    loweringFrame St' = loweringFrame St /\
    (Incoming (IR St'), Successors (IR St'), Terminators (IR St'))
      = (Incoming (IR St), Successors (IR St), Terminators (IR St)) /\
    forall v Part, v <> 2%nat ->
      PerPartOutput St' !! (v, Part) = PerPartOutput St !! (v, Part).
Proof.
  intros CanonicalIV R St.
  destruct (VPWidenCanonicalIVRecipe_execute NoFolder R St) as [[[] St']| | |] eqn:Hrun;
    try (vm_compute in Hrun; discriminate).
  exists St'. split; [reflexivity|].
  apply (widened_canonical_iv_placement NoFolder R St St'). exact Hrun.
Defined.

(** ** Erasing, and the failures of the canonicality check *)

Lemma iplist_next_split (x : nat) (l1 l2 : list nat) :
  x ∉ l1 -> iplist_next x (l1 ++ x :: l2) = head l2.
Proof.
  induction l1 as [|z l1 IH]; simpl; intros Hp.
  - by rewrite Nat.eqb_refl.
  - apply not_elem_of_cons in Hp as [Hne Hp].
    destruct (Nat.eqb_spec z x); [congruence|]. by apply IH.
Qed.

(** X28. Erasing a linked recipe [R] from a well-linked plan whose block
    list is [l1 ++ R :: l2] returns the recipe that followed [R], or the end
    of the list if [R] was the last one; the plan it leaves is the one that
    removeFromParent leaves, it is well linked, its block list is
    [l1 ++ l2], and the returned recipe is still linked in that block. *)
Theorem eraseFromParent_returns_next (S : VPlanBlocks) (R bb : nat) (l1 l2 : list nat) :
  wellLinked S ->
  Parent S !! R = Some bb ->
  RecipeList S !! bb = Some (l1 ++ R :: l2) ->
  exists S',
    VPRecipeBase_eraseFromParent R S = Ok (head l2, S') /\
    VPRecipeBase_removeFromParent R S = Ok S' /\
    wellLinked S' /\
    RecipeList S' !! bb = Some (l1 ++ l2) /\
    Parent S' !! R = None /\
    forall Q, head l2 = Some Q -> Parent S' !! Q = Some bb.
Proof.
  intros Hwl HR Hl.
  pose proof Hwl as [[Hto Hfrom] Hnd].
  pose proof (Hnd bb _ Hl) as Hnd0.
  apply NoDup_app in Hnd0 as (Hnd1 & Hdisj & Hnd2).
  apply NoDup_cons in Hnd2 as [HR2 Hnd2].
  assert (HR1 : R ∉ l1) by (intros Hin; apply (Hdisj R Hin); by left).
  destruct (removeFromParent_lists S R bb Hwl HR) as (S' & Hrem & Hwl' & Hpar & Hlists).
  exists S'. split; [|split; [exact Hrem|split; [exact Hwl'|]]].
  - unfold VPRecipeBase_eraseFromParent. unfold VPRecipeBase_removeFromParent in Hrem.
    rewrite HR in *. injection Hrem as <-.
    unfold getRecipeList. rewrite Hl. simpl. by rewrite iplist_next_split.
  - unfold VPRecipeBase_removeFromParent in Hrem. rewrite HR in Hrem.
    injection Hrem as <-. simpl. unfold getRecipeList. rewrite Hl. simpl.
    rewrite lookup_insert_eq, iplist_remove_split by done.
    split; [reflexivity|]. split; [apply lookup_delete_eq|].
    intros Q HQ. destruct l2 as [|Q' l2]; [discriminate|]. injection HQ as ->.
    rewrite lookup_delete_ne.
    + eapply Hfrom; [exact Hl|]. rewrite elem_of_app, !elem_of_cons. auto.
    + intros ->. apply HR2. by left.
Qed.

Lemma eraseFromParent_returns_next_witness :
  let S := mkVPlanBlocks {[ 0%nat := [10%nat; 11%nat; 12%nat] ]}
             (<[10%nat := 0%nat]> (<[11%nat := 0%nat]> {[ 12%nat := 0%nat ]})) in
  exists S',
    VPRecipeBase_eraseFromParent 11 S = Ok (Some 12%nat, S') /\
    VPRecipeBase_removeFromParent 11 S = Ok S' /\
    wellLinked S' /\
    RecipeList S' !! 0%nat = Some [10%nat; 12%nat] /\
    Parent S' !! 11%nat = None /\
    forall Q, Some 12%nat = Some Q -> Parent S' !! Q = Some 0%nat.
Proof.
  intros S.
  apply (eraseFromParent_returns_next S 11 0 [10%nat] [12%nat]).
  - apply wellLinked_three.
  - reflexivity.
  - reflexivity.
Defined.

(** X29. When the canonicality check of the widened induction fails. It
    ends in an assertion failure exactly when the start value is defined by
    a recipe, or is a live-in without IR value (the class test is made on a
    null pointer); in every other case it returns an answer. *)
Theorem widened_induction_isCanonical_fails_iff (R : VPWidenIntOrFpInductionRecipe) :
  (isAssertionFailure (VPWidenIntOrFpInductionRecipe_isCanonical R) = true <->
   VPValue_getDef (WidenIV_getStartValue R) <> None \/
   VPValue_UnderlyingVal (WidenIV_getStartValue R) = None) /\
  (isAssertionFailure (VPWidenIntOrFpInductionRecipe_isCanonical R) = false ->
   exists b, VPWidenIntOrFpInductionRecipe_isCanonical R = Ok b).
Proof.
  unfold VPWidenIntOrFpInductionRecipe_isCanonical, VPValue_getLiveInIRValue, dyn_cast.
  destruct (VPValue_getDef (WidenIV_getStartValue R)) as [d|]; simpl.
  - split; [|discriminate]. split; [intros _; left; discriminate|reflexivity].
  - destruct (VPValue_UnderlyingVal (WidenIV_getStartValue R)) as [v|]; simpl.
    + split; [|eauto]. split; [discriminate|]. intros [H|H]; [congruence|discriminate].
    + split; [|discriminate]. split; [auto|reflexivity].
Qed.

(** X30. The active-lane mask. With lane 0 of the induction value and the
    trip count of the stream at hand, generateInstruction creates one call
    that is never folded: its result type is the vector of [i1] at the
    vector width, its arguments are that lane 0 and the trip count, and it
    is stored for this stream only. *)
Theorem active_lane_mask_lowering (R : VPInstruction) (St S1 : VPTransformState)
  (Op0 Op1 : VPValue) (VIVElem0 ScalarTC : Value) (Part : nat) :
  VPI_Opcode R = VPInstruction.ActiveLaneMask ->
  VPI_Operands R !! 0%nat = Some Op0 ->
  VPI_Operands R !! 1%nat = Some Op1 ->
  State_get_lane Op0 Part 0 (withDebugLocation (VPI_DL R) St) = Ok (VIVElem0, S1) ->
  PerPartOutput St !! (VPValue_id Op1, Part) = Some ScalarTC ->
  let Call := ActiveLaneMaskCall (NextId (IR S1))
                (VectorType_get (IntegerTy 1) (VF St)) VIVElem0 ScalarTC in
  exists St',
    VPInstruction_generateInstruction R Part St = Ok (tt, St') /\
    PerPartOutput St'
      = <[(VPValue_id (VPI_self R), Part) := Call]> (PerPartOutput St) /\
    Emitted (IR St') = Emitted (IR S1) ++ [(InsertPt (Builder St), Call)] /\
    getType Call = VectorTy (IntegerTy 1) (VF St).
Proof.
  intros Hopc H0 H1 Hget HTC Call.
  pose proof (State_get_lane_keeps Op0 Part 0 _ _ _ Hget) as Hk. simpl in Hk.
  injection Hk as HB HC HP HTm HS.
  assert (HVF : VF S1 = VF St).
  { refine ((_ : preserves VF (State_get_lane Op0 Part 0)) _ _ _ Hget).
    unfold State_get_lane, CreateExtractElement, Builder_Insert. keeps. }
  unfold VPInstruction_generateInstruction, Builder_SetCurrentDebugLocation, getOperand.
  rewrite Hopc, H0, H1.
  unfold bind at 1. unfold modify at 1.
  unfold bind at 1. unfold ret at 1. unfold bind at 1. rewrite Hget.
  unfold State_get, CreateActiveLaneMask, State_set, Builder_Insert, InsertAt.
  unfold bind, ret, gets, modify. simpl. rewrite HP, HTC. simpl.
  eexists. split; [reflexivity|]. simpl. rewrite HP, HB, HVF. simpl.
  repeat split; reflexivity.
Qed.

Lemma active_lane_mask_lowering_witness :
  let i64 := IntegerTy 64 in
  let IV := Argument 0 i64 in
  let TC := Argument 1 i64 in
  let Op0 := mkVPValue 1 None (Some IV) in
  let Op1 := mkVPValue 2 (Some 2%nat) None in
  let R := mkVPInstruction (mkVPValue 3 (Some 3%nat) None)
             VPInstruction.ActiveLaneMask [Op0; Op1] FMF_none 0 false 0 0 in
  let St := mkVPTransformState (mkElementCount 4 false) 2 None
              {[ (2%nat, 1%nat) := TC ]} ∅ ∅
              (mkIRBuilderBase (IP_at 7) FMF_none 0 NoFolder)
              (mkIRStore 5 [] ∅ ∅ ∅ ∅ ∅)
              (mkCFGState 7 ∅ (fun _ => 6%nat)) 7 in
  let Call := ActiveLaneMaskCall 5 (VectorTy (IntegerTy 1) (mkElementCount 4 false))
                IV TC in
  exists St',
    VPInstruction_generateInstruction R 1 St = Ok (tt, St') /\
    PerPartOutput St' = <[(3%nat, 1%nat) := Call]> (PerPartOutput St) /\
    Emitted (IR St') = [(IP_at 7, Call)] /\
    getType Call = VectorTy (IntegerTy 1) (mkElementCount 4 false).
Proof.
  intros i64 IV TC Op0 Op1 R St Call.
  apply (active_lane_mask_lowering R St (withDebugLocation 0 St) Op0 Op1 IV TC 1);
    reflexivity.
Defined.
